(** * Entire CLI: shadow branches, commit messages, transcripts and the commands

    A shallow embedding of the Go sources and the properties proved of them.
    The first part holds the definitions, one module per package or file; the
    second part holds the lemmas and theorems.

    Go strings are byte sequences; they are modelled as [string] (a list of
    8-bit [ascii] characters), so [String.length] is Go's [len].  Go slices
    distinguish [nil] from an empty slice; where the code cares, a slice is an
    [option (list _)] with [None] for [nil].  Functions that return
    [(value, error)] return a [result]; functions that print or write files
    take and return the state they act on. *)

From stdpp Require Import gmap strings list sorting pretty.
From Stdlib Require Import ZArith Ascii String Lia.
From Stdlib Require QArith.

Open Scope string_scope.

(** ** Go values: slices, errors, results *)

Module Go.

(** Go slices: [None] is the [nil] slice, [Some l] a non-nil slice holding [l]. *)
Definition slice (A : Type) : Type := option (list A).

(** [append(s, x)]: the result is never [nil]. *)
Definition append {A : Type} (s : slice A) (x : A) : slice A :=
  match s with
  | None => Some [x]
  | Some l => Some (l ++ [x])%list
  end.

(** The elements of a slice; [nil] has none. *)
Definition elems {A : Type} (s : slice A) : list A :=
  match s with
  | None => []
  | Some l => l
  end.

(** A value or the message of the error returned in its place. *)
Inductive result (A : Type) : Type :=
| Ok : A -> result A
| Err : string -> result A.
Arguments Ok {A} _.
Arguments Err {A} _.

(** Go's [error]: [None] is [nil]. *)
Definition error : Type := option string.

(** [plumbing.NewBranchReferenceName] of go-git. *)
Definition NewBranchReferenceName (branch : string) : string := "refs/heads/" ++ branch.

End Go.

(** ** Regular expressions (the fragment of Go's [regexp] the sources use) *)

Module Regexp.

(** A character class is a list of inclusive byte ranges, as in [[0-9a-f]]. *)
Inductive regexp : Type :=
| Void : regexp
| Eps : regexp
| Class : list (ascii * ascii) -> regexp
| Cat : regexp -> regexp -> regexp
| Alt : regexp -> regexp -> regexp
| Star : regexp -> regexp.

Definition in_range (c : ascii) (r : ascii * ascii) : bool :=
  (nat_of_ascii (fst r) <=? nat_of_ascii c)%nat && (nat_of_ascii c <=? nat_of_ascii (snd r))%nat.

Definition in_class (rs : list (ascii * ascii)) (c : ascii) : bool :=
  existsb (in_range c) rs.

(** A literal character is the class holding just that character. *)
Definition Chr (c : ascii) : regexp := Class [(c, c)].

(** A literal string: the concatenation of its characters. *)
Fixpoint Lit (s : string) : regexp :=
  match s with
  | EmptyString => Eps
  | String c s' => Cat (Chr c) (Lit s')
  end.

(** [r{n}]: exactly [n] copies. *)
Fixpoint Times (n : nat) (r : regexp) : regexp :=
  match n with
  | O => Eps
  | S n' => Cat r (Times n' r)
  end.

(** [r{n,}]: at least [n] copies. *)
Definition AtLeast (n : nat) (r : regexp) : regexp := Cat (Times n r) (Star r).

(** Declarative meaning: the strings a regular expression denotes. *)
Inductive lang : regexp -> string -> Prop :=
| lang_eps : lang Eps ""
| lang_class rs c : in_class rs c = true -> lang (Class rs) (String c "")
| lang_cat r1 r2 s1 s2 : lang r1 s1 -> lang r2 s2 -> lang (Cat r1 r2) (s1 ++ s2)
| lang_alt_l r1 r2 s : lang r1 s -> lang (Alt r1 r2) s
| lang_alt_r r1 r2 s : lang r2 s -> lang (Alt r1 r2) s
| lang_star_nil r : lang (Star r) ""
| lang_star_cons r s1 s2 : lang r s1 -> lang (Star r) s2 -> lang (Star r) (s1 ++ s2).

(** The matcher: Brzozowski derivatives. *)
Fixpoint nullable (r : regexp) : bool :=
  match r with
  | Void => false
  | Eps => true
  | Class _ => false
  | Cat r1 r2 => nullable r1 && nullable r2
  | Alt r1 r2 => nullable r1 || nullable r2
  | Star _ => true
  end.

Fixpoint deriv (c : ascii) (r : regexp) : regexp :=
  match r with
  | Void => Void
  | Eps => Void
  | Class rs => if in_class rs c then Eps else Void
  | Cat r1 r2 =>
      if nullable r1 then Alt (Cat (deriv c r1) r2) (deriv c r2)
      else Cat (deriv c r1) r2
  | Alt r1 r2 => Alt (deriv c r1) (deriv c r2)
  | Star r1 => Cat (deriv c r1) (Star r1)
  end.

(** [full_match r s]: the whole of [s] matches [r].  This is what
    [MatchString] computes for a pattern of the shape [^r$] (no flags): the
    two anchors pin the match to the beginning and the end of the text. *)
Fixpoint full_match (r : regexp) (s : string) : bool :=
  match s with
  | EmptyString => nullable r
  | String c s' => full_match (deriv c r) s'
  end.

End Regexp.

(** ** Go's [strings] package: the functions the sources call *)

Module Strings.

(** [strings.HasPrefix(s, prefix)]. *)
Fixpoint HasPrefix (s prefix : string) {struct prefix} : bool :=
  match prefix, s with
  | EmptyString, _ => true
  | String a p', String b s' => Ascii.eqb a b && HasPrefix s' p'
  | String _ _, EmptyString => false
  end.

(** [s[n:]] for [n <= len(s)]. *)
Fixpoint drop (n : nat) (s : string) : string :=
  match n, s with
  | O, _ => s
  | S n', String _ s' => drop n' s'
  | S _, EmptyString => EmptyString
  end.

(** [s[:n]] for [n <= len(s)]. *)
Fixpoint take (n : nat) (s : string) : string :=
  match n, s with
  | O, _ => EmptyString
  | S n', String c s' => String c (take n' s')
  | S _, EmptyString => EmptyString
  end.

(** [strings.TrimPrefix(s, prefix)]. *)
Definition TrimPrefix (s prefix : string) : string :=
  if HasPrefix s prefix then drop (String.length prefix) s else s.

(** [strings.HasSuffix(s, suffix)]. *)
Definition HasSuffix (s suffix : string) : bool :=
  (String.length suffix <=? String.length s)%nat &&
  String.eqb (drop (String.length s - String.length suffix) s) suffix.

(** [strings.TrimSuffix(s, suffix)]. *)
Definition TrimSuffix (s suffix : string) : string :=
  if HasSuffix s suffix then take (String.length s - String.length suffix) s else s.

(** A string from its byte values. *)
Definition bytes (l : list nat) : string :=
  fold_right (fun n s => String (ascii_of_nat n) s) EmptyString l.

(** [unicode.IsSpace], read on UTF-8 bytes.  One byte: tab, line feed,
    vertical tab, form feed, carriage return, space. *)
Definition is_space1 (c : ascii) : bool :=
  let n := nat_of_ascii c in
  ((9 <=? n) && (n <=? 13) || (n =? 32))%nat.

(** Two bytes: U+0085 (C2 85) and U+00A0 (C2 A0). *)
Definition is_space2 (c1 c2 : ascii) : bool :=
  let n1 := nat_of_ascii c1 in
  let n2 := nat_of_ascii c2 in
  ((n1 =? 194) && ((n2 =? 133) || (n2 =? 160)))%nat.

(** Three bytes: U+1680 (E1 9A 80), U+2000..U+200A (E2 80 80..8A), U+2028,
    U+2029 (E2 80 A8, A9), U+202F (E2 80 AF), U+205F (E2 81 9F) and U+3000
    (E3 80 80). *)
Definition is_space3 (c1 c2 c3 : ascii) : bool :=
  let n1 := nat_of_ascii c1 in
  let n2 := nat_of_ascii c2 in
  let n3 := nat_of_ascii c3 in
  ((n1 =? 225) && (n2 =? 154) && (n3 =? 128)
   || (n1 =? 226) && (n2 =? 128)
      && ((128 <=? n3) && (n3 <=? 138) || (n3 =? 168) || (n3 =? 169) || (n3 =? 175))
   || (n1 =? 226) && (n2 =? 129) && (n3 =? 159)
   || (n1 =? 227) && (n2 =? 128) && (n3 =? 128))%nat.

(** Dropping the white space a string starts with.  [sp2] and [sp3] say which
    two and three leading bytes are white space: read forwards for the left
    end of a string, backwards for the right end of its reversal.  A lead
    byte of a white-space character never is white space by itself, nor do
    the first two bytes of a three-byte one form a two-byte one, so testing
    the shorter encodings first loses nothing. *)
Fixpoint trim_front (sp2 : ascii -> ascii -> bool) (sp3 : ascii -> ascii -> ascii -> bool)
    (s : string) : string :=
  match s with
  | EmptyString => EmptyString
  | String c1 r1 =>
      if is_space1 c1 then trim_front sp2 sp3 r1
      else
        match r1 with
        | EmptyString => s
        | String c2 r2 =>
            if sp2 c1 c2 then trim_front sp2 sp3 r2
            else
              match r2 with
              | EmptyString => s
              | String c3 r3 =>
                  if sp3 c1 c2 c3 then trim_front sp2 sp3 r3 else s
              end
        end
  end.

(** The bytes of [s] in reverse order, in front of [acc]. *)
Fixpoint rev_onto (s acc : string) : string :=
  match s with
  | EmptyString => acc
  | String c s' => rev_onto s' (String c acc)
  end.

Definition rev (s : string) : string := rev_onto s EmptyString.

(** [strings.TrimLeftFunc(s, unicode.IsSpace)]. *)
Definition TrimLeftSpace (s : string) : string := trim_front is_space2 is_space3 s.

(** [strings.TrimRightFunc(s, unicode.IsSpace)]: the last character is found
    by walking back from the end, that is forwards in the reversed string. *)
Definition TrimRightSpace (s : string) : string :=
  rev (trim_front (fun c1 c2 => is_space2 c2 c1) (fun c1 c2 c3 => is_space3 c3 c2 c1) (rev s)).

(** [strings.TrimSpace(s)]. *)
Definition TrimSpace (s : string) : string := TrimRightSpace (TrimLeftSpace s).

(** [unicode.ToUpper] on the code points below U+0100. *)
Definition upper_latin1 (r : nat) : nat :=
  if ((97 <=? r) && (r <=? 122))%nat then (r - 32)%nat
  else if (r =? 181)%nat then 924
  else if ((224 <=? r) && (r <=? 254) && negb (r =? 247))%nat then (r - 32)%nat
  else if (r =? 255)%nat then 376
  else r.

(** UTF-8 encoding of a code point below U+0800. *)
Definition utf8_encode (r : nat) : string :=
  if (r <? 128)%nat then bytes [r]
  else bytes [(192 + r / 64)%nat; (128 + r mod 64)%nat].

(** [strings.ToUpper(string(b))] for a byte [b]: the conversion reads the
    byte as a code point and encodes it in UTF-8 (two bytes from 0x80 on). *)
Definition ToUpper_byte (b : ascii) : string :=
  utf8_encode (upper_latin1 (nat_of_ascii b)).

(** A UTF-8 continuation byte, 0x80..0xBF. *)
Definition is_cont (c : ascii) : bool :=
  let n := nat_of_ascii c in ((128 <=? n) && (n <=? 191))%nat.

(** The first two bytes can start a three-byte encoding: E0 A0..BF, E1..EC
    and EE..EF with a continuation byte, ED 80..9F. *)
Definition lead3 (c0 c1 : ascii) : bool :=
  let n0 := nat_of_ascii c0 in
  let n1 := nat_of_ascii c1 in
  ((n0 =? 224) && (160 <=? n1) && (n1 <=? 191)
   || ((225 <=? n0) && (n0 <=? 236) || (238 <=? n0) && (n0 <=? 239)) && is_cont c1
   || (n0 =? 237) && (128 <=? n1) && (n1 <=? 159))%nat.

(** The first two bytes can start a four-byte encoding: F0 90..BF, F1..F3
    with a continuation byte, F4 80..8F. *)
Definition lead4 (c0 c1 : ascii) : bool :=
  let n0 := nat_of_ascii c0 in
  let n1 := nat_of_ascii c1 in
  ((n0 =? 240) && (144 <=? n1) && (n1 <=? 191)
   || (241 <=? n0) && (n0 <=? 243) && is_cont c1
   || (n0 =? 244) && (128 <=? n1) && (n1 <=? 143))%nat.

(** [utf8.RuneCountInString(s)]: the number of code points of [s], a byte
    that starts no valid encoding counting as one. *)
Fixpoint RuneCount (s : string) : nat :=
  match s with
  | EmptyString => O
  | String c0 r1 =>
      if (nat_of_ascii c0 <? 128)%nat then S (RuneCount r1)
      else
        match r1 with
        | EmptyString => 1%nat
        | String c1 r2 =>
            if ((194 <=? nat_of_ascii c0) && (nat_of_ascii c0 <=? 223))%nat && is_cont c1
            then S (RuneCount r2)
            else
              match r2 with
              | EmptyString => S (RuneCount r1)
              | String c2 r3 =>
                  if lead3 c0 c1 && is_cont c2 then S (RuneCount r3)
                  else
                    match r3 with
                    | EmptyString => S (RuneCount r1)
                    | String c3 r4 =>
                        if lead4 c0 c1 && is_cont c2 && is_cont c3 then S (RuneCount r4)
                        else S (RuneCount r1)
                    end
              end
        end
  end.


(** Every byte is below 0x80. *)
Fixpoint all_ascii (s : string) : bool :=
  match s with
  | EmptyString => true
  | String c s' => (nat_of_ascii c <? 128)%nat && all_ascii s'
  end.

End Strings.

(** ** Shadow branches (package [strategy]) *)

Module Shadow.

Import Go Regexp Strings.

(** [[0-9a-fA-F]] *)
Definition hexClass : list (ascii * ascii) :=
  [("0"%char, "9"%char); ("a"%char, "f"%char); ("A"%char, "F"%char)].

Definition is_hex (c : ascii) : bool := in_class hexClass c.

(** [regexp.MustCompile(`^entire/[0-9a-fA-F]{7,}$`)]; the anchors are
    accounted for by matching the whole text ([full_match]). *)
Definition shadowBranchPattern : regexp :=
  Cat (Lit "entire/") (AtLeast 7 (Class hexClass)).

Definition IsShadowBranch (branchName : string) : bool :=
  if String.eqb branchName "entire/sessions" then false
  else full_match shadowBranchPattern branchName.

(** Every character of [s] is in the class [rs]. *)
Fixpoint all_in (rs : list (ascii * ascii)) (s : string) : bool :=
  match s with
  | EmptyString => true
  | String c s' => in_class rs c && all_in rs s'
  end.

(** The reference store and what can go wrong with it.  [refs] are the full
    reference names ([refs/heads/main], [refs/tags/v1], [HEAD], ...) in the
    storer's iteration order; [refs_unreadable] makes [References()] fail;
    [remove_fails] tells for which names [RemoveReference] reports an error. *)
Record Repository : Type := {
  refs : list string;
  refs_unreadable : bool;
  remove_fails : string -> bool
}.

(** [OpenRepository()]: the process either stands in a repository or not. *)
Definition OpenRepository (env : option Repository) : result Repository :=
  match env with
  | Some repo => Ok repo
  | None => Err "repository does not exist"
  end.

(** [repo.References()].  The iterator it returns walks [refs] and does not
    fail on its own; the callback of [ListShadowBranches] never returns an
    error, so [ForEach] returns none. *)
Definition References (repo : Repository) : result (list string) :=
  if refs_unreadable repo then Err "cannot read references" else Ok (refs repo).

(** [ReferenceName.IsBranch]. *)
Definition IsBranch (name : string) : bool := HasPrefix name "refs/heads/".

(** The callback [ListShadowBranches] hands to [refs.ForEach], as a step on
    the accumulated slice. *)
Definition list_step (shadowBranches : slice string) (ref : string) : slice string :=
  if negb (IsBranch ref) then shadowBranches
  else
    let branchName := TrimPrefix ref "refs/heads/" in
    if IsShadowBranch branchName then append shadowBranches branchName
    else shadowBranches.

Definition ListShadowBranches (env : option Repository) : slice string * error :=
  match OpenRepository env with
  | Err e => (None, Some ("failed to open git repository: " ++ e))
  | Ok repo =>
      match References repo with
      | Err e => (None, Some ("failed to get references: " ++ e))
      | Ok rs =>
          let shadowBranches := fold_left list_step rs None in
          let shadowBranches :=
            match shadowBranches with
            | None => Some []
            | Some l => Some l
            end in
          (shadowBranches, None)
      end
  end.

(** [repo.Reference(name, true)]: the reference must be in the store. *)
Definition Reference (repo : Repository) (name : string) : result string :=
  if existsb (String.eqb name) (refs repo) then Ok name
  else Err "reference not found".

(** [repo.Storer.RemoveReference(name)]. *)
Definition RemoveReference (repo : Repository) (name : string) : result Repository :=
  if remove_fails repo name then Err "cannot remove reference"
  else Ok {| refs := List.filter (fun r => negb (String.eqb name r)) (refs repo);
             refs_unreadable := refs_unreadable repo;
             remove_fails := remove_fails repo |}.

(** The [for _, branch := range branches] loop of [DeleteShadowBranches],
    threading the repository and the two named results. *)
Fixpoint delete_loop (repo : Repository) (branches : list string)
    (deleted failed : slice string) : Repository * slice string * slice string :=
  match branches with
  | [] => (repo, deleted, failed)
  | branch :: rest =>
      let refName := NewBranchReferenceName branch in
      match Reference repo refName with
      | Err _ => delete_loop repo rest deleted (append failed branch)
      | Ok ref =>
          match RemoveReference repo ref with
          | Err _ => delete_loop repo rest deleted (append failed branch)
          | Ok repo' => delete_loop repo' rest (append deleted branch) failed
          end
      end
  end.

(** Returns the environment after the call and [(deleted, failed, err)].
    The argument is read only through [len] and [range], for which a [nil]
    and an empty slice are the same: it is taken as a list. *)
Definition DeleteShadowBranches (env : option Repository) (branches : list string)
    : option Repository * (slice string * slice string * error) :=
  match branches with
  | [] => (env, (Some [], Some [], None))
  | _ :: _ =>
      match OpenRepository env with
      | Err e => (env, (None, None, Some ("failed to open git repository: " ++ e)))
      | Ok repo =>
          let '(repo', deleted, failed) := delete_loop repo branches None None in
          (Some repo', (deleted, failed, None))
      end
  end.

(** The local branch names of a reference list: the names under
    [refs/heads/], with that prefix removed. *)
Definition local_branches (rs : list string) : list string :=
  List.map (fun r => TrimPrefix r "refs/heads/") (List.filter IsBranch rs).

(** [app_slice s l]: [s] after appending the elements of [l] one by one. *)
Definition app_slice {A : Type} (s : slice A) (l : list A) : slice A :=
  match l with
  | [] => s
  | _ :: _ => Some (elems s ++ l)%list
  end.

(** A branch can be deleted from [repo]: its reference is in the store and
    the store does not refuse to remove it. *)
Definition deletable (repo : Repository) (b : string) : bool :=
  existsb (String.eqb (NewBranchReferenceName b)) (refs repo)
  && negb (remove_fails repo (NewBranchReferenceName b)).

(** The references of [rs] other than the branches [dl]. *)
Definition without (dl : list string) (rs : list string) : list string :=
  List.filter (fun r => negb (existsb (fun b => String.eqb (NewBranchReferenceName b) r) dl)) rs.

(** What the loop has done when it ends, in terms of the names [dl] it
    deleted and the names [fl] it failed on. *)
Definition loop_post (repo : Repository) (bs dl fl : list string) (repo' : Repository) : Prop :=
  Permutation (dl ++ fl) bs /\
  sublist dl bs /\ sublist fl bs /\
  (forall b, In b dl <-> In b bs /\ deletable repo b = true) /\
  refs repo' = without dl (refs repo) /\
  remove_fails repo' = remove_fails repo /\
  refs_unreadable repo' = refs_unreadable repo.

(** A repository with no shadow branch at all. *)
Definition plain_repo : Repository :=
  {| refs := ["HEAD"; "refs/heads/master"];
     refs_unreadable := false;
     remove_fails := fun _ => false |}.

End Shadow.

(** ** Commit messages from prompts (package [cli]) *)

Module CommitMessage.

Import Strings.

Definition prefixes : list string :=
  [ "Can you "; "can you "; "Please "; "please "; "Let's "; "let's ";
    "Could you "; "could you "; "Would you "; "would you ";
    "I want you to "; "I'd like you to "; "I need you to " ].

(** The inner [for _, prefix := range prefixes]: the string without the first
    prefix that matches, or [None] when none does ([found] stays false). *)
Fixpoint strip_first (ps : list string) (cleaned : string) : option string :=
  match ps with
  | [] => None
  | prefix :: ps' =>
      if HasPrefix cleaned prefix then Some (TrimPrefix cleaned prefix)
      else strip_first ps' cleaned
  end.

(** The outer [for { ... }]: at most [fuel] rounds. *)
Fixpoint strip_loop (fuel : nat) (cleaned : string) : string :=
  match fuel with
  | O => cleaned
  | S fuel' =>
      match strip_first prefixes cleaned with
      | Some cleaned' => strip_loop fuel' cleaned'
      | None => cleaned
      end
  end.

(** Every round removes at least one byte, so [len(prompt)] rounds are enough
    ([strip_loop_fuel] below). *)
Definition strip_prefixes (prompt : string) : string :=
  strip_loop (String.length prompt) prompt.

Definition cleanPromptForCommit (prompt : string) : string :=
  let cleaned := strip_prefixes prompt in
  let cleaned := TrimSuffix cleaned "?" in
  let cleaned := TrimSpace cleaned in
  let cleaned :=
    if (72 <? String.length cleaned)%nat then TrimSpace (take 72 cleaned) else cleaned in
  match cleaned with
  | EmptyString => cleaned
  | String c0 rest => ToUpper_byte c0 ++ rest
  end.

Definition generateCommitMessage (originalPrompt : string) : string :=
  if negb (String.eqb originalPrompt "") then
    let cleaned := cleanPromptForCommit originalPrompt in
    if negb (String.eqb cleaned "") then cleaned
    else "Claude Code session updates"
  else "Claude Code session updates".

(** A prompt of 73 bytes: the two bytes of a UTF-8 [e] with acute accent
    (C3 A9), then 71 times the letter [a]. *)
Definition accented_prompt : string :=
  bytes [195; 169]
  ++ "aaaaaaaaaaaaaaaaaaaaaaaaaaaaaaaaaaaaaaaaaaaaaaaaaaaaaaaaaaaaaaaaaaaaaaa".

(** The description before its first letter is capitalised. *)
Definition truncated (prompt : string) : string :=
  let cleaned := TrimSpace (TrimSuffix (strip_prefixes prompt) "?") in
  if (72 <? String.length cleaned)%nat then TrimSpace (take 72 cleaned) else cleaned.

End CommitMessage.

(** ** Summarize (package [cli], [summarize.go]) *)

Module Summarize.

Import Go Strings.

(** Commit hashes. *)
Definition Hash : Type := string.

(** What [repo.Reference] answers. *)
Inductive lookup_result : Type :=
| Found : Hash -> lookup_result
| NotFound : lookup_result              (* [plumbing.ErrReferenceNotFound] *)
| LookupFailed : string -> lookup_result.

(** A pre-order walk of the history from a commit: the hashes it yields, and
    the error that ends it when an object cannot be read. *)
Record walk : Type := {
  visited : list Hash;
  broken : option string
}.

(** The repository as [ValidateSummarize] observes it.  The helpers
    [IsOnDefaultBranch], [HasUncommittedChanges], [GetCurrentBranch] and
    [GetMergeBase] live in another file of the package; each is taken with the
    result it returns. *)
Record Git : Type := {
  opens : result unit;                          (* [openRepository()] *)
  IsOnDefaultBranch : result (bool * string);
  HasUncommittedChanges : result bool;
  GetCurrentBranch : result string;
  GetMergeBase : string -> string -> result Hash;
  reference : string -> lookup_result;          (* [repo.Reference(name, true)] *)
  Head : result Hash;                           (* [repo.Head()] *)
  CommitObject : Hash -> result unit;           (* [repo.CommitObject(h)] *)
  preorder : Hash -> walk                       (* [object.NewCommitPreorderIter] *)
}.

Definition BranchExists (g : Git) (branchName : string) : result bool :=
  match opens g with
  | Err e => Err ("failed to open git repository: " ++ e)
  | Ok _ =>
      match reference g (NewBranchReferenceName branchName) with
      | Found _ => Ok true
      | NotFound => Ok false
      | LookupFailed e => Err ("failed to check branch: " ++ e)
      end
  end.

(** The callback of [iter.ForEach] in [CountCommitsBetween], run over the
    hashes the walk yields: [inl count] when the walk was stopped at [from],
    [inr count] when it ran to its end. *)
Fixpoint count_until (from : Hash) (cs : list Hash) (count : Z) : Z + Z :=
  match cs with
  | [] => inr count
  | c :: cs' =>
      if String.eqb c from then inl count
      else count_until from cs' (count + 1)%Z
  end.

Definition CountCommitsBetween (g : Git) (from to : Hash) : result Z :=
  match opens g with
  | Err e => Err ("failed to open git repository: " ++ e)
  | Ok _ =>
      match CommitObject g to with
      | Err e => Err ("failed to get 'to' commit: " ++ e)
      | Ok _ =>
          match count_until from (visited (preorder g to)) 0%Z with
          | inl count => Ok count
          | inr count =>
              match broken (preorder g to) with
              | Some e =>
                  if String.eqb e "stop" then Ok count
                  else Err ("failed to iterate commits: " ++ e)
              | None => Ok count
              end
          end
      end
  end.

Definition ValidateSummarize (g : Git) (targetBranch : string)
    (skipDefaultBranchCheck : bool) : error :=
  let default_check : error :=
    if negb skipDefaultBranchCheck then
      match IsOnDefaultBranch g with
      | Err e => Some ("failed to check current branch: " ++ e)
      | Ok (isDefault, branchName) =>
          if isDefault
          then Some ("cannot summarize '" ++ branchName ++ "' branch - create a feature branch first")
          else None
      end
    else None in
  match default_check with
  | Some e => Some e
  | None =>
  match BranchExists g targetBranch with
  | Err e => Some ("failed to check target branch: " ++ e)
  | Ok false => Some ("target branch '" ++ targetBranch ++ "' not found")
  | Ok true =>
  match HasUncommittedChanges g with
  | Err e => Some ("failed to check for uncommitted changes: " ++ e)
  | Ok true => Some "uncommitted changes detected - commit or stash them before summarizing"
  | Ok false =>
  match GetCurrentBranch g with
  | Err e => Some ("failed to get current branch: " ++ e)
  | Ok currentBranch =>
  match GetMergeBase g currentBranch targetBranch with
  | Err e => Some ("failed to find common ancestor with " ++ targetBranch ++ ": " ++ e)
  | Ok mergeBase =>
  match opens g with
  | Err e => Some ("failed to open git repository: " ++ e)
  | Ok _ =>
  match Head g with
  | Err e => Some ("failed to get HEAD: " ++ e)
  | Ok headHash =>
  match CountCommitsBetween g mergeBase headHash with
  | Err e => Some ("failed to count commits: " ++ e)
  | Ok count =>
      if (count =? 0)%Z
      then Some ("no commits to summarize - branch is at same commit as " ++ targetBranch)
      else None
  end end end end end end end end.

(** [sort.Strings]: byte-wise lexicographic order. *)
Definition string_le (a b : string) : Prop := String.leb a b = true.

#[global] Instance string_le_dec (a b : string) : Decision (string_le a b).
Proof. unfold string_le. apply _. Defined.

Definition sort_strings (keys : list string) : list string := merge_sort string_le keys.

(** [fmt.Sprintf("\n%s: %s", key, trailers[key])]; a missing key reads as the
    empty string. *)
Definition trailer_line (trailers : gmap string string) (key : string) : string :=
  key ++ ": " ++ default "" (trailers !! key).

(** The text the [strings.Builder] holds after the loop over [keys]. *)
Definition build_trailers (trailers : gmap string string) (keys : list string) : string :=
  fold_left (fun sb key => sb ++ String "010"%char (trailer_line trailers key)) keys "".

(** The message [CreateSquashedBranch] gives the squashed commit, lines
    169-186.  [for k := range trailers] visits the keys in some order; they
    are sorted before use, so the order of [map_to_list] stands for any. *)
Definition fullMessage (message : string) (trailers : gmap string string) : string :=
  if (0 <? size trailers)%nat then
    let keys := sort_strings (map_to_list trailers).*1 in
    (message ++ String "010"%char "") ++ build_trailers trailers keys
  else message.

(** The number of commits from the merge base with [target] to HEAD, when
    every lookup on the way succeeds. *)
Definition commits_ahead (g : Git) (target : string) : option Z :=
  match GetCurrentBranch g with
  | Ok currentBranch =>
      match GetMergeBase g currentBranch target with
      | Ok mergeBase =>
          match Head g with
          | Ok headHash =>
              match CountCommitsBetween g mergeBase headHash with
              | Ok count => Some count
              | Err _ => None
              end
          | Err _ => None
          end
      | Err _ => None
      end
  | Err _ => None
  end.

(** A checkout of the default branch [main], two commits ahead of
    [develop]. *)
Definition on_main : Git :=
  {| opens := Ok tt;
     IsOnDefaultBranch := Ok (true, "main");
     HasUncommittedChanges := Ok false;
     GetCurrentBranch := Ok "main";
     GetMergeBase := fun _ _ => Ok "c0";
     reference := fun name =>
       if String.eqb name "refs/heads/develop" then Found "c0"
       else if String.eqb name "refs/heads/main" then Found "c2"
       else NotFound;
     Head := Ok "c2";
     CommitObject := fun _ => Ok tt;
     preorder := fun _ => {| visited := ["c2"; "c1"; "c0"]; broken := None |} |}.

(** The five cases of [TestValidateSummarize], on a feature branch with one
    commit ahead of [main]. *)
Definition feature2 : Git :=
  {| opens := Ok tt;
     IsOnDefaultBranch := Ok (false, "feature2");
     HasUncommittedChanges := Ok false;
     GetCurrentBranch := Ok "feature2";
     GetMergeBase := fun _ _ => Ok "base";
     reference := fun name =>
       if String.eqb name "refs/heads/main" then Found "base"
       else if String.eqb name "refs/heads/feature2" then Found "work"
       else NotFound;
     Head := Ok "work";
     CommitObject := fun _ => Ok tt;
     preorder := fun _ => {| visited := ["work"; "base"]; broken := None |} |}.

End Summarize.

(** ** Trailer parsing *)

Module Trailers.

Import Regexp Strings.

Definition newline : ascii := "010"%char.

(** [strings.Split(s, "\n")]. *)
Fixpoint split_lines (s : string) : list string :=
  match s with
  | EmptyString => [EmptyString]
  | String c s' =>
      if Ascii.eqb c newline then EmptyString :: split_lines s'
      else
        match split_lines s' with
        | l :: ls => String c l :: ls
        | [] => [String c EmptyString]
        end
  end.

Definition is_blank (line : string) : bool := String.eqb line "".

Fixpoint take_while {A : Type} (f : A -> bool) (l : list A) : list A :=
  match l with
  | [] => []
  | x :: l' => if f x then x :: take_while f l' else []
  end.

Fixpoint drop_while {A : Type} (f : A -> bool) (l : list A) : list A :=
  match l with
  | [] => []
  | x :: l' => if f x then drop_while f l' else l
  end.

(** Modelled from the spec: the final paragraph of a message (section 4.2),
    read as its last run of non-blank lines. *)
Definition final_paragraph (lines : list string) : list string :=
  List.rev (take_while (fun l => negb (is_blank l)) (drop_while is_blank (List.rev lines))).

Definition alpha : list (ascii * ascii) := [("A"%char, "Z"%char); ("a"%char, "z"%char)].
Definition alnum_dash : list (ascii * ascii) :=
  [("A"%char, "Z"%char); ("a"%char, "z"%char); ("0"%char, "9"%char); ("-"%char, "-"%char)].
(** [\s]: tab, line feed, form feed, carriage return, space. *)
Definition blank_class : list (ascii * ascii) :=
  [("009"%char, "010"%char); ("012"%char, "013"%char); (" "%char, " "%char)].
(** [.]: any byte but the line feed. *)
Definition dot_class : list (ascii * ascii) :=
  [("000"%char, "009"%char); ("011"%char, "255"%char)].

(** The key of a trailer: [[A-Za-z][A-Za-z0-9-]*]. *)
Definition key_pattern : regexp := Cat (Class alpha) (Star (Class alnum_dash)).

(** Modelled from the spec: the trailer grammar of section 6,
    [^[A-Za-z][A-Za-z0-9-]*:\s?.*$] (the trailer codec itself is not among the
    sources). *)
Definition trailer_pattern : regexp :=
  Cat key_pattern
      (Cat (Chr ":"%char) (Cat (Alt (Class blank_class) Eps) (Star (Class dot_class)))).

(** The text before the first colon and the text after it. *)
Fixpoint split_colon (s : string) : option (string * string) :=
  match s with
  | EmptyString => None
  | String c s' =>
      if Ascii.eqb c ":"%char then Some (EmptyString, s')
      else
        match split_colon s' with
        | Some (k, r) => Some (String c k, r)
        | None => None
        end
  end.

(** The [\s?] after the colon is not part of the value. *)
Definition strip_blank (s : string) : string :=
  match s with
  | EmptyString => EmptyString
  | String c s' => if in_class blank_class c then s' else s
  end.

(** Modelled from the spec: one line of the final paragraph read as a trailer
    (section 4.2: a line that is not of the trailer shape is skipped). *)
Definition parse_line (line : string) : option (string * string) :=
  if full_match trailer_pattern line then
    match split_colon line with
    | Some (k, r) => Some (k, strip_blank r)
    | None => None
    end
  else None.

(** Modelled from the spec: the parser of the trailer codec (section 4.2:
    trailers are recognised only in the final paragraph of the message,
    malformed lines are skipped).  The codec's package is not among the
    sources. *)
Definition parse_trailers (message : string) : gmap string string :=
  list_to_map (omap parse_line (final_paragraph (split_lines message))).

(** Modelled from the spec: [parse_checkpoint(message) -> (checkpoint_id,
    found)] of section 4.2; [None] is [found = false]. *)
Definition ParseCheckpoint (message : string) : option string :=
  parse_trailers message !! "Entire-Checkpoint".

(** Modelled from the spec: the session named by the [Entire-Session]
    trailer of a message, if any. *)
Definition ParseSession (message : string) : option string :=
  parse_trailers message !! "Entire-Session".

(** The lines [ls], each preceded by a line feed. *)
Definition lines_text (ls : list string) : string :=
  fold_right (fun l acc => String newline (l ++ acc)) "" ls.

(** The string holds a line feed. *)
Fixpoint has_newline (s : string) : bool :=
  match s with
  | EmptyString => false
  | String c s' => Ascii.eqb c newline || has_newline s'
  end.

(** Every key has the shape [[A-Za-z][A-Za-z0-9-]*] and no value holds a line
    feed. *)
Definition well_formed (m : gmap string string) : bool :=
  forallb (fun kv => full_match key_pattern kv.1 && negb (has_newline kv.2)) (map_to_list m).

(** A value with a line feed in it, and the map its emission reads as. *)
Definition multi_line : gmap string string :=
  {[ "a" := "1" ++ String newline "b: 2" ]}.

Definition two_keys : gmap string string :=
  {[ "a" := "1"; "b" := "2" ]}.

(** The four trailers of [TestCreateSquashedBranch_TrailersAlphabeticalOrder]. *)
Definition test_trailers : gmap string string :=
  {[ "Zebra-Trailer" := "z"; "Alpha-Trailer" := "a";
     "Middle-Trailer" := "m"; "Beta-Trailer" := "b" ]}.

End Trailers.

(** ** Resume (package [cli], [resume.go]) *)

Module Resume.

Import Go Strings Trailers.

Definition Hash : Type := string.

(** The tree of a metadata branch, as far as resume reads it: the session id
    recorded under each checkpoint path. *)
Definition Tree : Type := gmap string string.

Record AgentSession : Type := {
  SessionID : string;
  AgentName : string;
  RepoPath : string;
  SessionRef : string;
  NativeData : string
}.

(** What the command acts on: the lines written to standard error and the
    files on disk (path to content). *)
Record World : Type := {
  stderr : list string;
  files : gmap string string
}.

(** The agent interface, as far as [resumeSession] uses it. *)
Record Agent : Type := {
  Name : string;
  GetSessionDir : string -> result string;
  ExtractAgentSessionID : string -> string;
  FormatResumeCommand : string -> string;
  WriteSession : AgentSession -> gmap string string -> result (gmap string string)
}.

(** What [strat.GetSessionLog] answers. *)
Inductive log_result : Type :=
| Log : string -> log_result
| ErrNoMetadata : log_result
| LogFailed : string -> log_result.

(** The repository and the packages [paths], [strategy] and [agent], none of
    which is among the sources: each function is taken with the result it
    returns. *)
Record Env : Type := {
  opens : result unit;                                  (* [openRepository()] *)
  Head : result Hash;                                   (* [repo.Head()] *)
  CommitObject : Hash -> result string;                 (* the commit's message *)
  ParseCheckpointTrailer : string -> option string;     (* [None]: not found *)
  CheckpointPath : string -> string;
  GetMetadataBranchTree : result Tree;
  GetRemoteMetadataBranchTree : result Tree;
  ReadCheckpointMetadata : Tree -> string -> result string;  (* [metadata.SessionID] *)
  Detect : result Agent;
  Default : option Agent;
  Getwd : result string;
  GetSessionLog : string -> log_result;
  MkdirAll : string -> error
}.

(** One [fmt.Fprintf(os.Stderr, ...)]. *)
Definition eprintf (w : World) (text : string) : World :=
  {| stderr := stderr w ++ [text]; files := files w |}.

Definition nl : string := String "010"%char "".

(** [firstLine]: the text before the first line feed. *)
Fixpoint firstLine (s : string) : string :=
  match s with
  | EmptyString => EmptyString
  | String c s' => if Ascii.eqb c "010"%char then EmptyString else String c (firstLine s')
  end.

Definition fileExists (w : World) (path : string) : bool :=
  match files w !! path with
  | Some _ => true
  | None => false
  end.

Definition checkRemoteMetadata (env : Env) (checkpointID : string) (w : World) : error * World :=
  match GetRemoteMetadataBranchTree env with
  | Err _ =>
      let w := eprintf w ("Checkpoint '" ++ checkpointID
                          ++ "' found in commit but session metadata not available" ++ nl) in
      let w := eprintf w ("The entire/sessions branch may not exist locally or on the remote."
                          ++ nl) in
      (None, w)
  | Ok remoteTree =>
      match ReadCheckpointMetadata env remoteTree (CheckpointPath env checkpointID) with
      | Err _ =>
          let w := eprintf w ("Checkpoint '" ++ checkpointID
                              ++ "' found in commit but session metadata not available" ++ nl) in
          (None, w)
      | Ok _ =>
          let w := eprintf w ("Checkpoint '" ++ checkpointID
                              ++ "' found in commit but session metadata not available locally"
                              ++ nl) in
          let w := eprintf w ("The metadata exists on origin. To fetch it, run:" ++ nl) in
          let w := eprintf w ("  git fetch origin entire/sessions:entire/sessions" ++ nl) in
          let w := eprintf w (nl ++ "Then run this command again." ++ nl) in
          (None, w)
      end
  end.

(** The closing lines of [resumeSession]. *)
Definition print_resume (ag : Agent) (sessionID agentSessionID : string) (w : World) : World :=
  let w := eprintf w ("Session: " ++ sessionID ++ nl) in
  let w := eprintf w (nl ++ "To continue this session, run:" ++ nl) in
  eprintf w ("  " ++ FormatResumeCommand ag agentSessionID ++ nl).

Definition resumeSession (env : Env) (sessionID checkpointID : string) (w : World)
    : error * World :=
  let agent : result Agent :=
    match Detect env with
    | Ok ag => Ok ag
    | Err e =>
        match Default env with
        | Some ag => Ok ag
        | None => Err ("no agent available: " ++ e)
        end
    end in
  match agent with
  | Err e => (Some e, w)
  | Ok ag =>
  match Getwd env with
  | Err e => (Some ("failed to get current directory: " ++ e), w)
  | Ok cwd =>
  match GetSessionDir ag cwd with
  | Err e => (Some ("failed to determine session directory: " ++ e), w)
  | Ok sessionDir =>
      let agentSessionID := ExtractAgentSessionID ag sessionID in
      let sessionLogPath := sessionDir ++ "/" ++ agentSessionID ++ ".jsonl" in
      if negb (fileExists w sessionLogPath) then
        match GetSessionLog env checkpointID with
        | ErrNoMetadata =>
            let w := eprintf w ("Session '" ++ sessionID
                                ++ "' found in commit trailer but session log not available"
                                ++ nl) in
            let w := eprintf w (nl ++ "To continue this session, run:" ++ nl) in
            let w := eprintf w ("  " ++ FormatResumeCommand ag agentSessionID ++ nl) in
            (None, w)
        | LogFailed e => (Some ("failed to get session log: " ++ e), w)
        | Log logContent =>
            let agentSession :=
              {| SessionID := agentSessionID;
                 AgentName := Name ag;
                 RepoPath := cwd;
                 SessionRef := sessionLogPath;
                 NativeData := logContent |} in
            match MkdirAll env sessionDir with
            | Some e => (Some ("failed to create session directory: " ++ e), w)
            | None =>
                match WriteSession ag agentSession (files w) with
                | Err e => (Some ("failed to write session: " ++ e), w)
                | Ok files' =>
                    let w := {| stderr := stderr w; files := files' |} in
                    let w := eprintf w ("Session restored to: " ++ sessionLogPath ++ nl) in
                    (None, print_resume ag sessionID agentSessionID w)
                end
            end
        end
      else (None, print_resume ag sessionID agentSessionID w)
  end end end.

Definition resumeFromCurrentBranch (env : Env) (branchName : string) (w : World)
    : error * World :=
  match opens env with
  | Err e => (Some ("not a git repository: " ++ e), w)
  | Ok _ =>
  match Head env with
  | Err e => (Some ("failed to get HEAD: " ++ e), w)
  | Ok head =>
  match CommitObject env head with
  | Err e => (Some ("failed to get commit: " ++ e), w)
  | Ok message =>
      match ParseCheckpointTrailer env message with
      | None =>
          let w := eprintf w ("No Entire checkpoint found for the last commit on branch '"
                              ++ branchName ++ "'" ++ nl) in
          let w := eprintf w ("Commit: " ++ take 7 head ++ " " ++ firstLine message ++ nl) in
          (None, w)
      | Some checkpointID =>
          match GetMetadataBranchTree env with
          | Err _ => checkRemoteMetadata env checkpointID w
          | Ok metadataTree =>
              match ReadCheckpointMetadata env metadataTree (CheckpointPath env checkpointID) with
              | Err _ => checkRemoteMetadata env checkpointID w
              | Ok sessionID => resumeSession env sessionID checkpointID w
              end
          end
      end
  end end end.

(** Modelled from the spec: [checkpoint_path(id) -> "<id[:2]>/<id[2:]>"]
    (section 4.1; package [paths] is not among the sources). *)
Definition checkpoint_path (id : string) : string := take 2 id ++ "/" ++ drop 2 id.

(** Modelled from the spec: [read_from_tree(tree, checkpoint_id)] (section
    4.5; package [strategy] is not among the sources): the record under the
    checkpoint's path, or an error when the shard is missing. *)
Definition read_from_tree (tree : Tree) (path : string) : result string :=
  match tree !! path with
  | Some sessionID => Ok sessionID
  | None => Err "checkpoint not found"
  end.


(** An agent that keeps its session logs as files. *)
Definition file_agent : Agent :=
  {| Name := "claude-code";
     GetSessionDir := fun cwd => Ok (cwd ++ "/.claude/sessions");
     ExtractAgentSessionID := fun sessionID => drop 11 sessionID;
     FormatResumeCommand := fun id => "claude -r " ++ id;
     WriteSession := fun s fs => Ok (<[SessionRef s := NativeData s]> fs) |}.

(** Scenario S4: the tip commit names checkpoint [000000000000], the local
    metadata branch lacks that shard and there is no remote copy. *)
Definition missing_metadata : Env :=
  {| opens := Ok tt;
     Head := Ok "4f2a9c1d7e8b";
     CommitObject := fun _ =>
       Ok ("Add feature" ++ nl ++ nl ++ "Entire-Checkpoint: 000000000000" ++ nl);
     ParseCheckpointTrailer := ParseCheckpoint;
     CheckpointPath := checkpoint_path;
     GetMetadataBranchTree := Ok {[ "ab/cdef01234567" := "2025-01-01-alpha" ]};
     GetRemoteMetadataBranchTree := Err "reference not found";
     ReadCheckpointMetadata := read_from_tree;
     Detect := Ok file_agent;
     Default := Some file_agent;
     Getwd := Ok "/repo";
     GetSessionLog := fun _ => Log "{}";
     MkdirAll := fun _ => None |}.

Definition fresh_world : World := {| stderr := []; files := ∅ |}.

End Resume.

(** ** Attribution summary *)

Module Attribution.

Import QArith_base.

(** The per-file line counts of section 4.7. *)
Record FileCounts : Type := {
  agent_add : Z;
  human_add : Z;
  human_mod : Z;
  human_rem : Z
}.

(** The attribution record of section 3; the percentage has one decimal
    place and is kept as an exact rational. *)
Record InitialAttribution : Type := {
  AgentLines : Z;
  HumanAdded : Z;
  HumanModified : Z;
  HumanRemoved : Z;
  TotalCommitted : Z;
  AgentPercentage : Q
}.

Definition total (f : FileCounts -> Z) (files : list FileCounts) : Z :=
  fold_right (fun c acc => (f c + acc)%Z) 0%Z files.

(** [round_half_even(num / den, 1)] in tenths, for [den > 0]: the nearest
    tenth, a tie going to the even one. *)
Definition round_half_even_tenths (num den : Z) : Z :=
  let q := (10 * num / den)%Z in
  let r := ((10 * num) mod den)%Z in
  if (2 * r <? den)%Z then q
  else if (den <? 2 * r)%Z then (q + 1)%Z
  else if Z.even q then q else (q + 1)%Z.

(** Modelled from the spec: the summary step of the attribution engine
    (section 4.7: sum over files, then the deletion-only rule, otherwise
    [total_committed = agent_add + human_add] and [agent_percentage =
    round_half_even(100 * agent_add / total_committed, 1)]).  The engine is
    not among the sources; only its integration test is. *)
Definition summarize (files : list FileCounts) : InitialAttribution :=
  let a := total agent_add files in
  let h := total human_add files in
  if (a + h =? 0)%Z then
    {| AgentLines := a; HumanAdded := h;
       HumanModified := total human_mod files; HumanRemoved := total human_rem files;
       TotalCommitted := 0; AgentPercentage := Qmake 0 1 |}
  else
    {| AgentLines := a; HumanAdded := h;
       HumanModified := total human_mod files; HumanRemoved := total human_rem files;
       TotalCommitted := a + h;
       AgentPercentage := Qmake (round_half_even_tenths (100 * a) (a + h)) 10 |}.

(** Scenario S2: the agent only removed lines and the human removed three
    more. *)
Definition deletion_only : list FileCounts :=
  [ {| agent_add := 0; human_add := 0; human_mod := 0; human_rem := 3 |} ].

End Attribution.

(** ** Session start on a shadow branch *)

Module Session.

Import Go Strings Summarize Trailers.

(** The reference store and the session-state directory, as far as starting
    a session reads and writes them: the tip commit message of each branch,
    and the strategy recorded in each session's state file. *)
Record Store : Type := {
  tips : gmap string string;
  state_files : gmap string string
}.

Inductive outcome : Type :=
| Started : Store -> outcome
| SessionIdConflict : string -> outcome.   (* the session the branch belongs to *)

(** Modelled from the spec: [shadow_branch_for(base_commit_id)], the branch
    [entire/<short-hash>] of section 3 (first seven characters of the base
    commit). *)
Definition shadow_branch_for (base : string) : string := "entire/" ++ take 7 base.

(** Modelled from the spec: the message of the initial empty commit of a
    shadow branch, carrying [Entire-Session] and [Entire-Strategy] trailers
    (section 4.4). *)
Definition initial_message (id strategy : string) : string :=
  fullMessage "Initialize shadow branch"
    {[ "Entire-Session" := id; "Entire-Strategy" := strategy ]}.

(** Modelled from the spec: [create_or_resume] together with [reserve]
    (sections 4.3 and 4.4).  The branch is created if absent; if it exists,
    the [Entire-Session] trailer of its tip commit decides: a different
    session id is a conflict, the same id resumes, no trailer is a legacy
    branch and does not conflict.  The state files are written, never
    consulted.  The session-state and temporary-store packages are not among
    the sources; only their integration tests are. *)
Definition start_session (base id strategy : string) (s : Store) : outcome :=
  let branch := shadow_branch_for base in
  match tips s !! branch with
  | None =>
      Started {| tips := <[branch := initial_message id strategy]> (tips s);
                 state_files := <[id := strategy]> (state_files s) |}
  | Some tip =>
      match ParseSession tip with
      | Some owner =>
          if String.eqb owner id
          then Started {| tips := tips s; state_files := <[id := strategy]> (state_files s) |}
          else SessionIdConflict owner
      | None =>
          Started {| tips := tips s; state_files := <[id := strategy]> (state_files s) |}
      end
  end.

(** The commit messages of the two hand-made branches of the tests. *)
Definition orphaned_message : string :=
  "Orphaned checkpoint" ++ String newline (String newline "")
  ++ "Entire-Session: 2025-01-01-alpha" ++ String newline ""
  ++ "Entire-Strategy: manual-commit" ++ String newline "".

Definition legacy_message : string := "Legacy checkpoint without session trailer".

(** Scenario S3: the branch of session alpha, no state file left. *)
Definition orphaned_store : Store :=
  {| tips := {[ "entire/4f2a9c1" := orphaned_message ]}; state_files := ∅ |}.

End Session.

(** ** The [clean] command (package [cli]) *)

Module Clean.

Import Go Strings Shadow.

(** The [io.Writer] the command prints to: the texts written, one per call. *)
Definition Writer : Type := list string.

Definition nl : string := String "010"%char "".

(** One [fmt.Fprintf(w, ...)] or [fmt.Fprintln(w, ...)]. *)
Definition Fprintf (w : Writer) (text : string) : Writer := (w ++ [text])%list.

(** The text of [fmt.Fprintf(w, "  %s\n", branch)]. *)
Definition branch_line (branch : string) : string := "  " ++ branch ++ nl.

(** [for _, branch := range bs { fmt.Fprintf(w, "  %s\n", branch) }] *)
Definition print_branches (w : Writer) (bs : list string) : Writer :=
  fold_left (fun w branch => Fprintf w (branch_line branch)) bs w.

(** Returns the environment and the writer after the call, and the error.
    [branches] is read through [len] and [range] and handed to
    [DeleteShadowBranches]; it is taken as a list. *)
Definition runCleanWithBranches (env : option Repository) (w : Writer) (force : bool)
    (branches : list string) : option Repository * Writer * error :=
  if (List.length branches =? 0)%nat then
    (env, Fprintf w ("No shadow branches to clean up." ++ nl), None)
  else if negb force then
    let w := Fprintf w (pretty (List.length branches) ++ " shadow branches found:" ++ nl) in
    let w := print_branches w branches in
    let w := Fprintf w nl in
    let w := Fprintf w ("Run with --force to delete these branches." ++ nl) in
    (env, w, None)
  else
    let '(env', (deleted, failed, err)) := DeleteShadowBranches env branches in
    match err with
    | Some e => (env', w, Some ("failed to delete shadow branches: " ++ e))
    | None =>
        let w :=
          if (0 <? List.length (elems deleted))%nat then
            let w := Fprintf w ("Deleted " ++ pretty (List.length (elems deleted))
                                ++ " shadow branches:" ++ nl) in
            print_branches w (elems deleted)
          else w in
        if (0 <? List.length (elems failed))%nat then
          let w := Fprintf w (nl ++ "Failed to delete " ++ pretty (List.length (elems failed))
                              ++ " branches:" ++ nl) in
          let w := print_branches w (elems failed) in
          (env', w, Some ("failed to delete " ++ pretty (List.length (elems failed)) ++ " branches"))
        else (env', w, None)
    end.

Definition runClean (env : option Repository) (w : Writer) (force : bool)
    : option Repository * Writer * error :=
  match ListShadowBranches env with
  | (_, Some e) => (env, w, Some ("failed to list shadow branches: " ++ e))
  | (branches, None) => runCleanWithBranches env w force (elems branches)
  end.


(** A repository with two shadow branches beside [master] and the metadata
    branch [entire/sessions]. *)
Definition two_shadows : Repository :=
  {| refs := ["HEAD"; "refs/heads/master"; "refs/heads/entire/abc1234";
              "refs/heads/entire/sessions"; "refs/heads/entire/def5678"];
     refs_unreadable := false;
     remove_fails := fun _ => false |}.

End Clean.

(** ** Claude Code transcripts (package [claudecode]) *)

Module Transcript.

Import Go.

(** A line of the JSONL transcript; [Message] is the raw JSON of the
    message.  ([Type] is a keyword: the field is [Type_].) *)
Record TranscriptLine : Type := {
  Type_ : string;
  UUID : string;
  Message : string
}.

Record contentBlock : Type := {
  block_Type : string;
  Text : string;
  Name : string;
  Input : string
}.

Record toolInput : Type := {
  FilePath : string;
  NotebookPath : string
}.

Record toolResultBlock : Type := {
  result_Type : string;
  ToolUseID : string
}.

(** The [Content interface{}] of a decoded [userMessage], as far as the
    code tells values apart.  A member of an object is a string or something
    else; an item of an array is an object (read by key) or something else;
    the content is a string, an array or something else (absent, null, a
    number, ...). *)
Inductive member : Type :=
| MString : string -> member
| MOther : member.

Inductive item : Type :=
| Object : (string -> option member) -> item
| NotObject : item.

Inductive content : Type :=
| ContentString : string -> content
| ContentArray : list item -> content
| ContentOther : content.

(** [json.Unmarshal] of a raw message into each of the structs the package
    decodes into; [None] when it returns an error.  [assistantContent] is
    the [Content] of an [assistantMessage], [userContent] that of a
    [userMessage], [toolResults] that of a [userMessageWithToolResults]. *)
Record Json : Type := {
  assistantContent : string -> option (list contentBlock);
  userContent : string -> option content;
  toolInputOf : string -> option toolInput;
  toolResults : string -> option (list toolResultBlock)
}.

Section Decode.

Variable json : Json.

(** The tool names of [FileModificationTools], declared in another file of
    the package. *)
Variable FileModificationTools : list string.

(** The body of [for _, block := range msg.Content] in
    [ExtractModifiedFiles], as a step on [fileSet] and [files]. *)
Definition block_step (st : gmap string bool * slice string) (block : contentBlock)
    : gmap string bool * slice string :=
  let '(fileSet, files) := st in
  if negb (String.eqb (block_Type block) "tool_use") then st
  else
    let isModifyTool := existsb (String.eqb (Name block)) FileModificationTools in
    if negb isModifyTool then st
    else
      match toolInputOf json (Input block) with
      | None => st
      | Some input =>
          let file := FilePath input in
          let file := if String.eqb file "" then NotebookPath input else file in
          if negb (String.eqb file "") && negb (default false (fileSet !! file))
          then (<[file := true]> fileSet, append files file)
          else st
      end.

(** The body of [for _, line := range lines]. *)
Definition line_step (st : gmap string bool * slice string) (line : TranscriptLine)
    : gmap string bool * slice string :=
  if negb (String.eqb (Type_ line) "assistant") then st
  else
    match assistantContent json (Message line) with
    | None => st
    | Some content => fold_left block_step content st
    end.

Definition ExtractModifiedFiles (lines : list TranscriptLine) : slice string :=
  snd (fold_left line_step lines (∅, None)).

(** The text of one item of an array content: the item is an object whose
    ["type"] is the string ["text"] and whose ["text"] is a string. *)
Definition text_of (i : item) : option string :=
  match i with
  | Object m =>
      match m "type" with
      | Some (MString t) =>
          if String.eqb t "text" then
            match m "text" with
            | Some (MString text) => Some text
            | _ => None
            end
          else None
      | _ => None
      end
  | NotObject => None
  end.

(** [strings.Join(texts, sep)] *)
Fixpoint Join (texts : list string) (sep : string) : string :=
  match texts with
  | [] => ""
  | [t] => t
  | t :: rest => t ++ sep ++ Join rest sep
  end.

(** What one iteration of the loop of [ExtractLastUserPrompt] returns, [None]
    when it goes on to the line before. *)
Definition prompt_of (line : TranscriptLine) : option string :=
  if negb (String.eqb (Type_ line) "user") then None
  else
    match userContent json (Message line) with
    | None => None
    | Some (ContentString str) => Some str
    | Some (ContentArray arr) =>
        let texts := omap text_of arr in
        if (0 <? List.length texts)%nat
        then Some (Join texts (String "010"%char (String "010"%char "")))
        else None
    | Some ContentOther => None
    end.

(** The loop [for i := len(lines) - 1; i >= 0; i--], over the lines from the
    last to the first. *)
Fixpoint last_prompt (backwards : list TranscriptLine) : string :=
  match backwards with
  | [] => ""
  | line :: before =>
      match prompt_of line with
      | Some prompt => prompt
      | None => last_prompt before
      end
  end.

Definition ExtractLastUserPrompt (lines : list TranscriptLine) : string :=
  last_prompt (List.rev lines).

(** [FindCheckpointUUID]: the first user line one of whose blocks is the
    [tool_result] of [toolUseID]. *)
Fixpoint FindCheckpointUUID (lines : list TranscriptLine) (toolUseID : string)
    : string * bool :=
  match lines with
  | [] => ("", false)
  | line :: rest =>
      if negb (String.eqb (Type_ line) "user") then FindCheckpointUUID rest toolUseID
      else
        match toolResults json (Message line) with
        | None => FindCheckpointUUID rest toolUseID
        | Some content =>
            if existsb (fun block => String.eqb (result_Type block) "tool_result"
                                     && String.eqb (ToolUseID block) toolUseID) content
            then (UUID line, true)
            else FindCheckpointUUID rest toolUseID
        end
  end.

(** [block] is a [tool_use] block of a file modification tool whose input
    names [file]: its [file_path] or, when that is empty, its
    [notebook_path]. *)
Definition names_file (block : contentBlock) (file : string) : Prop :=
  block_Type block = "tool_use" /\
  In (Name block) FileModificationTools /\
  exists input,
    toolInputOf json (Input block) = Some input /\
    file = (if String.eqb (FilePath input) "" then NotebookPath input else FilePath input).

(** [line] is an assistant line one of whose blocks names [file]. *)
Definition modifies (line : TranscriptLine) (file : string) : Prop :=
  Type_ line = "assistant" /\
  exists content block,
    assistantContent json (Message line) = Some content /\
    In block content /\ names_file block file.

(** [line] is a user line holding the [tool_result] of [toolUseID]. *)
Definition answers (line : TranscriptLine) (toolUseID : string) : Prop :=
  Type_ line = "user" /\
  exists content block,
    toolResults json (Message line) = Some content /\
    In block content /\
    result_Type block = "tool_result" /\
    ToolUseID block = toolUseID.

End Decode.

(** What the loops of [ExtractModifiedFiles] keep true of [fileSet] and
    [files]: [files] has no duplicate and no empty name, and [fileSet] marks
    exactly its members. *)
Definition tracked (st : gmap string bool * slice string) : Prop :=
  NoDup (elems (snd st)) /\
  ~ In "" (elems (snd st)) /\
  forall f, default false (fst st !! f) = true <-> In f (elems (snd st)).

(** The loop of [TruncateAtUUID]: the index of the first line with the given
    UUID, counting from [i]. *)
Fixpoint index_of_uuid (lines : list TranscriptLine) (uuid : string) (i : nat) : option nat :=
  match lines with
  | [] => None
  | line :: rest =>
      if String.eqb (UUID line) uuid then Some i else index_of_uuid rest uuid (S i)
  end.

(** The argument is ranged over, resliced or returned as it is; it is taken
    as a list ([lines[:i+1]] is [take (i + 1) lines]). *)
Definition TruncateAtUUID (lines : list TranscriptLine) (uuid : string) : list TranscriptLine :=
  if String.eqb uuid "" then lines
  else
    match index_of_uuid lines uuid 0 with
    | Some i => take (i + 1) lines
    | None => lines
    end.

(** The transcript of [TestFindCheckpointUUID]: the results of two tool uses,
    each in a user line.  The decoder reads the tool use id off a message
    written as the id itself. *)
Definition tool_json : Json :=
  {| assistantContent := fun _ => Some [];
     userContent := fun _ => Some ContentOther;
     toolInputOf := fun _ => None;
     toolResults := fun m =>
       if String.eqb m "" then None
       else Some [{| result_Type := "tool_result"; ToolUseID := m |}] |}.

Definition tool_lines : list TranscriptLine :=
  [ {| Type_ := "assistant"; UUID := "a1"; Message := "" |};
    {| Type_ := "user"; UUID := "u1"; Message := "tool1" |};
    {| Type_ := "assistant"; UUID := "a2"; Message := "" |};
    {| Type_ := "user"; UUID := "u2"; Message := "tool2" |} ].

End Transcript.

(** ** The [resume] command: choosing and checking out the branch *)

Module ResumeCmd.

Import Go Strings Resume.

(** How [form.Run()] of the confirmation form ends. *)
Inductive form_result : Type :=
| Answered : bool -> form_result       (* the value left in [confirmed] *)
| UserAborted : form_result            (* [huh.ErrUserAborted] *)
| FormFailed : string -> form_result.

(** What [runResume] does to the working tree, in the order it does it. *)
Inductive action : Type :=
| Checkout : string -> action          (* [CheckoutBranch(branch)] *)
| Fetch : string -> action.            (* [FetchAndCheckoutRemoteBranch(branch)] *)

(** The git helpers of the package that [runResume] calls before it reads the
    branch, each with the result it returns.  A successful checkout gives the
    repository as [resumeFromCurrentBranch] then finds it.  [form] runs the
    form with the given title. *)
Record Git : Type := {
  GetCurrentBranch : result string;
  BranchExistsLocally : string -> result bool;
  BranchExistsOnRemote : string -> result bool;
  HasUncommittedChanges : result bool;
  CheckoutBranch : string -> result Env;
  FetchAndCheckoutRemoteBranch : string -> result Env;
  form : string -> form_result
}.

Definition promptFetchFromRemote (g : Git) (branchName : string) : result bool :=
  match form g ("Branch '" ++ branchName ++ "' not found locally. Fetch from origin?") with
  | FormFailed e => Err ("failed to get confirmation: " ++ e)
  | UserAborted => Ok false
  | Answered confirmed => Ok confirmed
  end.

(** [env] is the repository the command starts in.  Returns the error, the
    world after the call and the actions taken. *)
Definition runResume (env : Env) (g : Git) (branchName : string) (w : World)
    : error * World * list action :=
  let on_branch :=
    match GetCurrentBranch g with
    | Ok currentBranch => String.eqb currentBranch branchName
    | Err _ => false
    end in
  if on_branch then (resumeFromCurrentBranch env branchName w, [])
  else
    match BranchExistsLocally g branchName with
    | Err e => (Some ("failed to check branch: " ++ e), w, [])
    | Ok false =>
        match BranchExistsOnRemote g branchName with
        | Err e => (Some ("failed to check remote branch: " ++ e), w, [])
        | Ok false =>
            (Some ("branch '" ++ branchName ++ "' not found locally or on origin"), w, [])
        | Ok true =>
            match promptFetchFromRemote g branchName with
            | Err e => (Some e, w, [])
            | Ok false => (None, w, [])
            | Ok true =>
                let w := eprintf w ("Fetching branch '" ++ branchName ++ "' from origin..." ++ nl) in
                match FetchAndCheckoutRemoteBranch g branchName with
                | Err e => (Some e, w, [Fetch branchName])
                | Ok env' =>
                    let w := eprintf w ("Switched to branch '" ++ branchName ++ "'" ++ nl) in
                    (resumeFromCurrentBranch env' branchName w, [Fetch branchName])
                end
            end
        end
    | Ok true =>
        match HasUncommittedChanges g with
        | Err e => (Some ("failed to check for uncommitted changes: " ++ e), w, [])
        | Ok true =>
            (Some "you have uncommitted changes. Please commit or stash them first", w, [])
        | Ok false =>
            match CheckoutBranch g branchName with
            | Err e => (Some e, w, [Checkout branchName])
            | Ok env' =>
                let w := eprintf w ("Switched to branch '" ++ branchName ++ "'" ++ nl) in
                (resumeFromCurrentBranch env' branchName w, [Checkout branchName])
            end
        end
    end.

(** The files of [w'] are those of [w], but for one session log that was
    not there and that an agent wrote. *)
Definition restored (w w' : World) : Prop :=
  files w' = files w \/
  exists (ag : Agent) (session : AgentSession),
    fileExists w (SessionRef session) = false /\
    WriteSession ag session (files w) = Ok (files w').

(** A dirty working tree on [main], with a local branch [feature] to switch
    to. *)
Definition dirty_main : Git :=
  {| GetCurrentBranch := Ok "main";
     BranchExistsLocally := fun b => Ok (String.eqb b "feature");
     BranchExistsOnRemote := fun _ => Ok true;
     HasUncommittedChanges := Ok true;
     CheckoutBranch := fun _ => Ok missing_metadata;
     FetchAndCheckoutRemoteBranch := fun _ => Ok missing_metadata;
     form := fun _ => Answered true |}.

End ResumeCmd.

(** ** The [summarize] command: the squashed commit and the summary branch *)

Module SummarizeCmd.

Import Go Strings Summarize.

Record GitAuthor : Type := {
  Name : string;
  Email : string
}.

(** [object.Commit], as far as [CreateSquashedBranch] fills it.  A signature
    is the author's name and e-mail; its time stamp ([time.Now()]) is left
    out. *)
Record Commit : Type := {
  Author : GitAuthor;
  Committer : GitAuthor;
  Message : string;
  TreeHash : Hash;
  ParentHashes : list Hash
}.

(** The object and reference store behind [repo.Storer], and the tree of a
    commit that [repo.CommitObject] has found. *)
Record Storer : Type := {
  TreeHashOf : Hash -> Hash;
  Encode : Commit -> error;                      (* [commit.Encode(obj)] *)
  SetEncodedObject : Commit -> result Hash;
  SetReference : string -> Hash -> error
}.

(** What a command has written: the commits stored, the references set and
    the texts printed to standard output. *)
Record Effects : Type := {
  objects : list Commit;
  references : list (string * Hash);
  stdout : list string
}.

Definition nothing : Effects := {| objects := []; references := []; stdout := [] |}.

Definition CreateSquashedBranch (g : Git) (st : Storer)
    (sourceBranch targetBranch newBranchName message : string)
    (trailers : gmap string string) (author : GitAuthor) : error * Effects :=
  match opens g with
  | Err e => (Some ("failed to open git repository: " ++ e), nothing)
  | Ok _ =>
  match GetMergeBase g sourceBranch targetBranch with
  | Err e => (Some ("failed to find merge base: " ++ e), nothing)
  | Ok mergeBase =>
  match reference g (NewBranchReferenceName sourceBranch) with
  | NotFound => (Some ("failed to resolve source branch: " ++ "reference not found"), nothing)
  | LookupFailed e => (Some ("failed to resolve source branch: " ++ e), nothing)
  | Found sourceHash =>
  match CommitObject g sourceHash with
  | Err e => (Some ("failed to get source commit: " ++ e), nothing)
  | Ok _ =>
      let tree := TreeHashOf st sourceHash in
      let commit :=
        {| Author := author;
           Committer := author;
           Message := fullMessage message trailers;
           TreeHash := tree;
           ParentHashes := [mergeBase] |} in
      match Encode st commit with
      | Some e => (Some ("failed to encode commit: " ++ e), nothing)
      | None =>
      match SetEncodedObject st commit with
      | Err e => (Some ("failed to store commit: " ++ e), nothing)
      | Ok commitHash =>
          let ref := NewBranchReferenceName newBranchName in
          match SetReference st ref commitHash with
          | Some e =>
              (Some ("failed to create branch reference: " ++ e),
               {| objects := [commit]; references := []; stdout := [] |})
          | None =>
              (None, {| objects := [commit]; references := [(ref, commitHash)]; stdout := [] |})
          end
      end end
  end end end end.

(** The helpers of the package and of the strategy that [runSummarize] calls
    besides those of [Git]. *)
Record Cmd : Type := {
  BranchExistsOnRemote : string -> result bool;
  GetSessionInfo : result string;                (* [info.SessionID] *)
  StrategyName : string;                         (* [start.Name()] *)
  GetGitAuthor : result GitAuthor
}.

(** The trailers [runSummarize] builds, lines 299-313. *)
Definition summary_trailers (info : result string) (strategy currentBranch : string)
    (mergeBase headHash : Hash) : gmap string string :=
  let trailers : gmap string string := ∅ in
  let trailers :=
    match info with
    | Ok sessionID => <["Entire-Strategy" := strategy]> (<["Entire-Session" := sessionID]> trailers)
    | Err _ => trailers
    end in
  let trailers := <["Entire-Source-Branch" := currentBranch]> trailers in
  let trailers :=
    <["Entire-Source-Range" := take 7 mergeBase ++ ".." ++ take 7 headHash]> trailers in
  <["Generated-By" := "entire-cli"]> trailers.

Definition nl : string := String "010"%char "".

Definition runSummarize (g : Git) (st : Storer) (c : Cmd)
    (message target summaryBranchName : string) (force : bool) : error * Effects :=
  match ValidateSummarize g target false with
  | Some e => (Some e, nothing)
  | None =>
  match GetCurrentBranch g with
  | Err e => (Some ("failed to get current branch: " ++ e), nothing)
  | Ok currentBranch =>
  let summaryBranchName :=
    if String.eqb summaryBranchName "" then "entire/pr/" ++ currentBranch
    else summaryBranchName in
  let remote_check : error :=
    if negb force then
      match BranchExistsOnRemote c summaryBranchName with
      | Err e => Some ("failed to check remote branch: " ++ e)
      | Ok true => Some ("summary branch '" ++ summaryBranchName
                         ++ "' exists on remote. Use --force to overwrite")
      | Ok false => None
      end
    else None in
  match remote_check with
  | Some e => (Some e, nothing)
  | None =>
  match GetMergeBase g currentBranch target with
  | Err e => (Some ("failed to find merge base: " ++ e), nothing)
  | Ok mergeBase =>
  match opens g with
  | Err e => (Some ("failed to open repository: " ++ e), nothing)
  | Ok _ =>
  match Head g with
  | Err e => (Some ("failed to get HEAD: " ++ e), nothing)
  | Ok headHash =>
  let trailers :=
    summary_trailers (GetSessionInfo c) (StrategyName c) currentBranch mergeBase headHash in
  match GetGitAuthor c with
  | Err e => (Some ("failed to get git author: " ++ e), nothing)
  | Ok author =>
  match CreateSquashedBranch g st currentBranch target summaryBranchName message trailers author
  with
  | (Some e, written) => (Some ("failed to create squashed branch: " ++ e), written)
  | (None, written) =>
      let commitCount :=
        match CountCommitsBetween g mergeBase headHash with
        | Ok count => count
        | Err _ => 0%Z
        end in
      (None,
       {| objects := objects written;
          references := references written;
          stdout :=
            [ nl ++ "Created summary branch: " ++ summaryBranchName ++ nl;
              "Source branch: " ++ currentBranch ++ " (" ++ pretty commitCount
                ++ " commits squashed)" ++ nl;
              nl ++ "Next steps:" ++ nl;
              "  1. Push to remote:    git push origin " ++ summaryBranchName ++ nl;
              "  2. Create PR:         gh pr create --base " ++ target ++ " --head "
                ++ summaryBranchName ++ nl;
              nl ++ "Your original branch '" ++ currentBranch
                ++ "' remains unchanged for reference." ++ nl ] |})
  end end end end end end end end.

(** The trailer lines of the squashed commit, in the order they are
    written. *)
Definition trailer_block (info : result string) (strategy currentBranch : string)
    (mergeBase headHash : Hash) : string :=
  match info with Ok sessionID => nl ++ "Entire-Session: " ++ sessionID | Err _ => "" end
  ++ nl ++ "Entire-Source-Branch: " ++ currentBranch
  ++ nl ++ "Entire-Source-Range: " ++ take 7 mergeBase ++ ".." ++ take 7 headHash
  ++ match info with Ok _ => nl ++ "Entire-Strategy: " ++ strategy | Err _ => "" end
  ++ nl ++ "Generated-By: entire-cli".

(** A store that names a commit after its message. *)
Definition plain_store : Storer :=
  {| TreeHashOf := fun h => "tree-of-" ++ h;
     Encode := fun _ => None;
     SetEncodedObject := fun commit => Ok ("commit-" ++ take 8 (Message commit));
     SetReference := fun _ _ => None |}.

Definition plain_cmd : Cmd :=
  {| BranchExistsOnRemote := fun _ => Ok false;
     GetSessionInfo := Ok "2025-01-01-alpha";
     StrategyName := "manual-commit";
     GetGitAuthor := Ok {| Name := "Ada"; Email := "ada@example.com" |} |}.

End SummarizeCmd.

(** ** The [start] command: feature names and the [.gitignore] entry *)

Module Start.

Import Go Regexp Strings Trailers.

(** [[a-zA-Z0-9_-]] *)
Definition featureNameClass : list (ascii * ascii) :=
  [("a"%char, "z"%char); ("A"%char, "Z"%char); ("0"%char, "9"%char);
   ("_"%char, "_"%char); ("-"%char, "-"%char)].

(** [regexp.MustCompile(`^[a-zA-Z0-9_-]+$`)]; the anchors are accounted for
    by matching the whole text. *)
Definition featureNameRegex : regexp := AtLeast 1 (Class featureNameClass).

Definition ValidateFeatureName (name : string) : error :=
  if String.eqb name "" then Some "feature name is required"
  else if negb (full_match featureNameRegex name) then
    Some ("invalid feature name '" ++ name
          ++ "': use alphanumeric characters, hyphens, and underscores only")
  else None.

Definition GetBranchName (name prefix : string) : string :=
  let prefix := if String.eqb prefix "" then "feature/" else prefix in
  prefix ++ name.

(** In multi-line mode [$] holds at the end of the text and before a line
    feed: [match_to_eol r s] tells whether [r] matches a prefix of [s] that
    ends at such a place. *)
Fixpoint match_to_eol (r : regexp) (s : string) : bool :=
  match s with
  | EmptyString => nullable r
  | String c s' => (nullable r && Ascii.eqb c newline) || match_to_eol (deriv c r) s'
  end.

(** [MatchString] for a pattern [(?m)^r$].  In multi-line mode [^] holds at
    the start of the text and after a line feed; the search tries each such
    place in turn.  [bol] tells whether [s] starts at one. *)
Fixpoint search_lines (r : regexp) (s : string) (bol : bool) : bool :=
  (bol && match_to_eol r s) ||
  match s with
  | EmptyString => false
  | String c s' => search_lines r s' (Ascii.eqb c newline)
  end.

Definition MatchLine (r : regexp) (s : string) : bool := search_lines r s true.

(** [regexp.MustCompile(`(?m)^\.worktrees(?:/\*?)?$`)], between its
    anchors. *)
Definition worktreesEntryRegex : regexp :=
  Cat (Lit ".worktrees") (Alt Eps (Cat (Chr "/"%char) (Alt Eps (Chr "*"%char)))).

Definition hasWorktreesEntry (content : string) : bool :=
  MatchLine worktreesEntryRegex content.

(** The files the command reads and writes, and the paths at which reading
    or writing fails for another reason than a missing file. *)
Record FS : Type := {
  files : gmap string string;
  read_error : string -> option string;
  write_error : string -> option string
}.

(** What [os.ReadFile] returns. *)
Inductive read_result : Type :=
| Content : string -> read_result
| NotExist : read_result               (* an error for which [os.IsNotExist] holds *)
| ReadFailed : string -> read_result.

Definition ReadFile (fs : FS) (path : string) : read_result :=
  match read_error fs path with
  | Some e => ReadFailed e
  | None =>
      match files fs !! path with
      | Some content => Content content
      | None => NotExist
      end
  end.

Definition WriteFile (fs : FS) (path content : string) : result FS :=
  match write_error fs path with
  | Some e => Err e
  | None => Ok {| files := <[path := content]> (files fs);
                  read_error := read_error fs;
                  write_error := write_error fs |}
  end.

Definition nl : string := String newline "".

Definition ensureWorktreesInGitignoreAt (fs : FS) (gitignorePath : string) : error * FS :=
  match ReadFile fs gitignorePath with
  | ReadFailed e => (Some ("failed to read .gitignore: " ++ e), fs)
  | read =>
      let contentStr := match read with Content content => content | _ => "" end in
      if hasWorktreesEntry contentStr then (None, fs)
      else
        let newContent :=
          if (String.length contentStr =? 0)%nat then ".worktrees" ++ nl
          else if HasSuffix contentStr nl then contentStr ++ ".worktrees" ++ nl
          else contentStr ++ nl ++ ".worktrees" ++ nl in
        match WriteFile fs gitignorePath newContent with
        | Err e => (Some ("failed to write .gitignore: " ++ e), fs)
        | Ok fs' => (None, fs')
        end
  end.

Definition EnsureWorktreesInGitignore (fs : FS) : error * FS :=
  ensureWorktreesInGitignoreAt fs ".gitignore".

(** The content of the file at [path], the empty string when there is
    none. *)
Definition content_at (fs : FS) (path : string) : string := default "" (files fs !! path).

(** A directory whose [.gitignore] does not end in a line feed. *)
Definition node_project : FS :=
  {| files := {[ ".gitignore" := "node_modules/" ]};
     read_error := fun _ => None;
     write_error := fun _ => None |}.

End Start.

(** ** Git hooks (package [strategy], [hooks.go]) *)

Module Hooks.

Import Go Strings Start.

Definition entireHookMarker : string := "Entire CLI hooks".

(** [strings.Contains(s, substr)] *)
Fixpoint Contains (s substr : string) : bool :=
  HasPrefix s substr ||
  match s with
  | EmptyString => false
  | String _ s' => Contains s' substr
  end.

(** What the hook functions find around them: the git directory that
    [GetGitDir] reports (it asks [git] for it), the [local_dev] setting that
    [isLocalDev] reads, [os.MkdirAll] and [filepath.Join]. *)
Record Env : Type := {
  GetGitDir : result string;
  isLocalDev : bool;
  MkdirAll : string -> error;
  Join : list string -> string
}.

Definition hookNames : list string :=
  ["prepare-commit-msg"; "commit-msg"; "post-commit"; "pre-push"].

(** The loop of [IsGitHookInstalled] over the hook names. *)
Fixpoint hooks_present (env : Env) (fs : FS) (gitDir : string) (hooks : list string) : bool :=
  match hooks with
  | [] => true
  | hook :: rest =>
      let hookPath := Join env [gitDir; "hooks"; hook] in
      match ReadFile fs hookPath with
      | Content data =>
          if negb (Contains data entireHookMarker) then false
          else hooks_present env fs gitDir rest
      | _ => false
      end
  end.

Definition IsGitHookInstalled (env : Env) (fs : FS) : bool :=
  match GetGitDir env with
  | Err _ => false
  | Ok gitDir => hooks_present env fs gitDir hookNames
  end.

Definition writeHookFile (fs : FS) (path content : string) : error * FS :=
  match WriteFile fs path content with
  | Err e => (Some ("failed to write hook file " ++ path ++ ": " ++ e), fs)
  | Ok fs' => (None, fs')
  end.

Definition nl : string := String "010"%char "".

(** A double quote. *)
Definition dq : string := String "034"%char "".

Definition prepareCommitMsgContent (cmdPrefix : string) : string :=
  "#!/bin/sh" ++ nl ++ "# " ++ entireHookMarker ++ nl
  ++ cmdPrefix ++ " hooks git prepare-commit-msg " ++ dq ++ "$1" ++ dq ++ " "
  ++ dq ++ "$2" ++ dq ++ " 2>/dev/null || true" ++ nl.

Definition commitMsgContent (cmdPrefix : string) : string :=
  "#!/bin/sh" ++ nl ++ "# " ++ entireHookMarker ++ nl
  ++ "# Commit-msg hook: strip trailer if no user content (allows aborting empty commits)"
  ++ nl ++ cmdPrefix ++ " hooks git commit-msg " ++ dq ++ "$1" ++ dq ++ " || exit 1" ++ nl.

Definition postCommitContent (cmdPrefix : string) : string :=
  "#!/bin/sh" ++ nl ++ "# " ++ entireHookMarker ++ nl
  ++ "# Post-commit hook: condense session data if commit has Entire-Checkpoint trailer"
  ++ nl ++ cmdPrefix ++ " hooks git post-commit 2>/dev/null || true" ++ nl.

Definition prePushContent (cmdPrefix : string) : string :=
  "#!/bin/sh" ++ nl ++ "# " ++ entireHookMarker ++ nl
  ++ "# Pre-push hook: push session logs alongside user's push" ++ nl
  ++ "# $1 is the remote name (e.g., " ++ dq ++ "origin" ++ dq ++ ")" ++ nl
  ++ cmdPrefix ++ " hooks git pre-push " ++ dq ++ "$1" ++ dq ++ " || true" ++ nl.

(** Returns the error, the files and the lines printed to standard output
    after the call. *)
Definition InstallGitHook (env : Env) (fs : FS) (silent : bool)
    : error * FS * list string :=
  match GetGitDir env with
  | Err e => (Some e, fs, [])
  | Ok gitDir =>
  let hooksDir := Join env [gitDir; "hooks"] in
  match MkdirAll env hooksDir with
  | Some e => (Some ("failed to create hooks directory: " ++ e), fs, [])
  | None =>
  let cmdPrefix := if isLocalDev env then "go run ./cmd/entire/main.go" else "entire" in
  let prepareCommitMsgPath := Join env [hooksDir; "prepare-commit-msg"] in
  match writeHookFile fs prepareCommitMsgPath (prepareCommitMsgContent cmdPrefix) with
  | (Some e, fs) => (Some ("failed to install prepare-commit-msg hook: " ++ e), fs, [])
  | (None, fs) =>
  let commitMsgPath := Join env [hooksDir; "commit-msg"] in
  match writeHookFile fs commitMsgPath (commitMsgContent cmdPrefix) with
  | (Some e, fs) => (Some ("failed to install commit-msg hook: " ++ e), fs, [])
  | (None, fs) =>
  let postCommitPath := Join env [hooksDir; "post-commit"] in
  match writeHookFile fs postCommitPath (postCommitContent cmdPrefix) with
  | (Some e, fs) => (Some ("failed to install post-commit hook: " ++ e), fs, [])
  | (None, fs) =>
  let prePushPath := Join env [hooksDir; "pre-push"] in
  match writeHookFile fs prePushPath (prePushContent cmdPrefix) with
  | (Some e, fs) => (Some ("failed to install pre-push hook: " ++ e), fs, [])
  | (None, fs) =>
      let out :=
        if negb silent then
          [ bytes [226; 156; 147]
              ++ " Installed git hooks (prepare-commit-msg, commit-msg, post-commit, pre-push)"
              ++ nl;
            "  Hooks delegate to the current strategy at runtime" ++ nl ]
        else [] in
      (None, fs, out)
  end end end end end end.

(** A repository whose git directory is [.git], with no hook yet;
    [filepath.Join] on names that need no cleaning. *)
Definition fresh_env : Env :=
  {| GetGitDir := Ok ".git";
     isLocalDev := false;
     MkdirAll := fun _ => None;
     Join := fun elems => Transcript.Join elems "/" |}.

End Hooks.


(** * Properties *)

(** ** Strings and regular expressions *)

Module RegexpFacts.

Import Regexp.

Lemma app_nil_l (s : string) : "" ++ s = s.
Proof. reflexivity. Qed.

Lemma app_cons (c : ascii) (s t : string) : String c s ++ t = String c (s ++ t).
Proof. reflexivity. Qed.

Lemma app_nil_r (s : string) : s ++ "" = s.
Proof. induction s as [|c s IH]; [reflexivity | now rewrite app_cons, IH]. Qed.

Lemma app_assoc (s1 s2 s3 : string) : (s1 ++ s2) ++ s3 = s1 ++ (s2 ++ s3).
Proof. induction s1 as [|c s1 IH]; [reflexivity | now rewrite !app_cons, IH]. Qed.

Lemma app_eq_nil (s1 s2 : string) : s1 ++ s2 = "" -> s1 = "" /\ s2 = "".
Proof. destruct s1; [rewrite app_nil_l; auto | rewrite app_cons; discriminate]. Qed.

Lemma nullable_lang (r : regexp) : nullable r = true <-> lang r "".
Proof.
  split.
  - induction r; simpl; intros H; try discriminate.
    + constructor.
    + apply andb_true_iff in H as [H1 H2].
      rewrite <- (app_nil_l ""). constructor; auto.
    + apply orb_true_iff in H as [H | H]; [apply lang_alt_l | apply lang_alt_r]; auto.
    + constructor.
  - intros H. remember "" as s eqn:Es.
    induction H; simpl; try reflexivity; try discriminate.
    + apply app_eq_nil in Es as [-> ->]. rewrite IHlang1, IHlang2; auto.
    + rewrite IHlang; auto.
    + rewrite IHlang; auto. apply orb_true_r.
Qed.

Lemma deriv_sound (r : regexp) : forall c s, lang (deriv c r) s -> lang r (String c s).
Proof.
  induction r; simpl; intros c s H.
  - inversion H.
  - inversion H.
  - destruct (in_class l c) eqn:E; inversion H; subst. now constructor.
  - destruct (nullable r1) eqn:E.
    + inversion H; subst.
      * match goal with H' : lang (Cat _ _) _ |- _ => inversion H'; subst end.
        rewrite <- app_cons.
        constructor; auto.
      * rewrite <- (app_nil_l (String c s)).
        constructor; [now apply nullable_lang | auto].
    + inversion H; subst.
      rewrite <- app_cons.
      constructor; auto.
  - inversion H; subst; [apply lang_alt_l | apply lang_alt_r]; auto.
  - inversion H; subst.
    rewrite <- app_cons.
    constructor; auto.
Qed.

Lemma deriv_complete (r : regexp) (s0 : string) :
  lang r s0 -> forall c s, s0 = String c s -> lang (deriv c r) s.
Proof.
  induction 1; intros c0 s0 E; simpl.
  - discriminate.
  - injection E as -> <-. rewrite H. constructor.
  - destruct s1 as [|c1 s1].
    + rewrite app_nil_l in E.
      assert (Hn : nullable r1 = true) by now apply nullable_lang.
      rewrite Hn. apply lang_alt_r. auto.
    + rewrite app_cons in E. injection E as -> <-.
      destruct (nullable r1); [apply lang_alt_l |]; constructor; auto.
  - apply lang_alt_l; auto.
  - apply lang_alt_r; auto.
  - discriminate.
  - destruct s1 as [|c1 s1].
    + rewrite app_nil_l in E. apply IHlang2 in E. exact E.
    + rewrite app_cons in E. injection E as -> <-. constructor; auto.
Qed.

(** The matcher decides the declarative language. *)
Lemma full_match_lang (s : string) : forall r, full_match r s = true <-> lang r s.
Proof.
  induction s as [|c s IH]; intros r; simpl.
  - apply nullable_lang.
  - rewrite IH. split.
    + apply deriv_sound.
    + intros H. eapply deriv_complete; eauto.
Qed.

End RegexpFacts.

Module StringsFacts.

Import Regexp RegexpFacts Strings.

Lemma length_app (s t : string) :
  String.length (s ++ t) = (String.length s + String.length t)%nat.
Proof. induction s as [|c s IH]; [reflexivity | rewrite app_cons; simpl; now rewrite IH]. Qed.

Lemma HasPrefix_app (p t : string) : HasPrefix (p ++ t) p = true.
Proof.
  induction p as [|c p IH]; [reflexivity |].
  rewrite app_cons. simpl. now rewrite Ascii.eqb_refl, IH.
Qed.

Lemma HasPrefix_iff (s p : string) : HasPrefix s p = true <-> exists t, s = p ++ t.
Proof.
  split.
  - revert s. induction p as [|a p IH]; intros s H.
    + exists s. reflexivity.
    + destruct s as [|b s]; simpl in H; [discriminate |].
      apply andb_true_iff in H as [Hab H].
      apply Ascii.eqb_eq in Hab as ->.
      destruct (IH _ H) as [t ->]. exists t. now rewrite app_cons.
  - intros [t ->]. apply HasPrefix_app.
Qed.

Lemma drop_app (p t : string) : drop (String.length p) (p ++ t) = t.
Proof. induction p as [|c p IH]; [reflexivity | rewrite app_cons; simpl; exact IH]. Qed.

Lemma take_app (p t : string) : take (String.length p) (p ++ t) = p.
Proof. induction p as [|c p IH]; [reflexivity | rewrite app_cons; simpl; now rewrite IH]. Qed.

Lemma take_drop (n : nat) (s : string) : take n s ++ drop n s = s.
Proof.
  revert s. induction n as [|n IH]; intros [|c s]; try reflexivity.
  simpl. now rewrite app_cons, IH.
Qed.

Lemma length_take (n : nat) (s : string) :
  String.length (take n s) = Nat.min n (String.length s).
Proof. revert s. induction n as [|n IH]; intros [|c s]; simpl; auto. Qed.

Lemma length_drop (n : nat) (s : string) :
  String.length (drop n s) = (String.length s - n)%nat.
Proof. revert s. induction n as [|n IH]; intros [|c s]; simpl; auto. Qed.

Lemma TrimPrefix_app (p t : string) : TrimPrefix (p ++ t) p = t.
Proof. unfold TrimPrefix. now rewrite HasPrefix_app, drop_app. Qed.

Lemma app_inv_head (p s t : string) : p ++ s = p ++ t -> s = t.
Proof.
  induction p as [|c p IH]; [auto |].
  rewrite !app_cons. intros H. injection H as H. auto.
Qed.

Lemma length_rev_onto (s : string) :
  forall acc, String.length (rev_onto s acc) = (String.length s + String.length acc)%nat.
Proof.
  induction s as [|c s IH]; intros acc; simpl; [reflexivity |].
  rewrite IH. simpl. lia.
Qed.

Lemma length_rev (s : string) : String.length (rev s) = String.length s.
Proof. unfold rev. rewrite length_rev_onto. simpl. lia. Qed.

Lemma length_trim_front sp2 sp3 (n : nat) :
  forall s, (String.length s <= n)%nat ->
            (String.length (trim_front sp2 sp3 s) <= String.length s)%nat.
Proof.
  induction n as [|n IH]; intros s Hl.
  - destruct s; [simpl; lia | simpl in Hl; lia].
  - destruct s as [|c1 r1]; [simpl; lia |].
    cbn [trim_front String.length] in *.
    destruct (is_space1 c1); [specialize (IH r1); lia |].
    destruct r1 as [|c2 r2]; [simpl; lia |].
    cbn [String.length] in *.
    destruct (sp2 c1 c2); [specialize (IH r2); lia |].
    destruct r2 as [|c3 r3]; [simpl; lia |].
    cbn [String.length] in *.
    destruct (sp3 c1 c2 c3); [specialize (IH r3); lia | simpl; lia].
Qed.

Lemma length_TrimSpace (s : string) :
  (String.length (TrimSpace s) <= String.length s)%nat.
Proof.
  unfold TrimSpace, TrimRightSpace, TrimLeftSpace.
  rewrite length_rev.
  etransitivity; [eapply length_trim_front; reflexivity |].
  rewrite length_rev. eapply length_trim_front; reflexivity.
Qed.

Lemma length_ToUpper_byte (b : ascii) :
  String.length (ToUpper_byte b) = if (nat_of_ascii b <? 128)%nat then 1%nat else 2%nat.
Proof.
  unfold ToUpper_byte, utf8_encode, upper_latin1.
  destruct (nat_of_ascii b <? 128)%nat eqn:E.
  - apply Nat.ltb_lt in E.
    destruct ((97 <=? nat_of_ascii b) && (nat_of_ascii b <=? 122))%nat eqn:E1.
    + apply andb_true_iff in E1 as [H1 H2]. apply Nat.leb_le in H1, H2.
      replace (nat_of_ascii b - 32 <? 128)%nat with true; [reflexivity |].
      symmetry. apply Nat.ltb_lt. lia.
    + replace (nat_of_ascii b =? 181)%nat with false by (symmetry; apply Nat.eqb_neq; lia).
      replace (224 <=? nat_of_ascii b)%nat with false by (symmetry; apply Nat.leb_gt; lia).
      replace (nat_of_ascii b =? 255)%nat with false by (symmetry; apply Nat.eqb_neq; lia).
      simpl. replace (nat_of_ascii b <? 128)%nat with true; [reflexivity |].
      symmetry. apply Nat.ltb_lt. lia.
  - apply Nat.ltb_ge in E.
    replace (97 <=? nat_of_ascii b)%nat with true by (symmetry; apply Nat.leb_le; lia).
    replace (nat_of_ascii b <=? 122)%nat with false by (symmetry; apply Nat.leb_gt; lia).
    cbn [andb].
    destruct (nat_of_ascii b =? 181)%nat; [reflexivity |].
    destruct ((224 <=? nat_of_ascii b) && (nat_of_ascii b <=? 254)
              && negb (nat_of_ascii b =? 247))%nat eqn:E2.
    + apply andb_true_iff in E2 as [E2 _]. apply andb_true_iff in E2 as [H1 H2].
      apply Nat.leb_le in H1, H2.
      replace (nat_of_ascii b - 32 <? 128)%nat with false; [reflexivity |].
      symmetry. apply Nat.ltb_ge. lia.
    + destruct (nat_of_ascii b =? 255)%nat; [reflexivity |].
      replace (nat_of_ascii b <? 128)%nat with false; [reflexivity |].
      symmetry. apply Nat.ltb_ge. lia.
Qed.


Lemma all_ascii_drop (n : nat) :
  forall s, all_ascii s = true -> all_ascii (drop n s) = true.
Proof.
  induction n as [|n IH]; intros [|c s] H; simpl; auto.
  simpl in H. apply andb_true_iff in H as [_ H]. auto.
Qed.

Lemma all_ascii_take (n : nat) :
  forall s, all_ascii s = true -> all_ascii (take n s) = true.
Proof.
  induction n as [|n IH]; intros [|c s] H; simpl; auto.
  simpl in H. apply andb_true_iff in H as [Hc H]. rewrite Hc. simpl. auto.
Qed.

Lemma all_ascii_rev_onto (s : string) :
  forall acc, all_ascii (rev_onto s acc) = all_ascii s && all_ascii acc.
Proof.
  induction s as [|c s IH]; intros acc; simpl; [reflexivity |].
  rewrite IH. simpl. destruct (nat_of_ascii c <? 128)%nat, (all_ascii s); reflexivity.
Qed.

Lemma all_ascii_rev (s : string) : all_ascii (rev s) = all_ascii s.
Proof. unfold rev. rewrite all_ascii_rev_onto. simpl. apply andb_true_r. Qed.

Lemma all_ascii_trim_front sp2 sp3 (n : nat) :
  forall s, (String.length s <= n)%nat -> all_ascii s = true ->
            all_ascii (trim_front sp2 sp3 s) = true.
Proof.
  induction n as [|n IH]; intros s Hl Ha.
  - destruct s; [reflexivity | simpl in Hl; lia].
  - destruct s as [|c1 r1]; [reflexivity |].
    cbn [trim_front String.length] in *.
    pose proof Ha as Ha0.
    cbn [all_ascii] in Ha. apply andb_true_iff in Ha as [_ Ha1].
    destruct (is_space1 c1); [apply IH; [lia | assumption] |].
    destruct r1 as [|c2 r2]; [assumption |].
    cbn [String.length] in *.
    cbn [all_ascii] in Ha1. apply andb_true_iff in Ha1 as [_ Ha2].
    destruct (sp2 c1 c2); [apply IH; [lia | assumption] |].
    destruct r2 as [|c3 r3]; [assumption |].
    cbn [String.length] in *.
    cbn [all_ascii] in Ha2. apply andb_true_iff in Ha2 as [_ Ha3].
    destruct (sp3 c1 c2 c3); [apply IH; [lia | assumption] | assumption].
Qed.

Lemma all_ascii_TrimSpace (s : string) :
  all_ascii s = true -> all_ascii (TrimSpace s) = true.
Proof.
  intros H. unfold TrimSpace, TrimRightSpace, TrimLeftSpace.
  rewrite all_ascii_rev. eapply all_ascii_trim_front; [reflexivity |].
  rewrite all_ascii_rev. eapply all_ascii_trim_front; [reflexivity | assumption].
Qed.

Lemma all_ascii_TrimPrefix (s p : string) :
  all_ascii s = true -> all_ascii (TrimPrefix s p) = true.
Proof.
  intros H. unfold TrimPrefix. destruct (HasPrefix s p); [now apply all_ascii_drop | assumption].
Qed.

Lemma all_ascii_TrimSuffix (s p : string) :
  all_ascii s = true -> all_ascii (TrimSuffix s p) = true.
Proof.
  intros H. unfold TrimSuffix. destruct (HasSuffix s p); [now apply all_ascii_take | assumption].
Qed.

Lemma length_TrimSuffix (s p : string) :
  (String.length (TrimSuffix s p) <= String.length s)%nat.
Proof.
  unfold TrimSuffix. destruct (HasSuffix s p); [rewrite length_take |]; lia.
Qed.


Lemma RuneCount_le_length (n : nat) :
  forall s, (String.length s <= n)%nat -> (RuneCount s <= String.length s)%nat.
Proof.
  induction n as [|n IH]; intros s Hl.
  - destruct s; [simpl; lia | simpl in Hl; lia].
  - destruct s as [|c0 r1]; [simpl; lia |].
    cbn [RuneCount String.length] in *.
    pose proof (IH r1 ltac:(lia)) as H1.
    destruct (nat_of_ascii c0 <? 128)%nat; [lia |].
    destruct r1 as [|c1 r2]; [simpl; lia |].
    cbn [String.length] in *.
    pose proof (IH r2 ltac:(lia)) as H2.
    destruct (_ && is_cont c1); [lia |].
    destruct r2 as [|c2 r3]; [cbn [String.length] in *; lia |].
    cbn [String.length] in *.
    pose proof (IH r3 ltac:(lia)) as H3.
    destruct (lead3 c0 c1 && is_cont c2); [lia |].
    destruct r3 as [|c3 r4]; [cbn [String.length] in *; lia |].
    cbn [String.length] in *.
    pose proof (IH r4 ltac:(lia)) as H4.
    destruct (lead4 c0 c1 && is_cont c2 && is_cont c3); lia.
Qed.

(** The capitalised first byte is one code point, whatever follows it. *)
Lemma RuneCount_ToUpper_byte (b : ascii) (rest : string) :
  RuneCount (ToUpper_byte b ++ rest) = S (RuneCount rest).
Proof.
  destruct b as [b0 b1 b2 b3 b4 b5 b6 b7];
    destruct b0, b1, b2, b3, b4, b5, b6, b7;
    match goal with
    | |- context [ToUpper_byte ?c] =>
        let v := eval vm_compute in (ToUpper_byte c) in
        change (ToUpper_byte c) with v
    end;
    rewrite ?app_cons, app_nil_l; reflexivity.
Qed.


End StringsFacts.

(** ** Shadow branch naming *)

Module ShadowFacts.

Import Regexp RegexpFacts Strings StringsFacts Shadow.

Lemma lang_Class_inv (rs : list (ascii * ascii)) (s : string) :
  lang (Class rs) s -> exists c, s = String c "" /\ in_class rs c = true.
Proof. inversion 1; subst; eauto. Qed.

Lemma lang_Lit (p s : string) : lang (Lit p) s <-> s = p.
Proof.
  revert s. induction p as [|c p IH]; intros s; simpl.
  - split; [inversion 1; reflexivity | intros ->; constructor].
  - split.
    + inversion 1 as [| |r1 r2 s1 s2 H1 H2| | | |]; subst.
      apply lang_Class_inv in H1 as (c' & -> & Hc).
      apply IH in H2 as ->.
      unfold in_class, in_range in Hc. simpl in Hc.
      rewrite orb_false_r in Hc. apply andb_true_iff in Hc as [Ha Hb].
      apply Nat.leb_le in Ha, Hb.
      assert (E : nat_of_ascii c = nat_of_ascii c') by lia.
      apply (f_equal ascii_of_nat) in E. rewrite !ascii_nat_embedding in E.
      now subst.
    + intros ->. rewrite <- (app_nil_l p), <- app_cons.
      constructor; [| now apply IH].
      constructor. unfold in_class, in_range. simpl.
      now rewrite Nat.leb_refl.
Qed.

Lemma all_in_app (rs : list (ascii * ascii)) (s t : string) :
  all_in rs (s ++ t) = all_in rs s && all_in rs t.
Proof.
  induction s as [|c s IH]; [reflexivity |].
  rewrite app_cons. simpl. now rewrite IH, andb_assoc.
Qed.

Lemma lang_Star_Class (rs : list (ascii * ascii)) (s : string) :
  lang (Star (Class rs)) s <-> all_in rs s = true.
Proof.
  split.
  - intros H. remember (Star (Class rs)) as r eqn:Er.
    induction H; try discriminate; [reflexivity |].
    injection Er as ->.
    apply lang_Class_inv in H as (c & -> & Hc).
    rewrite all_in_app. simpl. rewrite Hc. simpl. auto.
  - induction s as [|c s IH]; simpl; intros H; [constructor |].
    apply andb_true_iff in H as [Hc Hs].
    rewrite <- (app_nil_l s), <- app_cons.
    constructor; [now constructor | auto].
Qed.

Lemma lang_Times_Class (rs : list (ascii * ascii)) (n : nat) :
  forall s, lang (Times n (Class rs)) s <-> String.length s = n /\ all_in rs s = true.
Proof.
  induction n as [|n IH]; intros s; simpl.
  - split.
    + inversion 1. auto.
    + intros [H _]. destruct s; [constructor | discriminate].
  - split.
    + inversion 1 as [| |r1 r2 s1 s2 H1 H2| | | |]; subst.
      apply lang_Class_inv in H1 as (c & -> & Hc).
      apply IH in H2 as [Hl Ha].
      rewrite app_cons, app_nil_l. simpl. rewrite Hl, Hc, Ha. auto.
    + intros [Hl Ha]. destruct s as [|c s]; [discriminate |].
      simpl in Hl, Ha. apply andb_true_iff in Ha as [Hc Ha].
      rewrite <- (app_nil_l s), <- app_cons.
      constructor; [now constructor |]. apply IH. split; [lia | auto].
Qed.

Lemma lang_AtLeast_Class (rs : list (ascii * ascii)) (n : nat) (s : string) :
  lang (AtLeast n (Class rs)) s <-> (n <= String.length s)%nat /\ all_in rs s = true.
Proof.
  unfold AtLeast. split.
  - inversion 1 as [| |r1 r2 s1 s2 H1 H2| | | |]; subst.
    apply lang_Times_Class in H1 as [Hl Ha].
    apply lang_Star_Class in H2.
    rewrite length_app, all_in_app, Ha, H2. split; [lia | reflexivity].
  - intros [Hl Ha].
    rewrite <- (take_drop n s) in Ha |- *.
    rewrite all_in_app in Ha. apply andb_true_iff in Ha as [Ha Hb].
    constructor.
    + apply lang_Times_Class. split; [rewrite length_take; lia | auto].
    + now apply lang_Star_Class.
Qed.

(** The language of the shadow-branch pattern, spelled out. *)
Lemma shadowBranchPattern_lang (s : string) :
  lang shadowBranchPattern s <->
  exists h, s = "entire/" ++ h /\ (7 <= String.length h)%nat /\ all_in hexClass h = true.
Proof.
  unfold shadowBranchPattern. split.
  - inversion 1 as [| |r1 r2 s1 s2 H1 H2| | | |]; subst.
    apply (proj1 (lang_Lit "entire/" _)) in H1 as ->.
    apply (proj1 (lang_AtLeast_Class hexClass 7 _)) in H2. eauto.
  - intros (h & -> & Hl & Ha).
    constructor; [now apply lang_Lit | now apply lang_AtLeast_Class].
Qed.

Lemma sessions_not_in_lang : ~ lang shadowBranchPattern "entire/sessions".
Proof.
  intros H. apply full_match_lang in H. vm_compute in H. discriminate.
Qed.

Lemma IsShadowBranch_lang (s : string) :
  IsShadowBranch s = true <-> lang shadowBranchPattern s /\ s <> "entire/sessions".
Proof.
  unfold IsShadowBranch.
  destruct (String.eqb_spec s "entire/sessions") as [-> | Hne].
  - split; [discriminate | intros [_ H]; now destruct H].
  - rewrite full_match_lang. tauto.
Qed.

Lemma IsShadowBranch_prefix_inv (h : string) :
  IsShadowBranch ("entire/" ++ h) = true ->
  (7 <= String.length h)%nat /\ all_in hexClass h = true.
Proof.
  intros H. apply IsShadowBranch_lang in H as [H _].
  apply shadowBranchPattern_lang in H as (h' & E & Hl & Ha).
  apply app_inv_head in E. now subst.
Qed.

(** C1. [IsShadowBranch s] holds exactly when [s] matches
    [^entire/[0-9a-fA-F]{7,}$] (that is, [s] is ["entire/"] followed by at
    least seven characters, all of them hexadecimal digits) and [s] is not
    ["entire/sessions"].  In particular it is false for ["entire/"],
    ["entire"], ["entire/sessions"], for ["entire/" ++ h] with [h] shorter
    than seven characters, and for ["entire/" ++ h] with a non-hexadecimal
    character in [h]. *)
Theorem IsShadowBranch_spec :
  (forall s, IsShadowBranch s = true <->
             lang shadowBranchPattern s /\ s <> "entire/sessions") /\
  (forall s, lang shadowBranchPattern s <->
             exists h, s = "entire/" ++ h /\ (7 <= String.length h)%nat /\
                       all_in hexClass h = true) /\
  IsShadowBranch "entire/" = false /\
  IsShadowBranch "entire" = false /\
  IsShadowBranch "entire/sessions" = false /\
  (forall h, (String.length h < 7)%nat -> IsShadowBranch ("entire/" ++ h) = false) /\
  (forall h, all_in hexClass h = false -> IsShadowBranch ("entire/" ++ h) = false).
Proof.
  split; [exact IsShadowBranch_lang |].
  split; [exact shadowBranchPattern_lang |].
  repeat split; try reflexivity.
  - intros h Hl. destruct (IsShadowBranch ("entire/" ++ h)) eqn:E; [| reflexivity].
    apply IsShadowBranch_prefix_inv in E as [E _]. lia.
  - intros h Ha. destruct (IsShadowBranch ("entire/" ++ h)) eqn:E; [| reflexivity].
    apply IsShadowBranch_prefix_inv in E as [_ E]. congruence.
Qed.

(** The literal cases of the test table [TestIsShadowBranch]. *)
Example IsShadowBranch_table :
  List.map IsShadowBranch
    ["entire/abc1234"; "entire/1234567";
     "entire/abcdef0123456789abcdef0123456789abcdef01"; "entire/AbCdEf1";
     "entire/"; "entire/abc123"; "entire/a"; "entire/ghijklm";
     "entire/sessions"; "abc1234"; "feature/abc1234"; "main"; "master"; "";
     "entire"]
  = [true; true; true; true;
     false; false; false; false; false; false; false; false; false; false; false].
Proof. vm_compute. reflexivity. Qed.

End ShadowFacts.

(** ** Listing and deleting shadow branches *)

Module JanitorFacts.

Import Go Regexp RegexpFacts Strings StringsFacts Shadow ShadowFacts.

Lemma fold_list_step_elems (rs : list string) :
  forall acc, elems (fold_left list_step rs acc)
              = (elems acc ++ List.filter IsShadowBranch (local_branches rs))%list.
Proof.
  unfold local_branches.
  induction rs as [|r rs IH]; intros acc; simpl.
  - now rewrite List.app_nil_r.
  - rewrite IH. unfold list_step.
    destruct (IsBranch r); simpl; [| reflexivity].
    destruct (IsShadowBranch (TrimPrefix r "refs/heads/")); [| reflexivity].
    destruct acc as [l|]; simpl; [now rewrite <- List.app_assoc | reflexivity].
Qed.

Lemma local_branches_In (rs : list string) (b : string) :
  In b (local_branches rs) <-> In (NewBranchReferenceName b) rs.
Proof.
  unfold local_branches, NewBranchReferenceName. rewrite in_map_iff. split.
  - intros (r & <- & Hr). apply filter_In in Hr as [Hr Hb].
    apply HasPrefix_iff in Hb as [t ->]. now rewrite TrimPrefix_app.
  - intros H. exists ("refs/heads/" ++ b). split; [apply TrimPrefix_app |].
    apply filter_In. split; [assumption | apply HasPrefix_app].
Qed.

Lemma ListShadowBranches_ok (rs : list string) (rf : string -> bool) :
  ListShadowBranches (Some {| refs := rs; refs_unreadable := false; remove_fails := rf |})
  = (Some (List.filter IsShadowBranch (local_branches rs)), None).
Proof.
  unfold ListShadowBranches. simpl. unfold References. simpl.
  pose proof (fold_list_step_elems rs None) as H. simpl in H.
  destruct (fold_left list_step rs None) as [l|]; simpl in H; now rewrite <- H.
Qed.

(** C6. On a repository whose references can be read, [ListShadowBranches]
    returns, without error and as a non-nil slice, exactly the local branch
    names that satisfy [IsShadowBranch] (in reference order); on the branches
    [entire/abc1234], [entire/def5678], [entire/sessions], [feature/foo],
    [main] that is [entire/abc1234] and [entire/def5678]; and when no branch
    satisfies the predicate the result is the empty non-nil slice. *)
Theorem ListShadowBranches_spec :
  (forall rs rf,
     let repo := {| refs := rs; refs_unreadable := false; remove_fails := rf |} in
     exists l,
       ListShadowBranches (Some repo) = (Some l, None) /\
       l = List.filter IsShadowBranch (local_branches rs) /\
       (forall b, In b l <->
                  In (NewBranchReferenceName b) rs /\ IsShadowBranch b = true) /\
       ((forall b, In (NewBranchReferenceName b) rs -> IsShadowBranch b = false) ->
        l = [])) /\
  (forall rf,
     ListShadowBranches
       (Some {| refs := ["HEAD"; "refs/heads/entire/abc1234"; "refs/heads/entire/def5678";
                         "refs/heads/entire/sessions"; "refs/heads/feature/foo";
                         "refs/heads/main"; "refs/heads/master"];
                refs_unreadable := false; remove_fails := rf |})
     = (Some ["entire/abc1234"; "entire/def5678"], None)) /\
  (forall rf,
     ListShadowBranches
       (Some {| refs := ["HEAD"; "refs/heads/master"];
                refs_unreadable := false; remove_fails := rf |})
     = (Some [], None)).
Proof.
  split; [| split; intros rf; rewrite ListShadowBranches_ok; vm_compute; reflexivity].
  intros rs rf repo. exists (List.filter IsShadowBranch (local_branches rs)).
  split; [apply ListShadowBranches_ok |]. split; [reflexivity |].
  split.
  - intros b. rewrite filter_In, local_branches_In. tauto.
  - intros Hnone.
    destruct (List.filter IsShadowBranch (local_branches rs)) as [|b l] eqn:E; [reflexivity |].
    assert (Hb : In b (List.filter IsShadowBranch (local_branches rs)))
      by (rewrite E; now left).
    apply filter_In in Hb as [Hb Hs]. apply local_branches_In in Hb.
    rewrite (Hnone b Hb) in Hs. discriminate.
Qed.


Lemma app_slice_append {A : Type} (s : slice A) (x : A) (l : list A) :
  app_slice (append s x) l = app_slice s (x :: l).
Proof.
  destruct s as [l0|]; destruct l as [|y l]; simpl; try reflexivity.
  now rewrite <- List.app_assoc.
Qed.

Lemma NewBranchReferenceName_inj (a b : string) :
  NewBranchReferenceName a = NewBranchReferenceName b -> a = b.
Proof. apply app_inv_head. Qed.

Lemma existsb_eqb_In (x : string) (l : list string) :
  existsb (String.eqb x) l = true <-> In x l.
Proof.
  rewrite existsb_exists. split.
  - intros (y & Hy & E). apply String.eqb_eq in E. now subst.
  - intros H. exists x. split; [assumption | apply String.eqb_refl].
Qed.

Lemma deletable_iff (repo : Repository) (b : string) :
  deletable repo b = true <->
  In (NewBranchReferenceName b) (refs repo) /\
  remove_fails repo (NewBranchReferenceName b) = false.
Proof.
  unfold deletable. rewrite andb_true_iff, existsb_eqb_In, negb_true_iff. tauto.
Qed.

Lemma without_cons (b : string) (dl rs : list string) :
  without dl (List.filter (fun r => negb (String.eqb (NewBranchReferenceName b) r)) rs)
  = without (b :: dl) rs.
Proof.
  unfold without. induction rs as [|r rs IH]; [reflexivity |].
  cbn [List.filter existsb].
  destruct (String.eqb (NewBranchReferenceName b) r); cbn [negb orb List.filter existsb];
    [exact IH |].
  destruct (existsb _ dl); cbn [negb]; now rewrite IH.
Qed.

Lemma without_nil (rs : list string) : without [] rs = rs.
Proof.
  unfold without in *. induction rs as [|r rs IH]; [reflexivity |].
  simpl in *. now f_equal.
Qed.

Lemma loop_post_failed (repo repo' : Repository) (b : string) (bs dl fl : list string) :
  deletable repo b = false ->
  loop_post repo bs dl fl repo' -> loop_post repo (b :: bs) dl (b :: fl) repo'.
Proof.
  intros Hnd (Hp & Hsd & Hsf & Hin & Hr & Hrf & Hu).
  split; [rewrite <- Hp; symmetry; apply Permutation_middle |].
  split; [now apply sublist_cons |].
  split; [now apply sublist_skip |].
  split; [| tauto].
  intros x. rewrite Hin. simpl. split; [tauto |].
  intros [[-> | Hx] Hdx]; [congruence | tauto].
Qed.

Lemma deletable_after_remove (repo : Repository) (b x : string) :
  deletable {| refs := List.filter (fun r => negb (String.eqb (NewBranchReferenceName b) r)) (refs repo);
               refs_unreadable := refs_unreadable repo;
               remove_fails := remove_fails repo |} x = true
  <-> deletable repo x = true /\ x <> b.
Proof.
  rewrite !deletable_iff. cbn [refs remove_fails].
  rewrite filter_In, negb_true_iff, String.eqb_neq. split.
  - intros [[H1 H2] H3]. repeat split; auto. intros ->. now apply H2.
  - intros [[H1 H2] H3]. repeat split; auto.
    intros Hc. apply NewBranchReferenceName_inj in Hc. now subst.
Qed.

Lemma loop_post_deleted (repo repo' : Repository) (b : string) (bs dl fl : list string) :
  deletable repo b = true ->
  loop_post {| refs := List.filter (fun r => negb (String.eqb (NewBranchReferenceName b) r)) (refs repo);
               refs_unreadable := refs_unreadable repo;
               remove_fails := remove_fails repo |} bs dl fl repo' ->
  loop_post repo (b :: bs) (b :: dl) fl repo'.
Proof.
  intros Hd (Hp & Hsd & Hsf & Hin & Hr & Hrf & Hu).
  cbn [refs remove_fails refs_unreadable] in Hr, Hrf, Hu.
  split; [simpl; now constructor |].
  split; [now apply sublist_skip |].
  split; [now apply sublist_cons |].
  split; [| split; [rewrite Hr; apply without_cons | tauto]].
  intros x. simpl. rewrite Hin, deletable_after_remove. split.
  - intros [<- | H]; [tauto | tauto].
  - intros [[-> | Hx] Hdx]; [now left |].
    destruct (String.eqb_spec b x) as [-> | Hne]; [now left | right].
    repeat split; auto.
Qed.

Lemma delete_loop_spec (bs : list string) :
  forall repo d f,
  exists dl fl repo',
    delete_loop repo bs d f = (repo', app_slice d dl, app_slice f fl) /\
    loop_post repo bs dl fl repo'.
Proof.
  induction bs as [|b bs IH]; intros repo d f.
  - exists [], [], repo. split; [reflexivity |].
    split; [constructor |]. split; [constructor |]. split; [constructor |].
    split; [intros b; simpl; tauto |].
    split; [symmetry; apply without_nil | tauto].
  - destruct (deletable repo b) eqn:Hd.
    + pose proof Hd as Hd'. unfold deletable in Hd'.
      apply andb_true_iff in Hd' as [Eex Erf]. apply negb_true_iff in Erf.
      cbn [delete_loop]. unfold Reference, RemoveReference. rewrite Eex, Erf.
      match goal with |- context [delete_loop ?r bs _ _] =>
        destruct (IH r (append d b) f) as (dl & fl & repo' & E & Hpost) end.
      exists (b :: dl), fl, repo'. rewrite E, app_slice_append.
      split; [reflexivity | now apply loop_post_deleted].
    + destruct (IH repo d (append f b)) as (dl & fl & repo' & E & Hpost).
      exists dl, (b :: fl), repo'.
      split; [| now apply loop_post_failed].
      rewrite <- app_slice_append, <- E.
      cbn [delete_loop]. unfold Reference, RemoveReference, deletable in *.
      destruct (existsb _ (refs repo)); [| reflexivity].
      destruct (remove_fails repo _); [reflexivity | discriminate].
Qed.

Lemma elems_app_slice_nil {A : Type} (l : list A) : elems (app_slice None l) = l.
Proof. destruct l; reflexivity. Qed.

Lemma app_slice_nil_None {A : Type} (l : list A) : app_slice (@None (list A)) l = None <-> l = [].
Proof. destruct l; simpl; split; congruence. Qed.

(** C5 (the code at the failing input). The one name of the input is not a
    branch of the repository, as in [TestDeleteShadowBranches_NonExistent]:
    the loop appends it to [failed] and never touches [deleted], which is
    returned as the [nil] slice it was declared as.  So the two results are
    not always non-nil. *)
Theorem DeleteShadowBranches_nil_deleted :
  snd (DeleteShadowBranches (Some plain_repo) ["entire/doesnotexist"])
    = (None, Some ["entire/doesnotexist"], None) /\
  ~ (forall env branches,
       fst (fst (snd (DeleteShadowBranches env branches))) <> None /\
       snd (fst (snd (DeleteShadowBranches env branches))) <> None).
Proof.
  split; [vm_compute; reflexivity |].
  intros H. destruct (H (Some plain_repo) ["entire/doesnotexist"]) as [Hd _].
  apply Hd. vm_compute. reflexivity.
Qed.

(** The run of [DeleteShadowBranches] in a repository that opens, in terms of
    the names that land in the two results. *)
Lemma DeleteShadowBranches_run (repo : Repository) (b : string) (bs : list string) :
  exists dl fl repo',
    DeleteShadowBranches (Some repo) (b :: bs)
    = (Some repo', (app_slice None dl, app_slice None fl, None)) /\
    loop_post repo (b :: bs) dl fl repo'.
Proof.
  destruct (delete_loop_spec (b :: bs) repo None None) as (dl & fl & repo' & E & Hpost).
  exists dl, fl, repo'. unfold DeleteShadowBranches, OpenRepository. now rewrite E.
Qed.


(** For a non-empty input a result is [nil] exactly when no name landed in
    it. *)
Lemma DeleteShadowBranches_nil_iff (repo : Repository) (b : string) (bs : list string) :
  exists deleted failed repo',
    DeleteShadowBranches (Some repo) (b :: bs) = (Some repo', (deleted, failed, None)) /\
    (deleted = None <-> elems deleted = []) /\
    (failed = None <-> elems failed = []).
Proof.
  destruct (DeleteShadowBranches_run repo b bs) as (dl & fl & repo' & E & _).
  exists (app_slice None dl), (app_slice None fl), repo'.
  rewrite !elems_app_slice_nil, !app_slice_nil_None. tauto.
Qed.

(** When every deletion fails, [deleted] is [nil] and [failed] is the input. *)
Lemma DeleteShadowBranches_all_fail (repo : Repository) (b : string) (bs : list string) :
  (forall x, In x (b :: bs) -> deletable repo x = false) ->
  DeleteShadowBranches (Some repo) (b :: bs) = (Some repo, (None, Some (b :: bs), None)).
Proof.
  intros Hall. unfold DeleteShadowBranches, OpenRepository.
  assert (H : forall l f, (forall x, In x l -> deletable repo x = false) ->
            delete_loop repo l None f = (repo, None, app_slice f l)).
  { induction l as [|x l IH]; intros f Hl; [reflexivity |].
    cbn [delete_loop]. rewrite <- app_slice_append, <- IH by (intros; apply Hl; now right).
    assert (Hx : deletable repo x = false) by (apply Hl; now left).
    unfold Reference, RemoveReference, deletable in *.
    destruct (existsb _ (refs repo)); [| reflexivity].
    destruct (remove_fails repo _); [reflexivity | discriminate]. }
  now rewrite (H (b :: bs) None Hall).
Qed.

(** The three cases of the test suite: existing branches are deleted, a
    missing one is reported as failed, the empty input gives two empty
    slices. *)
Example DeleteShadowBranches_tests :
  let repo := {| refs := ["HEAD"; "refs/heads/master";
                          "refs/heads/entire/abc1234"; "refs/heads/entire/def5678"];
                 refs_unreadable := false; remove_fails := fun _ => false |} in
  snd (DeleteShadowBranches (Some repo) ["entire/abc1234"; "entire/def5678"])
    = (Some ["entire/abc1234"; "entire/def5678"], None, None) /\
  option_map refs (fst (DeleteShadowBranches (Some repo) ["entire/abc1234"; "entire/def5678"]))
    = Some ["HEAD"; "refs/heads/master"] /\
  snd (DeleteShadowBranches (Some repo) ["entire/doesnotexist"])
    = (None, Some ["entire/doesnotexist"], None) /\
  snd (DeleteShadowBranches (Some repo) []) = (Some [], Some [], None).
Proof. vm_compute. repeat split. Qed.

End JanitorFacts.

(** ** Commit messages from prompts *)

Module CommitMessageFacts.

Import Regexp RegexpFacts Strings StringsFacts CommitMessage.

Lemma strip_first_shorter (ps : list string) (s s' : string) :
  Forall (fun p => p <> "") ps ->
  strip_first ps s = Some s' -> (String.length s' < String.length s)%nat.
Proof.
  induction 1 as [|p ps Hp _ IH]; simpl; [discriminate |].
  destruct (HasPrefix s p) eqn:E; [| exact IH].
  intros [= <-]. apply HasPrefix_iff in E as [t ->].
  rewrite TrimPrefix_app, length_app.
  destruct p; [congruence | simpl; lia].
Qed.

Lemma prefixes_nonempty : Forall (fun p => p <> "") prefixes.
Proof. repeat constructor; discriminate. Qed.

(** The loop stops because no prefix is left, not because the fuel is spent. *)
Lemma strip_loop_done (n : nat) :
  forall s, (String.length s <= n)%nat -> strip_first prefixes (strip_loop n s) = None.
Proof.
  induction n as [|n IH]; intros s Hl.
  - destruct s; [reflexivity | simpl in Hl; lia].
  - cbn [strip_loop]. destruct (strip_first prefixes s) as [s'|] eqn:E; [| exact E].
    apply IH. apply (strip_first_shorter _ _ _ prefixes_nonempty) in E. lia.
Qed.

(** Any two amounts of fuel that cover the length of the prompt agree. *)
Lemma strip_loop_enough (n : nat) :
  forall m s, (String.length s <= n)%nat -> (String.length s <= m)%nat ->
              strip_loop n s = strip_loop m s.
Proof.
  induction n as [|n IH]; intros m s Hn Hm.
  - destruct s; [now destruct m | simpl in Hn; lia].
  - destruct m as [|m]; [destruct s; [reflexivity | simpl in Hm; lia] |].
    cbn [strip_loop].
    destruct (strip_first prefixes s) as [s'|] eqn:E; [| reflexivity].
    apply (strip_first_shorter _ _ _ prefixes_nonempty) in E.
    apply IH; lia.
Qed.

(** More fuel than the length of the prompt changes nothing. *)
Lemma strip_loop_fuel (n : nat) (s : string) :
  (String.length s <= n)%nat -> strip_loop n s = strip_prefixes s.
Proof. intros H. apply strip_loop_enough; [assumption | lia]. Qed.

Lemma strip_prefixes_done (s : string) : strip_first prefixes (strip_prefixes s) = None.
Proof. apply strip_loop_done. lia. Qed.

(** C10. [generateCommitMessage] never returns the empty string: it returns
    the cleaned prompt when that is not empty and the fixed message
    ["Claude Code session updates"] otherwise, the empty prompt and a prompt
    that cleans to nothing included. *)
Theorem generateCommitMessage_nonempty :
  (forall p, generateCommitMessage p <> "") /\
  (forall p, cleanPromptForCommit p <> "" ->
             generateCommitMessage p = cleanPromptForCommit p) /\
  (forall p, cleanPromptForCommit p = "" ->
             generateCommitMessage p = "Claude Code session updates") /\
  generateCommitMessage "" = "Claude Code session updates" /\
  generateCommitMessage "Please can you ?" = "Claude Code session updates".
Proof.
  split; [| split; [| split; [| split; vm_compute; reflexivity]]].
  - intros p. unfold generateCommitMessage.
    destruct (String.eqb_spec p ""); simpl; [discriminate |].
    destruct (String.eqb_spec (cleanPromptForCommit p) ""); simpl; [discriminate | assumption].
  - intros p Hc. unfold generateCommitMessage.
    destruct (String.eqb_spec p "") as [-> | _]; simpl; [now destruct Hc |].
    destruct (String.eqb_spec (cleanPromptForCommit p) ""); simpl; [contradiction | reflexivity].
  - intros p Hc. unfold generateCommitMessage. rewrite Hc.
    destruct (String.eqb_spec p ""); reflexivity.
Qed.

(** C9 (the code at the failing input). The prompt is cut to 72 bytes, and the
    capitalisation step, which converts the first byte alone to a string,
    turns the byte C3 into the two bytes C3 83: the description is 73 bytes
    long, and its first letter is not capitalised but broken in two.  The
    same happens to the short prompt [elan] with an acute accent on the
    [e], which comes out as C3 83 A9 [lan] in place of C3 89 [lan]. *)
Theorem cleanPromptForCommit_overlong :
  String.length accented_prompt = 73%nat /\
  cleanPromptForCommit accented_prompt
  = bytes [195; 131; 169]
    ++ "aaaaaaaaaaaaaaaaaaaaaaaaaaaaaaaaaaaaaaaaaaaaaaaaaaaaaaaaaaaaaaaaaaaaaa" /\
  String.length (cleanPromptForCommit accented_prompt) = 73%nat /\
  cleanPromptForCommit (bytes [195; 169] ++ "lan") = bytes [195; 131; 169] ++ "lan".
Proof. vm_compute. repeat split. Qed.

Lemma cleanPromptForCommit_truncated (p : string) :
  cleanPromptForCommit p
  = match truncated p with
    | EmptyString => EmptyString
    | String c0 rest => ToUpper_byte c0 ++ rest
    end.
Proof.
  unfold cleanPromptForCommit, truncated. cbv zeta.
  match goal with |- match ?x with _ => _ end = _ => destruct x end; reflexivity.
Qed.

Lemma length_truncated (p : string) : (String.length (truncated p) <= 72)%nat.
Proof.
  unfold truncated. cbv zeta.
  destruct (72 <? _)%nat eqn:E.
  - etransitivity; [apply length_TrimSpace |]. rewrite length_take. lia.
  - apply Nat.ltb_ge in E. exact E.
Qed.

(** The truncation caps the description at 72 bytes; capitalising can add
    one more. *)
Lemma cleanPromptForCommit_length (p : string) :
  (String.length (cleanPromptForCommit p) <= 73)%nat.
Proof.
  rewrite cleanPromptForCommit_truncated.
  pose proof (length_truncated p) as H.
  destruct (truncated p) as [|c0 rest]; [simpl; lia |].
  rewrite length_app, length_ToUpper_byte. simpl in H.
  destruct (_ <? _)%nat; lia.
Qed.

Lemma all_ascii_strip_first (ps : list string) (s s' : string) :
  all_ascii s = true -> strip_first ps s = Some s' -> all_ascii s' = true.
Proof.
  intros Ha. induction ps as [|p ps IH]; simpl; [discriminate |].
  destruct (HasPrefix s p); [| exact IH].
  intros [= <-]. now apply all_ascii_TrimPrefix.
Qed.

Lemma all_ascii_strip_loop (n : nat) :
  forall s, all_ascii s = true -> all_ascii (strip_loop n s) = true.
Proof.
  induction n as [|n IH]; intros s Ha; [exact Ha |].
  cbn [strip_loop]. destruct (strip_first prefixes s) as [s'|] eqn:E; [| exact Ha].
  apply IH. eapply all_ascii_strip_first; eauto.
Qed.

Lemma all_ascii_truncated (p : string) :
  all_ascii p = true -> all_ascii (truncated p) = true.
Proof.
  intros Ha. unfold truncated, strip_prefixes. cbv zeta.
  assert (H : all_ascii (TrimSpace (TrimSuffix (strip_loop (String.length p) p) "?")) = true).
  { apply all_ascii_TrimSpace, all_ascii_TrimSuffix, all_ascii_strip_loop, Ha. }
  destruct (72 <? _)%nat; [| exact H].
  apply all_ascii_TrimSpace, all_ascii_take, H.
Qed.

(** For a prompt of ASCII bytes the description is at most 72 bytes long. *)
Lemma cleanPromptForCommit_length_ascii (p : string) :
  all_ascii p = true -> (String.length (cleanPromptForCommit p) <= 72)%nat.
Proof.
  intros Ha. rewrite cleanPromptForCommit_truncated.
  pose proof (length_truncated p) as H.
  pose proof (all_ascii_truncated p Ha) as Ht.
  destruct (truncated p) as [|c0 rest]; [simpl; lia |].
  rewrite length_app, length_ToUpper_byte. simpl in H, Ht.
  apply andb_true_iff in Ht as [-> _]. lia.
Qed.

Lemma cleanPromptForCommit_length_ascii_witness :
  all_ascii "Can you please fix the bug in main.go?" = true /\
  (String.length (cleanPromptForCommit "Can you please fix the bug in main.go?") <= 72)%nat.
Proof.
  split; [reflexivity |].
  apply (cleanPromptForCommit_length_ascii "Can you please fix the bug in main.go?").
  reflexivity.
Defined.

(** Counted in code points, the description is at most 72 long. *)
Lemma cleanPromptForCommit_runes (p : string) :
  (RuneCount (cleanPromptForCommit p) <= 72)%nat.
Proof.
  rewrite cleanPromptForCommit_truncated.
  pose proof (length_truncated p) as H.
  destruct (truncated p) as [|c0 rest]; [simpl; lia |].
  rewrite RuneCount_ToUpper_byte. simpl in H.
  pose proof (RuneCount_le_length (String.length rest) rest ltac:(lia)). lia.
Qed.


(** Worked examples of the cleaning. *)
Example cleanPromptForCommit_examples :
  cleanPromptForCommit "Can you please fix the bug in main.go?" = "Fix the bug in main.go" /\
  cleanPromptForCommit "  add tests  " = "Add tests" /\
  cleanPromptForCommit "Please Can you " = "" /\
  cleanPromptForCommit "" = "".
Proof. vm_compute. repeat split. Qed.

End CommitMessageFacts.

(** ** Preconditions of summarize *)

Module SummarizeFacts.

Import Go Strings Summarize.

Lemma count_until_nonneg (from : Hash) (cs : list Hash) :
  forall count, (0 <= count)%Z ->
    match count_until from cs count with
    | inl n | inr n => (0 <= n)%Z
    end.
Proof.
  induction cs as [|c cs IH]; intros count Hc; simpl; [assumption |].
  destruct (String.eqb c from); [assumption | apply IH; lia].
Qed.

Lemma CountCommitsBetween_nonneg (g : Git) (from to : Hash) (n : Z) :
  CountCommitsBetween g from to = Ok n -> (0 <= n)%Z.
Proof.
  unfold CountCommitsBetween.
  destruct (opens g); [| discriminate].
  destruct (CommitObject g to); [| discriminate].
  pose proof (count_until_nonneg from (visited (preorder g to)) 0%Z ltac:(lia)) as H.
  destruct (count_until _ _ _) as [c | c].
  - now intros [= <-].
  - destruct (broken _) as [e|]; [destruct (String.eqb e "stop") |];
      try discriminate; now intros [= <-].
Qed.

(** Ltac: split the goal along every [match] of the validation chain. *)
Ltac split_chain :=
  repeat match goal with
         | |- context [match ?x with _ => _ end] => destruct x eqn:?
         | H : context [match ?x with _ => _ end] |- _ => destruct x eqn:?
         end.

(** C8 (as stated) fails: with [skipDefaultBranchCheck] set, validation
    succeeds on the default branch. *)
Lemma ValidateSummarize_skip_default :
  IsOnDefaultBranch on_main = Ok (true, "main") /\
  ValidateSummarize on_main "develop" true = None.
Proof. split; vm_compute; reflexivity. Qed.

(** C8 (amended). [ValidateSummarize] returns an error whenever the target
    branch does not exist, the worktree has uncommitted changes, the number of
    commits from the merge base to HEAD is zero, or, unless
    [skipDefaultBranchCheck] is set, the current branch is the default branch;
    and when it returns nil none of these holds: the target exists, the
    worktree is clean, at least one commit is ahead, and, unless the check is
    skipped, the current branch is not the default one. *)
Theorem ValidateSummarize_spec (g : Git) (target : string) (skip : bool) :
  (forall name, skip = false -> IsOnDefaultBranch g = Ok (true, name) ->
                ValidateSummarize g target skip <> None) /\
  (BranchExists g target = Ok false -> ValidateSummarize g target skip <> None) /\
  (HasUncommittedChanges g = Ok true -> ValidateSummarize g target skip <> None) /\
  (commits_ahead g target = Some 0%Z -> ValidateSummarize g target skip <> None) /\
  (ValidateSummarize g target skip = None ->
   (skip = false -> exists name, IsOnDefaultBranch g = Ok (false, name)) /\
   BranchExists g target = Ok true /\
   HasUncommittedChanges g = Ok false /\
   exists n, commits_ahead g target = Some n /\ (0 < n)%Z).
Proof.
  split; [| split; [| split; [| split]]].
  - intros name -> Hd. unfold ValidateSummarize. rewrite Hd. simpl. discriminate.
  - intros Hb. unfold ValidateSummarize. rewrite Hb. split_chain; discriminate.
  - intros Hu. unfold ValidateSummarize. rewrite Hu. split_chain; discriminate.
  - unfold commits_ahead, ValidateSummarize. intros Hc.
    split_chain; try discriminate; try congruence.
    all: match goal with
         | Hs : Some ?z = Some 0%Z, Hz : (?z =? 0)%Z = false |- _ =>
             injection Hs as ->; discriminate Hz
         end.
  - intros Hnil. split; [| split; [| split]].
    + intros ->. unfold ValidateSummarize in Hnil. simpl in Hnil.
      destruct (IsOnDefaultBranch g) as [[[|] name]|]; try discriminate. eauto.
    + unfold ValidateSummarize in Hnil. split_chain; try discriminate; reflexivity.
    + unfold ValidateSummarize in Hnil. split_chain; try discriminate; reflexivity.
    + unfold ValidateSummarize, commits_ahead in *.
      split_chain; try discriminate.
      all: match goal with
           | Hc : CountCommitsBetween _ _ _ = Ok ?z, Hz : (?z =? 0)%Z = false |- _ =>
               exists z; split; [reflexivity |];
               apply CountCommitsBetween_nonneg in Hc; apply Z.eqb_neq in Hz; lia
           end.
Qed.

Lemma ValidateSummarize_spec_witness :
  BranchExists on_main "nonexistent" = Ok false /\
  ValidateSummarize on_main "nonexistent" false <> None.
Proof.
  split; [reflexivity |].
  exact (proj1 (proj2 (ValidateSummarize_spec on_main "nonexistent" false)) eq_refl).
Defined.

Example ValidateSummarize_tests :
  ValidateSummarize feature2 "main" false = None /\
  ValidateSummarize feature2 "nonexistent" false <> None /\
  ValidateSummarize on_main "develop" false <> None /\
  commits_ahead feature2 "main" = Some 1%Z.
Proof. vm_compute. repeat split; discriminate. Qed.

End SummarizeFacts.

(** ** Trailers of the squashed commit *)

Module TrailerFacts.

Import Go Regexp RegexpFacts Strings StringsFacts Shadow ShadowFacts Summarize Trailers.

(** *** The order of [sort.Strings] *)

Lemma ascii_compare_eq (a b : ascii) : Ascii.compare a b = Eq <-> a = b.
Proof.
  split; [apply Ascii.compare_eq_iff |].
  intros ->. unfold Ascii.compare. apply N.compare_refl.
Qed.

Lemma string_compare_refl (s : string) : String.compare s s = Eq.
Proof.
  induction s as [|c s IH]; [reflexivity |].
  simpl. now rewrite (proj2 (ascii_compare_eq c c) eq_refl).
Qed.

Lemma string_compare_trans (c : comparison) (s1 : string) :
  forall s2 s3, String.compare s1 s2 = c -> String.compare s2 s3 = c ->
                String.compare s1 s3 = c.
Proof.
  induction s1 as [|a s1 IH]; intros [|b s2] [|d s3]; simpl; try congruence.
  unfold Ascii.compare.
  destruct (N.compare_spec (N_of_ascii a) (N_of_ascii b)) as [E1 | L1 | L1];
    destruct (N.compare_spec (N_of_ascii b) (N_of_ascii d)) as [E2 | L2 | L2];
    destruct (N.compare_spec (N_of_ascii a) (N_of_ascii d)) as [E3 | L3 | L3];
    try lia; try congruence; try apply IH.
Qed.

#[global] Instance string_le_total : Total string_le.
Proof. intros a b. apply String.leb_total. Qed.

#[global] Instance string_le_antisym : AntiSymm eq string_le.
Proof. intros a b. apply String.leb_antisym. Qed.

#[global] Instance string_le_trans : Transitive string_le.
Proof.
  intros a b c. unfold string_le, String.leb.
  destruct (String.compare a b) eqn:E1; [| | discriminate];
    destruct (String.compare b c) eqn:E2; try discriminate; intros _ _.
  - now rewrite (string_compare_trans Eq a b c).
  - apply String.compare_eq_iff in E1 as ->. now rewrite E2.
  - apply String.compare_eq_iff in E2 as <-. now rewrite E1.
  - now rewrite (string_compare_trans Lt a b c).
Qed.

Lemma sort_strings_sorted (keys : list string) :
  StronglySorted string_le (sort_strings keys).
Proof. apply StronglySorted_merge_sort; apply _. Qed.

Lemma sort_strings_perm (keys : list string) : sort_strings keys ≡ₚ keys.
Proof. apply merge_sort_Permutation. Qed.

(** Whatever order the map is ranged over, the sorted keys are the same. *)
Lemma sort_strings_order_irrelevant (keys1 keys2 : list string) :
  keys1 ≡ₚ keys2 -> sort_strings keys1 = sort_strings keys2.
Proof.
  intros Hp. apply (StronglySorted_unique string_le); try apply sort_strings_sorted.
  now rewrite !sort_strings_perm.
Qed.

Lemma sort_strings_order_irrelevant_witness :
  sort_strings ["Zebra-Trailer"; "Alpha-Trailer"; "Middle-Trailer"]
  = sort_strings ["Middle-Trailer"; "Zebra-Trailer"; "Alpha-Trailer"].
Proof.
  apply sort_strings_order_irrelevant.
  symmetry.
  apply (Permutation_cons_append ["Zebra-Trailer"; "Alpha-Trailer"] "Middle-Trailer").
Defined.


(** *** The shape of the emitted message *)

Lemma build_trailers_fold (trailers : gmap string string) (keys : list string) :
  forall sb,
    fold_left (fun sb key => sb ++ String "010"%char (trailer_line trailers key)) keys sb
    = sb ++ lines_text (trailer_line trailers <$> keys).
Proof.
  induction keys as [|k keys IH]; intros sb; simpl.
  - now rewrite app_nil_r.
  - rewrite IH, app_assoc. reflexivity.
Qed.

Lemma build_trailers_lines (trailers : gmap string string) (keys : list string) :
  build_trailers trailers keys = lines_text (trailer_line trailers <$> keys).
Proof. unfold build_trailers. now rewrite build_trailers_fold. Qed.

Lemma size_pos_nonempty (m : gmap string string) : (0 <? size m)%nat = true <-> m <> ∅.
Proof.
  rewrite Nat.ltb_lt. split.
  - intros H ->. rewrite map_size_empty in H. lia.
  - intros H. apply map_size_non_empty_iff in H. lia.
Qed.

Lemma fullMessage_nonempty (message : string) (m : gmap string string) :
  m <> ∅ ->
  fullMessage message m
  = message ++ String newline
      (lines_text (trailer_line m <$> sort_strings (map_to_list m).*1)).
Proof.
  intros H. unfold fullMessage.
  rewrite (proj2 (size_pos_nonempty m) H), build_trailers_lines.
  now rewrite app_assoc.
Qed.

Lemma fullMessage_empty (message : string) : fullMessage message ∅ = message.
Proof. reflexivity. Qed.

(** *** Lines and paragraphs *)

Lemma has_newline_app (s t : string) :
  has_newline (s ++ t) = has_newline s || has_newline t.
Proof.
  induction s as [|c s IH]; [reflexivity |].
  rewrite app_cons. simpl. now rewrite IH, orb_assoc.
Qed.

Lemma split_lines_nonnil (s : string) : split_lines s <> [].
Proof.
  destruct s as [|c s]; simpl; [discriminate |].
  destruct (Ascii.eqb c newline); [discriminate |].
  destruct (split_lines s); discriminate.
Qed.

Lemma split_lines_app_newline (x y : string) :
  split_lines (x ++ String newline y) = (split_lines x ++ split_lines y)%list.
Proof.
  induction x as [|c x IH]; [reflexivity |].
  rewrite app_cons. cbn [split_lines]. rewrite IH.
  destruct (Ascii.eqb c newline); [reflexivity |].
  pose proof (split_lines_nonnil x) as Hx.
  destruct (split_lines x); [contradiction | reflexivity].
Qed.

Lemma split_lines_single (s : string) : has_newline s = false -> split_lines s = [s].
Proof.
  induction s as [|c s IH]; [reflexivity |].
  simpl. intros H. apply orb_false_iff in H as [-> H]. now rewrite IH.
Qed.

Lemma split_lines_text (ls : list string) :
  Forall (fun l => has_newline l = false) ls ->
  forall x, has_newline x = false -> split_lines (x ++ lines_text ls) = x :: ls.
Proof.
  induction 1 as [|l ls Hl _ IH]; intros x Hx; simpl.
  - rewrite app_nil_r. now apply split_lines_single.
  - rewrite split_lines_app_newline, (IH l Hl), split_lines_single by assumption.
    reflexivity.
Qed.

Lemma take_while_app_stop {A : Type} (f : A -> bool) (l r : list A) (x : A) :
  Forall (fun y => f y = true) l -> f x = false -> take_while f (l ++ x :: r) = l.
Proof.
  intros Hl Hx. induction Hl as [|y l Hy _ IH]; simpl; [now rewrite Hx |].
  now rewrite Hy, IH.
Qed.

Lemma final_paragraph_tail (xs ls : list string) :
  ls <> [] -> Forall (fun l => is_blank l = false) ls ->
  final_paragraph (xs ++ "" :: ls) = ls.
Proof.
  intros Hne Hall. unfold final_paragraph.
  rewrite rev_app_distr. cbn [List.rev]. rewrite <- List.app_assoc. cbn [List.app].
  assert (Hr : Forall (fun l => is_blank l = false) (List.rev ls)).
  { apply List.Forall_forall. intros l Hl. apply in_rev in Hl.
    revert l Hl. now apply List.Forall_forall. }
  destruct (List.rev ls) as [|y ys] eqn:E.
  { apply (f_equal (@List.rev string)) in E. rewrite rev_involutive in E. now subst. }
  assert (Hy : is_blank y = false) by now inversion Hr.
  cbn [List.app drop_while]. rewrite Hy.
  change (y :: (ys ++ "" :: List.rev xs)%list) with ((y :: ys) ++ "" :: List.rev xs)%list.
  rewrite take_while_app_stop.
  - rewrite <- E. apply rev_involutive.
  - eapply List.Forall_impl; [| exact Hr]. simpl. now intros l ->.
  - reflexivity.
Qed.

(** *** Reading a trailer line back *)

Ltac each_byte c :=
  destruct c as [b0 b1 b2 b3 b4 b5 b6 b7];
  destruct b0, b1, b2, b3, b4, b5, b6, b7.

Lemma alpha_alnum_dash (c : ascii) :
  in_class alpha c = true -> in_class alnum_dash c = true.
Proof. each_byte c; vm_compute; congruence. Qed.

Lemma alnum_dash_plain (c : ascii) :
  in_class alnum_dash c = true ->
  Ascii.eqb c ":"%char = false /\ Ascii.eqb c newline = false.
Proof. each_byte c; vm_compute; intros; split; congruence. Qed.

Lemma dot_class_spec (c : ascii) : in_class dot_class c = negb (Ascii.eqb c newline).
Proof. each_byte c; vm_compute; reflexivity. Qed.

Lemma all_in_dot_class (s : string) : all_in dot_class s = negb (has_newline s).
Proof.
  induction s as [|c s IH]; [reflexivity |].
  cbn [all_in has_newline]. rewrite IH, dot_class_spec. now rewrite negb_orb.
Qed.

Lemma split_colon_key (k r : string) :
  all_in alnum_dash k = true -> split_colon (k ++ String ":"%char r) = Some (k, r).
Proof.
  induction k as [|c k IH]; [reflexivity |].
  cbn [all_in]. intros H. apply andb_true_iff in H as [Hc Hk].
  rewrite app_cons. cbn [split_colon].
  destruct (alnum_dash_plain c Hc) as [-> _]. now rewrite IH.
Qed.

Lemma key_pattern_inv (k : string) :
  lang key_pattern k <->
  exists c k', k = String c k' /\ in_class alpha c = true /\ all_in alnum_dash k' = true.
Proof.
  unfold key_pattern. split.
  - inversion 1 as [| |r1 r2 s1 s2 H1 H2| | | |]; subst.
    apply lang_Class_inv in H1 as (c & -> & Hc).
    apply (proj1 (lang_Star_Class alnum_dash _)) in H2.
    exists c, s2. now rewrite app_cons, app_nil_l.
  - intros (c & k' & -> & Hc & Hk).
    rewrite <- (app_nil_l k'), <- app_cons.
    constructor; [now constructor | now apply lang_Star_Class].
Qed.

Lemma key_all_alnum_dash (k : string) : lang key_pattern k -> all_in alnum_dash k = true.
Proof.
  intros H. apply key_pattern_inv in H as (c & k' & -> & Hc & Hk).
  cbn [all_in]. now rewrite (alpha_alnum_dash c Hc), Hk.
Qed.

Lemma all_alnum_dash_no_newline (k : string) :
  all_in alnum_dash k = true -> has_newline k = false.
Proof.
  induction k as [|c k IH]; [reflexivity |].
  cbn [all_in has_newline]. intros H. apply andb_true_iff in H as [Hc Hk].
  destruct (alnum_dash_plain c Hc) as [_ ->]. now rewrite IH.
Qed.

Lemma parse_line_trailer (k v : string) :
  lang key_pattern k -> has_newline v = false ->
  parse_line (k ++ ": " ++ v) = Some (k, v).
Proof.
  intros Hk Hv. unfold parse_line.
  assert (Hm : full_match trailer_pattern (k ++ ": " ++ v) = true).
  { apply full_match_lang. unfold trailer_pattern.
    constructor; [assumption |].
    change (": " ++ v) with (String ":"%char "" ++ (String " "%char "" ++ v)).
    constructor; [now constructor |].
    constructor; [apply lang_alt_l; now constructor |].
    apply lang_Star_Class. now rewrite all_in_dot_class, Hv. }
  rewrite Hm.
  change (": " ++ v) with (String ":"%char (String " "%char v)).
  now rewrite split_colon_key by now apply key_all_alnum_dash.
Qed.

Lemma trailer_line_plain (m : gmap string string) (k : string) :
  lang key_pattern k -> has_newline (default "" (m !! k)) = false ->
  has_newline (trailer_line m k) = false /\ is_blank (trailer_line m k) = false.
Proof.
  intros Hk Hv. unfold trailer_line. split.
  - rewrite !has_newline_app, Hv.
    now rewrite (all_alnum_dash_no_newline k (key_all_alnum_dash k Hk)).
  - apply key_pattern_inv in Hk as (c & k' & -> & _). reflexivity.
Qed.

(** *** Round trip *)

Lemma well_formed_key (m : gmap string string) (k : string) :
  well_formed m = true -> k ∈ (map_to_list m).*1 ->
  lang key_pattern k /\ has_newline (default "" (m !! k)) = false.
Proof.
  intros Hwf Hk. apply list_elem_of_fmap in Hk as ([k' v] & -> & Hkv).
  unfold well_formed in Hwf. rewrite forallb_forall in Hwf.
  specialize (Hwf (k', v) (proj1 (list_elem_of_In _ _) Hkv)). simpl in Hwf.
  apply andb_true_iff in Hwf as [H1 H2].
  apply elem_of_map_to_list in Hkv. simpl. rewrite Hkv. simpl.
  split; [now apply full_match_lang | now apply negb_true_iff].
Qed.

Lemma omap_parse_lines (m : gmap string string) (keys : list string) :
  Forall (fun k => lang key_pattern k /\ has_newline (default "" (m !! k)) = false) keys ->
  omap parse_line (trailer_line m <$> keys) = (fun k => (k, default "" (m !! k))) <$> keys.
Proof.
  induction 1 as [|k keys [Hk Hv] _ IH]; [reflexivity |].
  cbn [fmap list_fmap omap list_omap]. unfold trailer_line at 1.
  rewrite parse_line_trailer by assumption. now f_equal.
Qed.

Lemma pairs_of_keys (m : gmap string string) (l : list (string * string)) :
  (forall kv, kv ∈ l -> m !! kv.1 = Some kv.2) ->
  (fun k => (k, default "" (m !! k))) <$> l.*1 = l.
Proof.
  induction l as [|[k v] l IH]; intros H; [reflexivity |].
  pose proof (H (k, v) ltac:(now left)) as Hk. simpl in Hk.
  rewrite !fmap_cons. cbn [fst]. rewrite Hk. simpl.
  f_equal. apply IH. intros kv Hkv. apply H. now right.
Qed.

Lemma list_to_map_sorted_keys (m : gmap string string) :
  list_to_map ((fun k => (k, default "" (m !! k))) <$> sort_strings (map_to_list m).*1) = m.
Proof.
  transitivity (list_to_map ((fun k => (k, default "" (m !! k))) <$> (map_to_list m).*1)
                : gmap string string).
  - apply list_to_map_proper.
    + rewrite <- list_fmap_compose.
      replace (fst ∘ (fun k => (k, default "" (m !! k)))) with (@id string) by reflexivity.
      rewrite list_fmap_id, sort_strings_perm. apply NoDup_fst_map_to_list.
    + apply fmap_Permutation, sort_strings_perm.
  - rewrite pairs_of_keys by (intros [k v] H; now apply elem_of_map_to_list).
    apply list_to_map_to_list.
Qed.

(** The trailer block is the final paragraph of the emitted message. *)
Lemma fullMessage_final_paragraph (message : string) (m : gmap string string) :
  well_formed m = true -> m <> ∅ ->
  final_paragraph (split_lines (fullMessage message m))
  = trailer_line m <$> sort_strings (map_to_list m).*1.
Proof.
  intros Hwf Hne. rewrite fullMessage_nonempty by assumption.
  set (keys := sort_strings (map_to_list m).*1).
  assert (Hkeys : Forall (fun k => lang key_pattern k /\
                                   has_newline (default "" (m !! k)) = false) keys).
  { apply List.Forall_forall. intros k Hk. apply (well_formed_key m k Hwf).
    apply list_elem_of_In in Hk. subst keys. now rewrite sort_strings_perm in Hk. }
  assert (Hlines : Forall (fun l => has_newline l = false /\ is_blank l = false)
                          (trailer_line m <$> keys)).
  { induction Hkeys as [|k ks [Hk Hv] _ IH]; constructor; [| exact IH].
    now apply trailer_line_plain. }
  rewrite split_lines_app_newline.
  rewrite <- (app_nil_l (lines_text _)), split_lines_text;
    [| eapply List.Forall_impl; [| exact Hlines]; simpl; tauto | reflexivity].
  apply final_paragraph_tail.
  - intros Hnil. apply fmap_nil_inv in Hnil.
    assert (Hp : keys ≡ₚ (map_to_list m).*1) by apply sort_strings_perm.
    rewrite Hnil in Hp. symmetry in Hp. apply Permutation_nil_r in Hp.
    apply fmap_nil_inv in Hp. now apply map_to_list_empty_iff in Hp.
  - eapply List.Forall_impl; [| exact Hlines]. simpl. tauto.
Qed.

Lemma parse_fullMessage (message : string) (m : gmap string string) :
  well_formed m = true -> m <> ∅ -> parse_trailers (fullMessage message m) = m.
Proof.
  intros Hwf Hne. unfold parse_trailers.
  rewrite fullMessage_final_paragraph by assumption.
  rewrite omap_parse_lines; [apply list_to_map_sorted_keys |].
  apply List.Forall_forall. intros k Hk. apply (well_formed_key m k Hwf).
  apply list_elem_of_In in Hk. now rewrite sort_strings_perm in Hk.
Qed.

(** C4 (as stated) fails: two different maps are emitted as the same message,
    so no parser gives both back; the parser of the spec reads the second. *)
Lemma fullMessage_not_injective :
  fullMessage "msg" multi_line = fullMessage "msg" two_keys /\
  multi_line <> two_keys /\
  parse_trailers (fullMessage "msg" multi_line) = two_keys /\
  ~ (forall message m, parse_trailers (fullMessage message m) = m).
Proof.
  assert (Hne : multi_line <> two_keys).
  { intros E. apply (f_equal (fun m : gmap string string => m !! "b")) in E.
    vm_compute in E. discriminate. }
  assert (He : fullMessage "msg" multi_line = fullMessage "msg" two_keys)
    by (vm_compute; reflexivity).
  assert (Hp : parse_trailers (fullMessage "msg" multi_line) = two_keys).
  { rewrite He. apply parse_fullMessage; [vm_compute; reflexivity |].
    intros E. apply (f_equal (fun m : gmap string string => m !! "b")) in E.
    vm_compute in E. discriminate. }
  repeat split; try assumption.
  intros H. apply Hne. now rewrite <- (H "msg" multi_line).
Qed.

(** The trailer lines are in sorted key order, for every map. *)
Lemma fullMessage_sorted (message : string) (m : gmap string string) :
  exists keys,
    keys ≡ₚ (map_to_list m).*1 /\ StronglySorted string_le keys /\ NoDup keys /\
    fullMessage message m
    = if decide (m = ∅) then message
      else message ++ String newline (lines_text (trailer_line m <$> keys)).
Proof.
  exists (sort_strings (map_to_list m).*1).
  split; [apply sort_strings_perm |]. split; [apply sort_strings_sorted |].
  split; [rewrite sort_strings_perm; apply NoDup_fst_map_to_list |].
  destruct (decide (m = ∅)) as [-> | Hne]; [reflexivity | now apply fullMessage_nonempty].
Qed.

(** C4 (amended). For every map of trailers, the message of
    [CreateSquashedBranch] is the given message when the map is empty, and
    otherwise the given message, a blank line, and one [Key: Value] line per
    entry in lexicographically sorted key order.  For every map whose keys
    have the trailer-key shape and whose values hold no line feed: these lines
    are the final paragraph of the message, and, when the map is not empty (or
    the given message ends in no trailer of its own), parsing the trailers of
    the final paragraph gives the map back. *)
Theorem fullMessage_roundtrip (message : string) (m : gmap string string) :
  (exists keys,
     keys ≡ₚ (map_to_list m).*1 /\ StronglySorted string_le keys /\
     fullMessage message m
     = (if decide (m = ∅) then message
        else message ++ String newline (lines_text (trailer_line m <$> keys))) /\
     (well_formed m = true -> m <> ∅ ->
      final_paragraph (split_lines (fullMessage message m)) = trailer_line m <$> keys)) /\
  (well_formed m = true ->
   m <> ∅ \/ parse_trailers message = ∅ ->
   parse_trailers (fullMessage message m) = m).
Proof.
  split.
  - exists (sort_strings (map_to_list m).*1).
    split; [apply sort_strings_perm |]. split; [apply sort_strings_sorted |].
    split; [| apply fullMessage_final_paragraph].
    destruct (decide (m = ∅)) as [-> | Hne]; [reflexivity | now apply fullMessage_nonempty].
  - intros Hwf Hcase. destruct (decide (m = ∅)) as [-> | Hne].
    + rewrite fullMessage_empty. destruct Hcase as [H | H]; [contradiction | exact H].
    + now apply parse_fullMessage.
Qed.

Lemma test_trailers_nonempty : test_trailers <> ∅.
Proof.
  intros E. apply (f_equal (fun m : gmap string string => m !! "Beta-Trailer")) in E.
  vm_compute in E. discriminate.
Qed.

Lemma fullMessage_roundtrip_witness :
  well_formed test_trailers = true /\
  parse_trailers (fullMessage "feat: test trailer ordering" test_trailers) = test_trailers.
Proof.
  split; [vm_compute; reflexivity |].
  apply (proj2 (fullMessage_roundtrip "feat: test trailer ordering" test_trailers)).
  - vm_compute. reflexivity.
  - left. exact test_trailers_nonempty.
Defined.

Example fullMessage_test :
  fullMessage "feat: test trailer ordering" test_trailers
  = "feat: test trailer ordering" ++ String newline (String newline "")
    ++ "Alpha-Trailer: a" ++ String newline ""
    ++ "Beta-Trailer: b" ++ String newline ""
    ++ "Middle-Trailer: m" ++ String newline ""
    ++ "Zebra-Trailer: z".
Proof. vm_compute. reflexivity. Qed.

Lemma well_formed_intro (m : gmap string string) :
  (forall k v, m !! k = Some v ->
               full_match key_pattern k = true /\ has_newline v = false) ->
  well_formed m = true.
Proof.
  intros H. unfold well_formed. apply forallb_forall. intros [k v] Hkv.
  apply list_elem_of_In, elem_of_map_to_list in Hkv.
  destruct (H k v Hkv) as [Hk Hv]. cbn [fst snd]. now rewrite Hk, Hv.
Qed.

End TrailerFacts.

(** ** Resume without a checkpoint or without its metadata *)

Module ResumeFacts.

Import Go Strings Trailers Resume.




(** For contrast: with the metadata at hand the session log is written. *)
Example resume_restores_session :
  let env :=
    {| opens := Ok tt;
       Head := Ok "4f2a9c1d7e8b";
       CommitObject := fun _ =>
         Ok ("Add feature" ++ nl ++ nl ++ "Entire-Checkpoint: abcdef01234567" ++ nl);
       ParseCheckpointTrailer := ParseCheckpoint;
       CheckpointPath := checkpoint_path;
       GetMetadataBranchTree := Ok {[ "ab/cdef01234567" := "2025-01-01-alpha" ]};
       GetRemoteMetadataBranchTree := Err "reference not found";
       ReadCheckpointMetadata := read_from_tree;
       Detect := Ok file_agent;
       Default := Some file_agent;
       Getwd := Ok "/repo";
       GetSessionLog := fun _ => Log "{}";
       MkdirAll := fun _ => None |} in
  fst (resumeFromCurrentBranch env "feature" fresh_world) = None /\
  files (snd (resumeFromCurrentBranch env "feature" fresh_world))
    !! "/repo/.claude/sessions/alpha.jsonl" = Some "{}".
Proof. vm_compute. split; reflexivity. Qed.

End ResumeFacts.

(** ** Attribution summary *)

Module AttributionFacts.

Import QArith_base Attribution.




Example summarize_scenarios :
  summarize deletion_only
  = {| AgentLines := 0; HumanAdded := 0; HumanModified := 0; HumanRemoved := 3;
       TotalCommitted := 0; AgentPercentage := Qmake 0 1 |} /\
  summarize [ {| agent_add := 8; human_add := 5; human_mod := 0; human_rem := 0 |} ]
  = {| AgentLines := 8; HumanAdded := 5; HumanModified := 0; HumanRemoved := 0;
       TotalCommitted := 13; AgentPercentage := Qmake 615 10 |}.
Proof. vm_compute. split; reflexivity. Qed.

End AttributionFacts.

(** ** Session-id conflicts *)

Module SessionFacts.

Import Go Strings Summarize Trailers Session.

(** C3. On a base commit whose shadow branch exists, whatever the session
    state files hold (none, after they were deleted): if the tip commit's
    [Entire-Session] trailer names another session, starting fails with
    [SessionIdConflict]; if it names the same session, starting succeeds; and
    if the tip commit has no such trailer (a legacy branch), starting
    succeeds. *)
Theorem start_session_conflict (base id strategy tip : string) (s : Store) :
  tips s !! shadow_branch_for base = Some tip ->
  (forall owner, ParseSession tip = Some owner -> owner <> id ->
     forall files,
       start_session base id strategy {| tips := tips s; state_files := files |}
       = SessionIdConflict owner) /\
  (ParseSession tip = Some id ->
     forall files, exists s',
       start_session base id strategy {| tips := tips s; state_files := files |}
       = Started s') /\
  (ParseSession tip = None ->
     forall files, exists s',
       start_session base id strategy {| tips := tips s; state_files := files |}
       = Started s').
Proof.
  intros Htip. unfold start_session. simpl. rewrite Htip.
  repeat split.
  - intros owner -> Hne files.
    destruct (String.eqb_spec owner id); [contradiction | reflexivity].
  - intros -> files. rewrite String.eqb_refl. eauto.
  - intros -> files. eauto.
Qed.

Lemma start_session_conflict_witness :
  start_session "4f2a9c1d7e8b" "2025-01-01-beta" "manual-commit" orphaned_store
  = SessionIdConflict "2025-01-01-alpha".
Proof.
  apply (proj1 (start_session_conflict "4f2a9c1d7e8b" "2025-01-01-beta" "manual-commit"
                  orphaned_message orphaned_store ltac:(reflexivity))
           "2025-01-01-alpha").
  - vm_compute. reflexivity.
  - discriminate.
Defined.

(** Scenarios S3 and S5 and the resume of the same session, evaluated. *)
Example start_session_scenarios :
  start_session "4f2a9c1d7e8b" "2025-01-01-beta" "manual-commit" orphaned_store
    = SessionIdConflict "2025-01-01-alpha" /\
  (exists s', start_session "4f2a9c1d7e8b" "2025-01-01-alpha" "manual-commit" orphaned_store
              = Started s') /\
  (exists s', start_session "4f2a9c1d7e8b" "2025-01-01-beta" "manual-commit"
                {| tips := {[ "entire/4f2a9c1" := legacy_message ]}; state_files := ∅ |}
              = Started s').
Proof. vm_compute. repeat split; eexists; reflexivity. Qed.

(** The branch a session creates carries the session's id in its trailer. *)
Lemma ParseSession_initial_message (id strategy : string) :
  has_newline id = false -> has_newline strategy = false ->
  ParseSession (initial_message id strategy) = Some id.
Proof.
  intros Hid Hst. unfold ParseSession, initial_message.
  rewrite TrailerFacts.parse_fullMessage.
  - now rewrite lookup_insert_eq.
  - apply TrailerFacts.well_formed_intro. intros k v Hkv.
    apply lookup_insert_Some in Hkv as [[<- <-] | [_ Hkv]]; [now split |].
    apply lookup_singleton_Some in Hkv as [<- <-]. now split.
  - intros E. apply (f_equal (fun m : gmap string string => m !! "Entire-Session")) in E.
    rewrite lookup_insert_eq, lookup_empty in E. discriminate.
Qed.

(** After session [a] has reserved the shadow branch of a base commit,
    another session [b] on the same base is refused, state files or not. *)
Lemma reserved_branch_conflict (base a b strategy : string) (s : Store) :
  has_newline a = false -> has_newline strategy = false -> a <> b ->
  tips s !! shadow_branch_for base = None ->
  exists s1,
    start_session base a strategy s = Started s1 /\
    forall files,
      start_session base b strategy {| tips := tips s1; state_files := files |}
      = SessionIdConflict a.
Proof.
  intros Ha Hst Hab Hnone. unfold start_session at 1. rewrite Hnone.
  eexists. split; [reflexivity |].
  intros files. unfold start_session. cbn [tips].
  rewrite lookup_insert_eq, ParseSession_initial_message by assumption.
  destruct (String.eqb_spec a b); [contradiction | reflexivity].
Qed.

Lemma reserved_branch_conflict_witness :
  exists s1,
    start_session "4f2a9c1d7e8b" "2025-01-01-alpha" "manual-commit"
      {| tips := ∅; state_files := ∅ |} = Started s1 /\
    forall files,
      start_session "4f2a9c1d7e8b" "2025-01-01-beta" "manual-commit"
        {| tips := tips s1; state_files := files |}
      = SessionIdConflict "2025-01-01-alpha".
Proof.
  apply (reserved_branch_conflict "4f2a9c1d7e8b" "2025-01-01-alpha" "2025-01-01-beta"
           "manual-commit" {| tips := ∅; state_files := ∅ |});
    [reflexivity | reflexivity | discriminate | reflexivity].
Defined.

End SessionFacts.

(** ** The [clean] command *)

Module CleanFacts.

Import Go Regexp RegexpFacts Strings StringsFacts Shadow ShadowFacts JanitorFacts Clean.

Lemma print_branches_app (bs : list string) :
  forall w, print_branches w bs = (w ++ List.map branch_line bs)%list.
Proof.
  unfold print_branches, Fprintf.
  induction bs as [|b bs IH]; intros w; simpl.
  - now rewrite List.app_nil_r.
  - rewrite IH, <- List.app_assoc. reflexivity.
Qed.







(** Without [--force] the command is a preview: it leaves the repository as
    it is, fails only when the branches cannot be listed, and otherwise
    prints a line for every shadow branch. *)
Theorem runClean_preview (env : option Repository) (w : Writer) :
  exists out err,
    runClean env w false = (env, (w ++ out)%list, err) /\
    (err = None <-> snd (ListShadowBranches env) = None) /\
    (err = None ->
     forall b, In b (elems (fst (ListShadowBranches env))) -> In (branch_line b) out).
Proof.
  unfold runClean. destruct (ListShadowBranches env) as [branches [e|]]; cbn [fst snd].
  - exists [], (Some ("failed to list shadow branches: " ++ e)).
    rewrite List.app_nil_r. split; [reflexivity |]. split; [| discriminate].
    split; discriminate.
  - unfold runCleanWithBranches. destruct (elems branches) as [|b bs] eqn:Eb.
    + eexists _, None. split; [reflexivity |]. split; [tauto |]. intros _ x [].
    + cbn [List.length Nat.eqb negb]. rewrite print_branches_app. unfold Fprintf.
      rewrite <- !List.app_assoc.
      eexists _, None. split; [reflexivity |]. split; [tauto |].
      intros _ x Hx. cbn [List.app]. right. apply in_or_app. left.
      now apply in_map.
Qed.





(** The output of the three modes on the same repository. *)
Example runClean_outputs :
  runClean (Some plain_repo) [] true
    = (Some plain_repo, ["No shadow branches to clean up." ++ nl], None) /\
  snd (fst (runClean (Some two_shadows) [] false))
    = ["2 shadow branches found:" ++ nl; "  entire/abc1234" ++ nl; "  entire/def5678" ++ nl;
       nl; "Run with --force to delete these branches." ++ nl] /\
  snd (fst (runClean (Some two_shadows) [] true))
    = ["Deleted 2 shadow branches:" ++ nl; "  entire/abc1234" ++ nl; "  entire/def5678" ++ nl].
Proof. vm_compute. repeat split. Qed.

End CleanFacts.

(** ** Transcripts *)

Module TranscriptFacts.

Import Go Transcript.

Section Decode.

Variable json : Json.
Variable FileModificationTools : list string.

#[local] Abbreviation block_step := (block_step json FileModificationTools).
#[local] Abbreviation line_step := (line_step json FileModificationTools).
#[local] Abbreviation names_file := (names_file json FileModificationTools).
#[local] Abbreviation modifies := (modifies json FileModificationTools).

Lemma elems_append {A : Type} (s : slice A) (x : A) :
  elems (append s x) = (elems s ++ [x])%list.
Proof. now destruct s. Qed.

Lemma block_step_spec (st : gmap string bool * slice string) (block : contentBlock) :
  tracked st ->
  tracked (block_step st block) /\
  forall f, In f (elems (snd (block_step st block)))
            <-> In f (elems (snd st)) \/ (f <> "" /\ names_file block f).
Proof.
  destruct st as [fileSet files]. intros (Hnd & Hne & Hset). cbn [fst snd] in *.
  assert (Hsame : forall P : Prop, ~ P ->
            tracked (fileSet, files) /\
            forall f, In f (elems files) <-> In f (elems files) \/ (f <> "" /\ P)).
  { intros P HP. split; [now split |]. tauto. }
  unfold block_step, Transcript.names_file.
  destruct (String.eqb (block_Type block) "tool_use") eqn:Et; cbn [negb].
  2: { apply String.eqb_neq in Et. split; [now split |]. cbn [snd]. tauto. }
  apply String.eqb_eq in Et.
  destruct (existsb _ FileModificationTools) eqn:En; cbn [negb].
  2: { split; [now split |]. cbn [snd]. intros f.
       assert (~ In (Name block) FileModificationTools).
       { rewrite <- JanitorFacts.existsb_eqb_In. congruence. }
       tauto. }
  apply JanitorFacts.existsb_eqb_In in En.
  destruct (toolInputOf json (Input block)) as [input|] eqn:Ei.
  2: { split; [now split |]. cbn [snd]. intros f. split; [tauto |].
       intros [H | (_ & _ & _ & i & Hi & _)]; [assumption | discriminate]. }
  set (file := if String.eqb (FilePath input) "" then NotebookPath input else FilePath input).
  assert (Hnames : forall f, (f <> "" /\ block_Type block = "tool_use" /\
                               In (Name block) FileModificationTools /\
                               exists i, Some input = Some i /\
                                 f = (if String.eqb (FilePath i) "" then NotebookPath i
                                      else FilePath i))
                             <-> f <> "" /\ f = file).
  { intros f. split.
    - intros (Hf & _ & _ & i & [= <-] & ->). now split.
    - intros [Hf ->]. repeat (split; [assumption |]). now exists input. }
  destruct (String.eqb file "") eqn:Ef; cbn [negb andb].
  { apply String.eqb_eq in Ef. split; [now split |]. cbn [snd]. intros f.
    rewrite Hnames. split; [tauto |]. intros [H | [Hf E]]; [assumption | congruence]. }
  apply String.eqb_neq in Ef.
  destruct (default false (fileSet !! file)) eqn:Es; cbn [negb].
  { apply Hset in Es. split; [now split |]. cbn [snd]. intros f.
    rewrite Hnames. split; [tauto |]. intros [H | [Hf ->]]; assumption. }
  assert (Hnew : ~ In file (elems files)) by (rewrite <- Hset; congruence).
  split.
  - unfold tracked. cbn [fst snd]. rewrite elems_append. split; [| split].
    + apply NoDup_app. split; [assumption |]. split; [| apply NoDup_singleton].
      intros x Hx Hx'. apply list_elem_of_singleton in Hx'. subst x.
      now apply list_elem_of_In in Hx.
    + rewrite in_app_iff. cbn [In]. intros [H | [H | []]]; [tauto | congruence].
    + intros f. rewrite in_app_iff. cbn [In]. rewrite <- Hset.
      destruct (decide (file = f)) as [-> | Hf].
      * rewrite lookup_insert_eq. cbn. tauto.
      * rewrite lookup_insert_ne by assumption. split; [tauto |].
        intros [H | [H | []]]; [assumption | contradiction].
  - cbn [snd]. intros f. rewrite elems_append, in_app_iff, Hnames. cbn [In].
    split.
    + intros [H | [<- | []]]; [now left | now right].
    + intros [H | [_ ->]]; [now left | right; now left].
Qed.

Lemma fold_block_step_spec (blocks : list contentBlock) :
  forall st, tracked st ->
    tracked (fold_left block_step blocks st) /\
    forall f, In f (elems (snd (fold_left block_step blocks st)))
              <-> In f (elems (snd st))
                  \/ (f <> "" /\ exists block, In block blocks /\ names_file block f).
Proof.
  induction blocks as [|b bs IH]; intros st Hst; cbn [fold_left].
  - split; [assumption |]. intros f. split; [tauto |].
    intros [H | (_ & b & [] & _)]. assumption.
  - destruct (block_step_spec st b Hst) as [Hst' Hin'].
    destruct (IH _ Hst') as [Hst'' Hin'']. split; [assumption |].
    intros f. rewrite Hin'', Hin'. cbn [In]. split.
    + intros [[H | [Hf Hn]] | (Hf & b' & Hb' & Hn)]; [now left | right .. ];
        (split; [assumption |]); eauto.
    + intros [H | (Hf & b' & [<- | Hb'] & Hn)]; [tauto | tauto |].
      right. split; [assumption |]. eauto.
Qed.

Lemma line_step_spec (st : gmap string bool * slice string) (line : TranscriptLine) :
  tracked st ->
  tracked (line_step st line) /\
  forall f, In f (elems (snd (line_step st line)))
            <-> In f (elems (snd st)) \/ (f <> "" /\ modifies line f).
Proof.
  intros Hst. unfold line_step, Transcript.modifies.
  destruct (String.eqb (Type_ line) "assistant") eqn:Et; cbn [negb].
  2: { apply String.eqb_neq in Et. split; [assumption |]. tauto. }
  apply String.eqb_eq in Et.
  destruct (assistantContent json (Message line)) as [content|] eqn:Ec.
  2: { split; [assumption |]. intros f. split; [tauto |].
       intros [H | (_ & _ & c & b & Hc & _)]; [assumption | discriminate]. }
  destruct (fold_block_step_spec content st Hst) as [Hst' Hin]. split; [assumption |].
  intros f. rewrite Hin. split.
  - intros [H | (Hf & b & Hb & Hn)]; [now left |]. right. split; [assumption |].
    split; [assumption |]. now exists content, b.
  - intros [H | (Hf & _ & c & b & [= <-] & Hb & Hn)]; [now left |]. right. eauto.
Qed.

Lemma fold_line_step_spec (lines : list TranscriptLine) :
  forall st, tracked st ->
    tracked (fold_left line_step lines st) /\
    forall f, In f (elems (snd (fold_left line_step lines st)))
              <-> In f (elems (snd st))
                  \/ (f <> "" /\ exists line, In line lines /\ modifies line f).
Proof.
  induction lines as [|l ls IH]; intros st Hst; cbn [fold_left].
  - split; [assumption |]. intros f. split; [tauto |].
    intros [H | (_ & l & [] & _)]. assumption.
  - destruct (line_step_spec st l Hst) as [Hst' Hin'].
    destruct (IH _ Hst') as [Hst'' Hin'']. split; [assumption |].
    intros f. rewrite Hin'', Hin'. cbn [In]. split.
    + intros [[H | [Hf Hn]] | (Hf & l' & Hl' & Hn)]; [now left | right .. ];
        (split; [assumption |]); eauto.
    + intros [H | (Hf & l' & [<- | Hl'] & Hn)]; [tauto | tauto |].
      right. split; [assumption |]. eauto.
Qed.

(** [ExtractModifiedFiles] lists each modified file once: the result has no
    duplicate, and a name is in it exactly when it is not empty and some
    assistant line of the transcript has a [tool_use] block of a file
    modification tool that names it. *)
Theorem ExtractModifiedFiles_spec (lines : list TranscriptLine) :
  NoDup (elems (ExtractModifiedFiles json FileModificationTools lines)) /\
  forall file,
    In file (elems (ExtractModifiedFiles json FileModificationTools lines))
    <-> file <> "" /\ exists line, In line lines /\ modifies line file.
Proof.
  unfold ExtractModifiedFiles.
  assert (H0 : tracked (∅, None)).
  { split; [constructor |]. split; [intros [] |]. intros f. cbn.
    rewrite lookup_empty. cbn. split; [discriminate | intros []]. }
  destruct (fold_line_step_spec lines _ H0) as [(Hnd & _ & _) Hin].
  split; [assumption |]. intros f. rewrite Hin. cbn. tauto.
Qed.

Lemma index_of_uuid_spec (lines : list TranscriptLine) (uuid : string) :
  forall i,
    match index_of_uuid lines uuid i with
    | None => forall l, In l lines -> UUID l <> uuid
    | Some k =>
        exists pre l post,
          lines = (pre ++ l :: post)%list /\ k = (i + List.length pre)%nat /\
          UUID l = uuid /\ forall x, In x pre -> UUID x <> uuid
    end.
Proof.
  induction lines as [|l ls IH]; intros i; cbn [index_of_uuid].
  - intros l [].
  - destruct (String.eqb (UUID l) uuid) eqn:E.
    + apply String.eqb_eq in E. exists [], l, ls. cbn.
      split; [reflexivity |]. split; [lia |]. split; [assumption |]. intros x [].
    + apply String.eqb_neq in E. specialize (IH (S i)).
      destruct (index_of_uuid ls uuid (S i)) as [k|].
      * destruct IH as (pre & l' & post & -> & -> & Hu & Hpre).
        exists (l :: pre), l', post. cbn.
        split; [reflexivity |]. split; [lia |]. split; [assumption |].
        intros x [<- | Hx]; [assumption | now apply Hpre].
      * intros x [<- | Hx]; [assumption | now apply IH].
Qed.

Lemma take_prefix_one {A : Type} (pre post : list A) (l : A) :
  take (0 + List.length pre + 1) (pre ++ l :: post) = (pre ++ [l])%list.
Proof.
  induction pre as [|x pre IH]; cbn; [now rewrite take_0 | now f_equal].
Qed.

(** The two ways [TruncateAtUUID] ends. *)
Lemma TruncateAtUUID_cases (lines : list TranscriptLine) (uuid : string) :
  ((uuid = "" \/ forall l, In l lines -> UUID l <> uuid) /\
   TruncateAtUUID lines uuid = lines)
  \/
  (exists pre l post,
     lines = (pre ++ l :: post)%list /\ uuid <> "" /\ UUID l = uuid /\
     (forall x, In x pre -> UUID x <> uuid) /\
     TruncateAtUUID lines uuid = (pre ++ [l])%list).
Proof.
  unfold TruncateAtUUID. destruct (String.eqb uuid "") eqn:E.
  - apply String.eqb_eq in E. left. split; [now left | reflexivity].
  - apply String.eqb_neq in E. pose proof (index_of_uuid_spec lines uuid 0) as H.
    destruct (index_of_uuid lines uuid 0) as [k|].
    + right. destruct H as (pre & l & post & -> & -> & Hu & Hpre).
      exists pre, l, post. rewrite take_prefix_one. auto.
    + left. split; [now right | reflexivity].
Qed.

Lemma index_of_uuid_found (pre post : list TranscriptLine) (l : TranscriptLine) (uuid : string) :
  UUID l = uuid -> (forall x, In x pre -> UUID x <> uuid) ->
  forall i, index_of_uuid (pre ++ l :: post) uuid i = Some (i + List.length pre)%nat.
Proof.
  intros Hu. induction pre as [|x pre IH]; intros Hpre i; cbn [index_of_uuid List.app].
  - rewrite (proj2 (String.eqb_eq _ _) Hu). f_equal. cbn. lia.
  - rewrite (proj2 (String.eqb_neq _ _) (Hpre x (or_introl eq_refl))).
    rewrite IH by (intros y Hy; apply Hpre; now right). f_equal. cbn. lia.
Qed.

Lemma TruncateAtUUID_at (pre post : list TranscriptLine) (l : TranscriptLine) :
  UUID l <> "" -> (forall x, In x pre -> UUID x <> UUID l) ->
  TruncateAtUUID (pre ++ l :: post) (UUID l) = (pre ++ [l])%list.
Proof.
  intros Hne Hpre. unfold TruncateAtUUID.
  rewrite (proj2 (String.eqb_neq _ _) Hne), (index_of_uuid_found pre post l) by auto.
  apply take_prefix_one.
Qed.

(** [TruncateAtUUID] cuts the transcript right after the first line that
    carries the UUID, and returns the whole transcript when the UUID is
    empty or no line carries it. *)
Theorem TruncateAtUUID_spec (lines : list TranscriptLine) (uuid : string) :
  (uuid = "" \/ (forall l, In l lines -> UUID l <> uuid) ->
   TruncateAtUUID lines uuid = lines) /\
  (forall pre l post,
     lines = (pre ++ l :: post)%list -> uuid <> "" -> UUID l = uuid ->
     (forall x, In x pre -> UUID x <> uuid) ->
     TruncateAtUUID lines uuid = (pre ++ [l])%list).
Proof.
  split.
  - intros [-> | Hall]; [reflexivity |].
    unfold TruncateAtUUID. destruct (String.eqb uuid ""); [reflexivity |].
    pose proof (index_of_uuid_spec lines uuid 0) as H.
    destruct (index_of_uuid lines uuid 0) as [k|]; [| reflexivity].
    destruct H as (pre & l & post & -> & _ & Hu & _). exfalso.
    apply (Hall l); [| assumption]. apply in_or_app. right. now left.
  - intros pre l post -> Hne <- Hpre. now apply TruncateAtUUID_at.
Qed.

(** Truncating twice at the same UUID is truncating once. *)
Theorem TruncateAtUUID_idempotent (lines : list TranscriptLine) (uuid : string) :
  TruncateAtUUID (TruncateAtUUID lines uuid) uuid = TruncateAtUUID lines uuid.
Proof.
  destruct (TruncateAtUUID_cases lines uuid)
    as [[_ E] | (pre & l & post & -> & Hne & <- & Hpre & E)]; rewrite E; [assumption |].
  now apply (TruncateAtUUID_at pre []).
Qed.

Lemma FindCheckpointUUID_spec (lines : list TranscriptLine) (toolUseID : string) :
  ((forall l, In l lines -> ~ answers json l toolUseID) /\
   FindCheckpointUUID json lines toolUseID = ("", false))
  \/
  (exists pre l post,
     lines = (pre ++ l :: post)%list /\ answers json l toolUseID /\
     (forall x, In x pre -> ~ answers json x toolUseID) /\
     FindCheckpointUUID json lines toolUseID = (UUID l, true)).
Proof.
  induction lines as [|l ls IH]; cbn [FindCheckpointUUID].
  - left. split; [intros l [] | reflexivity].
  - assert (Hskip : ~ answers json l toolUseID ->
              ((forall x, In x (l :: ls) -> ~ answers json x toolUseID) /\
               FindCheckpointUUID json ls toolUseID = ("", false))
              \/
              (exists pre l' post,
                 l :: ls = (pre ++ l' :: post)%list /\ answers json l' toolUseID /\
                 (forall x, In x pre -> ~ answers json x toolUseID) /\
                 FindCheckpointUUID json ls toolUseID = (UUID l', true))).
    { intros Hl. destruct IH as [[Hall E] | (pre & l' & post & -> & Ha & Hpre & E)].
      - left. split; [| assumption]. intros x [<- | Hx]; [assumption | now apply Hall].
      - right. exists (l :: pre), l', post. split; [reflexivity |]. split; [assumption |].
        split; [| assumption]. intros x [<- | Hx]; [assumption | now apply Hpre]. }
    unfold answers in Hskip at 1.
    destruct (String.eqb (Type_ l) "user") eqn:Et; cbn [negb].
    2: { apply String.eqb_neq in Et. apply Hskip. tauto. }
    apply String.eqb_eq in Et.
    destruct (toolResults json (Message l)) as [content|] eqn:Ec.
    2: { apply Hskip. intros (_ & c & b & Hc & _). discriminate. }
    destruct (existsb _ content) eqn:Ex.
    + right. exists [], l, ls. split; [reflexivity |]. split; [| split; [intros x [] | reflexivity]].
      apply existsb_exists in Ex as (b & Hb & Hm). apply andb_true_iff in Hm as [H1 H2].
      apply String.eqb_eq in H1, H2. split; [assumption |]. now exists content, b.
    + apply Hskip. intros (_ & c & b & [= <-] & Hb & H1 & H2).
      assert (existsb (fun block => String.eqb (result_Type block) "tool_result"
                                    && String.eqb (ToolUseID block) toolUseID) content = true).
      { apply existsb_exists. exists b. split; [assumption |].
        now rewrite (proj2 (String.eqb_eq _ _) H1), (proj2 (String.eqb_eq _ _) H2). }
      congruence.
Qed.

(** [FindCheckpointUUID] reports a UUID exactly when some user line holds the
    [tool_result] of the tool use, and then it is the UUID of the first such
    line; otherwise it returns the empty string and [false]. *)
Theorem FindCheckpointUUID_first (lines : list TranscriptLine) (toolUseID : string) :
  (snd (FindCheckpointUUID json lines toolUseID) = true
   <-> exists l, In l lines /\ answers json l toolUseID) /\
  (snd (FindCheckpointUUID json lines toolUseID) = false ->
   fst (FindCheckpointUUID json lines toolUseID) = "") /\
  (forall pre l post,
     lines = (pre ++ l :: post)%list -> answers json l toolUseID ->
     (forall x, In x pre -> ~ answers json x toolUseID) ->
     FindCheckpointUUID json lines toolUseID = (UUID l, true)).
Proof.
  destruct (FindCheckpointUUID_spec lines toolUseID)
    as [[Hall E] | (pre & l & post & -> & Ha & Hpre & E)]; rewrite E; cbn [fst snd].
  - split; [| split; [reflexivity |]].
    + split; [discriminate |]. intros (l & Hl & Ha). now apply Hall in Ha.
    + intros pre l post -> Ha _. exfalso. apply (Hall l); [| assumption].
      apply in_or_app. right. now left.
  - split; [| split; [discriminate |]].
    + split; [| reflexivity]. intros _. exists l. split; [| assumption].
      apply in_or_app. right. now left.
    + intros pre' l' post' Heq Ha' Hpre'. do 2 f_equal.
      enough (pre = pre' /\ l = l') as [_ ->] by reflexivity.
      clear E. revert pre' Heq Hpre'. induction pre as [|x pre IH]; intros [|x' pre'] Heq Hpre'.
      * now injection Heq as -> _.
      * injection Heq as -> _. exfalso. apply (Hpre' x'); [now left | assumption].
      * injection Heq as -> _. exfalso. apply (Hpre l'); [now left | assumption].
      * injection Heq as -> Heq.
        destruct (IH (fun y Hy => Hpre y (or_intror Hy)) pre' Heq
                     (fun y Hy => Hpre' y (or_intror Hy))) as [-> ->]. now split.
Qed.

(** When [FindCheckpointUUID] reports a non-empty UUID that no two different
    lines of the transcript carry, truncating at it keeps the transcript up
    to and including the line that holds the tool result. *)
Theorem TruncateAtUUID_checkpoint (lines : list TranscriptLine) (toolUseID uuid : string) :
  (forall l l', In l lines -> In l' lines -> UUID l = uuid -> UUID l' = uuid -> l = l') ->
  uuid <> "" ->
  FindCheckpointUUID json lines toolUseID = (uuid, true) ->
  exists pre l,
    TruncateAtUUID lines uuid = (pre ++ [l])%list /\
    UUID l = uuid /\ answers json l toolUseID.
Proof.
  intros Hid Hne Hfind.
  destruct (FindCheckpointUUID_spec lines toolUseID)
    as [[_ E] | (pre & l & post & Hl & Ha & _ & E)]; [congruence |].
  rewrite E in Hfind. injection Hfind as Hu.
  assert (Hin : In l lines) by (subst lines; apply in_or_app; right; now left).
  destruct (TruncateAtUUID_cases lines uuid)
    as [[[-> | Hall] _] | (pre' & l' & post' & Hl' & _ & Hu' & _ & Et)].
  - contradiction.
  - now apply Hall in Hin.
  - exists pre', l'. split; [assumption |]. split; [assumption |].
    assert (Hin' : In l' lines) by (rewrite Hl'; apply in_or_app; right; now left).
    now rewrite (Hid l' l Hin' Hin Hu' Hu).
Qed.

Lemma block_step_extends (st : gmap string bool * slice string) (block : contentBlock) :
  exists more, elems (snd (block_step st block)) = (elems (snd st) ++ more)%list.
Proof.
  destruct st as [fileSet files]. unfold block_step.
  destruct (negb _); [exists []; now rewrite List.app_nil_r |].
  destruct (negb _); [exists []; now rewrite List.app_nil_r |].
  destruct (toolInputOf json (Input block)) as [input|];
    [| exists []; now rewrite List.app_nil_r].
  destruct (_ && _); [| exists []; now rewrite List.app_nil_r].
  cbn [snd]. rewrite elems_append. eauto.
Qed.

Lemma fold_block_step_extends (blocks : list contentBlock) :
  forall st, exists more,
    elems (snd (fold_left block_step blocks st)) = (elems (snd st) ++ more)%list.
Proof.
  induction blocks as [|b bs IH]; intros st; cbn [fold_left].
  - exists []. now rewrite List.app_nil_r.
  - destruct (IH (block_step st b)) as [m2 ->].
    destruct (block_step_extends st b) as [m1 ->].
    exists (m1 ++ m2)%list. now rewrite List.app_assoc.
Qed.

Lemma fold_line_step_extends (lines : list TranscriptLine) :
  forall st, exists more,
    elems (snd (fold_left line_step lines st)) = (elems (snd st) ++ more)%list.
Proof.
  induction lines as [|l ls IH]; intros st; cbn [fold_left].
  - exists []. now rewrite List.app_nil_r.
  - destruct (IH (line_step st l)) as [m2 ->].
    assert (H : exists m1, elems (snd (line_step st l)) = (elems (snd st) ++ m1)%list).
    { unfold Transcript.line_step.
      destruct (negb _); [exists []; now rewrite List.app_nil_r |].
      destruct (assistantContent json (Message l)) as [content|];
        [apply fold_block_step_extends | exists []; now rewrite List.app_nil_r]. }
    destruct H as [m1 ->]. exists (m1 ++ m2)%list. now rewrite List.app_assoc.
Qed.

Lemma TruncateAtUUID_prefix (lines : list TranscriptLine) (uuid : string) :
  exists rest, lines = (TruncateAtUUID lines uuid ++ rest)%list.
Proof.
  destruct (TruncateAtUUID_cases lines uuid)
    as [[_ E] | (pre & l & post & -> & _ & _ & _ & E)]; rewrite E.
  - exists []. now rewrite List.app_nil_r.
  - exists post. now rewrite <- List.app_assoc.
Qed.

(** Truncating a transcript only drops modified files from the end of the
    list: the files [ExtractModifiedFiles] finds in the transcript cut by
    [TruncateAtUUID] are the first ones it finds in the whole transcript, in
    the same order. *)
Theorem ExtractModifiedFiles_truncated (lines : list TranscriptLine) (uuid : string) :
  exists later,
    elems (ExtractModifiedFiles json FileModificationTools lines)
    = (elems (ExtractModifiedFiles json FileModificationTools (TruncateAtUUID lines uuid))
       ++ later)%list.
Proof.
  destruct (TruncateAtUUID_prefix lines uuid) as [rest E].
  remember (TruncateAtUUID lines uuid) as truncated eqn:Et. clear Et. subst lines.
  unfold ExtractModifiedFiles. rewrite fold_left_app.
  apply fold_line_step_extends.
Qed.

Lemma last_prompt_app (post before : list TranscriptLine) :
  (forall x, In x post -> prompt_of json x = None) ->
  last_prompt json (List.rev post ++ before) = last_prompt json before.
Proof.
  induction post as [|x post IH] using rev_ind; intros H; [reflexivity |].
  rewrite List.rev_app_distr. cbn [List.rev List.app last_prompt].
  rewrite (H x) by (apply in_or_app; right; now left).
  apply IH. intros y Hy. apply H, in_or_app. now left.
Qed.

(** [ExtractLastUserPrompt] returns what the last line that holds a prompt
    holds, whatever comes before it, and the empty string when no line holds
    one. *)
Theorem ExtractLastUserPrompt_spec (lines : list TranscriptLine) :
  ((forall l, In l lines -> prompt_of json l = None) ->
   ExtractLastUserPrompt json lines = "") /\
  (forall pre l post prompt,
     lines = (pre ++ l :: post)%list ->
     prompt_of json l = Some prompt ->
     (forall x, In x post -> prompt_of json x = None) ->
     ExtractLastUserPrompt json lines = prompt).
Proof.
  unfold ExtractLastUserPrompt. split.
  - intros H. rewrite <- (List.app_nil_r (List.rev lines)). now rewrite last_prompt_app.
  - intros pre l post prompt -> Hl Hpost.
    rewrite List.rev_app_distr. cbn [List.rev]. rewrite <- List.app_assoc.
    rewrite last_prompt_app by assumption. cbn [List.app last_prompt]. now rewrite Hl.
Qed.

End Decode.

Lemma TruncateAtUUID_checkpoint_witness :
  exists pre l,
    TruncateAtUUID tool_lines "u1" = (pre ++ [l])%list /\
    UUID l = "u1" /\ answers tool_json l "tool1".
Proof.
  apply (TruncateAtUUID_checkpoint tool_json tool_lines "tool1" "u1").
  - intros l l' Hl Hl' E E'. cbn in Hl, Hl'.
    repeat (destruct Hl as [<- | Hl]); try contradiction; try discriminate E;
      repeat (destruct Hl' as [<- | Hl']); try contradiction; try discriminate E';
      reflexivity.
  - discriminate.
  - reflexivity.
Defined.

(** The cases of [TestTruncateAtUUID] and [TestFindCheckpointUUID]. *)
Example transcript_tests :
  List.map UUID (TruncateAtUUID tool_lines "a2") = ["a1"; "u1"; "a2"] /\
  List.map UUID (TruncateAtUUID tool_lines "") = ["a1"; "u1"; "a2"; "u2"] /\
  List.map UUID (TruncateAtUUID tool_lines "nonexistent") = ["a1"; "u1"; "a2"; "u2"] /\
  FindCheckpointUUID tool_json tool_lines "tool1" = ("u1", true) /\
  FindCheckpointUUID tool_json tool_lines "tool2" = ("u2", true) /\
  FindCheckpointUUID tool_json tool_lines "tool3" = ("", false).
Proof. vm_compute. repeat split. Qed.

End TranscriptFacts.

(** ** The [resume] command *)

Module ResumeCmdFacts.

Import Go RegexpFacts Strings Trailers TrailerFacts Resume ResumeCmd.

(** [firstLine] returns the text before the first line feed: what it returns
    holds no line feed, and the argument is that text alone or that text, a
    line feed and a rest. *)
Theorem firstLine_spec (s : string) :
  has_newline (firstLine s) = false /\
  (s = firstLine s \/ exists rest, s = firstLine s ++ nl ++ rest).
Proof.
  induction s as [|c s [IH1 IH2]]; cbn [firstLine].
  - split; [reflexivity | now left].
  - destruct (Ascii.eqb c "010"%char) eqn:E.
    + apply Ascii.eqb_eq in E. subst c. split; [reflexivity |]. right. now exists s.
    + cbn [has_newline]. unfold newline. rewrite E, IH1. split; [reflexivity |].
      destruct IH2 as [IH2 | [rest IH2]].
      * left. now f_equal.
      * right. exists rest. rewrite app_cons. now f_equal.
Qed.

Lemma restored_refl (w w' : World) : files w' = files w -> restored w w'.
Proof. now left. Qed.





(** [runResume] switches branches at most once, and only when it is safe or
    agreed: it checks out a local branch only when the working tree has no
    uncommitted changes, fetches a branch only when it is missing locally,
    present on origin and the user has confirmed, and does neither when the
    branch is already checked out. *)
Theorem runResume_actions (env : Env) (g : Git) (branchName : string) (w : World) :
  match snd (runResume env g branchName w) with
  | [] => True
  | [Checkout b] =>
      b = branchName /\ GetCurrentBranch g <> Ok branchName /\
      BranchExistsLocally g branchName = Ok true /\
      HasUncommittedChanges g = Ok false
  | [Fetch b] =>
      b = branchName /\ GetCurrentBranch g <> Ok branchName /\
      BranchExistsLocally g branchName = Ok false /\
      BranchExistsOnRemote g branchName = Ok true /\
      form g ("Branch '" ++ branchName ++ "' not found locally. Fetch from origin?")
      = Answered true
  | _ => False
  end.
Proof.
  unfold runResume.
  destruct (match GetCurrentBranch g with
            | Ok currentBranch => String.eqb currentBranch branchName
            | Err _ => false
            end) eqn:Ecur; cbn [snd]; [exact I |].
  assert (Hcur : GetCurrentBranch g <> Ok branchName).
  { intros H. rewrite H, String.eqb_refl in Ecur. discriminate. }
  destruct (BranchExistsLocally g branchName) as [[|]|] eqn:El; cbn [snd]; [| | exact I].
  - destruct (HasUncommittedChanges g) as [[|]|] eqn:Ed; cbn [snd]; [exact I | | exact I].
    destruct (CheckoutBranch g branchName); cbn [snd]; auto.
  - destruct (BranchExistsOnRemote g branchName) as [[|]|] eqn:Er; cbn [snd];
      [| exact I | exact I].
    unfold promptFetchFromRemote.
    destruct (form g _) as [[|]| |] eqn:Ef; cbn [snd]; try exact I.
    destruct (FetchAndCheckoutRemoteBranch g branchName); cbn [snd]; auto.
Qed.

(** With uncommitted changes [runResume] refuses to leave the current branch
    for another local one: nothing is checked out, printed or written. *)
Example runResume_dirty :
  runResume missing_metadata dirty_main "feature" fresh_world
  = (Some "you have uncommitted changes. Please commit or stash them first", fresh_world, []).
Proof. reflexivity. Qed.

End ResumeCmdFacts.

(** ** The [summarize] command *)

Module SummarizeCmdFacts.

Import Go RegexpFacts Strings Summarize SummarizeFacts SummarizeCmd.

Lemma count_until_position (from : Hash) (pre post : list Hash) :
  ~ In from pre ->
  forall count, count_until from (pre ++ from :: post) count
                = inl (count + Z.of_nat (List.length pre))%Z.
Proof.
  induction pre as [|c pre IH]; intros Hpre count; cbn [count_until List.app].
  - rewrite String.eqb_refl. f_equal. cbn. lia.
  - rewrite (proj2 (String.eqb_neq c from)) by (intros ->; apply Hpre; now left).
    rewrite IH by (intros H; apply Hpre; now right). f_equal. cbn [List.length]. lia.
Qed.

Lemma count_until_absent (from : Hash) (cs : list Hash) :
  ~ In from cs ->
  forall count, count_until from cs count = inr (count + Z.of_nat (List.length cs))%Z.
Proof.
  induction cs as [|c cs IH]; intros Hcs count; cbn [count_until].
  - f_equal. cbn. lia.
  - rewrite (proj2 (String.eqb_neq c from)) by (intros ->; apply Hcs; now left).
    rewrite IH by (intros H; apply Hcs; now right). f_equal. cbn [List.length]. lia.
Qed.

(** When the repository opens and the commit [to] is found,
    [CountCommitsBetween] returns the number of commits the walk from [to]
    yields before it first yields [from], whether or not the walk would fail
    further on; when the walk ends without yielding [from] it returns the
    number of all the commits walked. *)
Theorem CountCommitsBetween_position (g : Git) (from to : Hash) :
  opens g = Ok tt -> CommitObject g to = Ok tt ->
  (forall pre post,
     visited (preorder g to) = (pre ++ from :: post)%list -> ~ In from pre ->
     CountCommitsBetween g from to = Ok (Z.of_nat (List.length pre))) /\
  (~ In from (visited (preorder g to)) -> broken (preorder g to) = None ->
   CountCommitsBetween g from to = Ok (Z.of_nat (List.length (visited (preorder g to))))).
Proof.
  intros Ho Hc. unfold CountCommitsBetween. rewrite Ho, Hc. split.
  - intros pre post -> Hpre. now rewrite count_until_position.
  - intros Habs Hb. now rewrite count_until_absent, Hb.
Qed.

Lemma CountCommitsBetween_position_witness :
  (forall pre post,
     visited (preorder on_main "c2") = (pre ++ "c0" :: post)%list -> ~ In "c0" pre ->
     CountCommitsBetween on_main "c0" "c2" = Ok (Z.of_nat (List.length pre))) /\
  (~ In "c0" (visited (preorder on_main "c2")) -> broken (preorder on_main "c2") = None ->
   CountCommitsBetween on_main "c0" "c2"
   = Ok (Z.of_nat (List.length (visited (preorder on_main "c2"))))).
Proof.
  apply (CountCommitsBetween_position on_main "c0" "c2"); reflexivity.
Defined.

Lemma fullMessage_summary_trailers (message : string) (info : result string)
    (strategy currentBranch : string) (mergeBase headHash : Hash) :
  fullMessage message (summary_trailers info strategy currentBranch mergeBase headHash)
  = message ++ nl ++ trailer_block info strategy currentBranch mergeBase headHash.
Proof.
  rewrite TrailerFacts.fullMessage_nonempty by apply insert_non_empty.
  unfold trailer_block.
  destruct info as [sessionID | e].
  - replace (sort_strings (map_to_list
               (summary_trailers (Ok sessionID) strategy currentBranch mergeBase headHash)).*1)
      with ["Entire-Session"; "Entire-Source-Branch"; "Entire-Source-Range";
            "Entire-Strategy"; "Generated-By"] by (vm_compute; reflexivity).
    cbn [fmap list_fmap Trailers.lines_text fold_right]. unfold trailer_line.
    replace (summary_trailers _ _ _ _ _ !! "Entire-Session") with (Some sessionID)
      by reflexivity.
    replace (summary_trailers _ _ _ _ _ !! "Entire-Source-Branch") with (Some currentBranch)
      by reflexivity.
    replace (summary_trailers _ _ _ _ _ !! "Entire-Source-Range")
      with (Some (take 7 mergeBase ++ ".." ++ take 7 headHash)) by reflexivity.
    replace (summary_trailers _ _ _ _ _ !! "Entire-Strategy") with (Some strategy)
      by reflexivity.
    replace (summary_trailers _ _ _ _ _ !! "Generated-By") with (Some "entire-cli")
      by reflexivity.
    cbn [default from_option id]. rewrite !app_assoc. reflexivity.
  - replace (sort_strings (map_to_list
               (summary_trailers (Err e) strategy currentBranch mergeBase headHash)).*1)
      with ["Entire-Source-Branch"; "Entire-Source-Range"; "Generated-By"]
      by (vm_compute; reflexivity).
    cbn [fmap list_fmap Trailers.lines_text fold_right]. unfold trailer_line.
    replace (summary_trailers _ _ _ _ _ !! "Entire-Source-Branch") with (Some currentBranch)
      by reflexivity.
    replace (summary_trailers _ _ _ _ _ !! "Entire-Source-Range")
      with (Some (take 7 mergeBase ++ ".." ++ take 7 headHash)) by reflexivity.
    replace (summary_trailers _ _ _ _ _ !! "Generated-By") with (Some "entire-cli")
      by reflexivity.
    cbn [default from_option id]. rewrite !app_assoc. reflexivity.
Qed.

Lemma ValidateSummarize_not_default (g : Git) (target : string) :
  ValidateSummarize g target false = None ->
  exists name, IsOnDefaultBranch g = Ok (false, name).
Proof.
  unfold ValidateSummarize. cbn [negb].
  destruct (IsOnDefaultBranch g) as [[[|] name]|]; try discriminate. eauto.
Qed.

(** What [CreateSquashedBranch] has written when it returns nil: one commit,
    whose only parent is the merge base, and one reference to it. *)
Lemma CreateSquashedBranch_ok (g : Git) (st : Storer)
    (sourceBranch targetBranch newBranchName message : string)
    (trailers : gmap string string) (author : GitAuthor) (written : Effects) :
  CreateSquashedBranch g st sourceBranch targetBranch newBranchName message trailers author
  = (None, written) ->
  exists mergeBase commit hash,
    GetMergeBase g sourceBranch targetBranch = Ok mergeBase /\
    objects written = [commit] /\
    SetEncodedObject st commit = Ok hash /\
    references written = [(NewBranchReferenceName newBranchName, hash)] /\
    ParentHashes commit = [mergeBase] /\
    Message commit = fullMessage message trailers.
Proof.
  unfold CreateSquashedBranch.
  destruct (opens g); [| discriminate].
  destruct (GetMergeBase g sourceBranch targetBranch) as [mergeBase|]; [| discriminate].
  destruct (reference g _) as [sourceHash| |]; [| discriminate | discriminate].
  destruct (CommitObject g sourceHash); [| discriminate].
  match goal with |- context [Encode st ?c] => set (commit := c) end.
  destruct (Encode st commit); [discriminate |].
  destruct (SetEncodedObject st commit) as [hash|] eqn:Es; [| discriminate].
  destruct (SetReference st _ hash); [discriminate |].
  intros [= <-]. exists mergeBase, commit, hash. cbn [objects references].
  repeat (split; [reflexivity || assumption |]). reflexivity.
Qed.

Lemma CreateSquashedBranch_error (g : Git) (st : Storer)
    (sourceBranch targetBranch newBranchName message : string)
    (trailers : gmap string string) (author : GitAuthor) (e : string) (written : Effects) :
  CreateSquashedBranch g st sourceBranch targetBranch newBranchName message trailers author
  = (Some e, written) ->
  references written = [] /\ stdout written = [].
Proof.
  unfold CreateSquashedBranch.
  repeat match goal with
         | |- context [match ?x with _ => _ end] => destruct x
         end; intros [= _ <-]; split; reflexivity.
Qed.

(** When [runSummarize] returns nil, the current branch is not the default
    branch, the summary branch ([entire/pr/<current branch>] unless a name
    was given) was not on the remote unless [--force] was given, and the
    command has stored one commit and set one reference, the summary branch,
    to it: the commit's only parent is the merge base with the target, and
    its message is the given message, a blank line and the trailers
    [Entire-Session] (with session info only), [Entire-Source-Branch],
    [Entire-Source-Range], [Entire-Strategy] (with session info only) and
    [Generated-By], in this order. *)
Theorem runSummarize_creates (g : Git) (st : Storer) (c : Cmd)
    (message target summaryBranchName : string) (force : bool) (written : Effects) :
  runSummarize g st c message target summaryBranchName force = (None, written) ->
  exists name currentBranch mergeBase headHash commit hash,
    let branch := if String.eqb summaryBranchName "" then "entire/pr/" ++ currentBranch
                  else summaryBranchName in
    IsOnDefaultBranch g = Ok (false, name) /\
    GetCurrentBranch g = Ok currentBranch /\
    GetMergeBase g currentBranch target = Ok mergeBase /\
    Head g = Ok headHash /\
    (force = false -> BranchExistsOnRemote c branch = Ok false) /\
    objects written = [commit] /\
    SetEncodedObject st commit = Ok hash /\
    references written = [(NewBranchReferenceName branch, hash)] /\
    ParentHashes commit = [mergeBase] /\
    Message commit
    = message ++ nl
      ++ trailer_block (GetSessionInfo c) (StrategyName c) currentBranch mergeBase headHash.
Proof.
  unfold runSummarize.
  destruct (ValidateSummarize g target false) eqn:Ev; [discriminate |].
  apply ValidateSummarize_not_default in Ev as [name Hd].
  destruct (GetCurrentBranch g) as [currentBranch|]; [| discriminate].
  set (branch := if String.eqb summaryBranchName "" then "entire/pr/" ++ currentBranch
                 else summaryBranchName).
  match goal with
  | |- match ?check with Some _ => _ | None => _ end = _ -> _ => destruct check eqn:Er
  end; [discriminate |].
  assert (Hremote : force = false -> BranchExistsOnRemote c branch = Ok false).
  { intros ->. cbn [negb] in Er.
    destruct (BranchExistsOnRemote c branch) as [[|]|]; [discriminate | reflexivity | discriminate]. }
  destruct (GetMergeBase g currentBranch target) as [mergeBase|] eqn:Em; [| discriminate].
  destruct (opens g); [| discriminate].
  destruct (Head g) as [headHash|]; [| discriminate].
  destruct (GetGitAuthor c) as [author|]; [| discriminate].
  destruct (CreateSquashedBranch _ _ _ _ _ _ _ _) as [[e|] w] eqn:Ec; [discriminate |].
  intros [= <-]. cbn [objects references].
  apply CreateSquashedBranch_ok in Ec
    as (mergeBase' & commit & hash & Em' & Ho & Hs & Hr & Hp & Hm).
  rewrite Em in Em'. injection Em' as <-.
  exists name, currentBranch, mergeBase, headHash, commit, hash.
  rewrite fullMessage_summary_trailers in Hm. cbn zeta. auto 12.
Qed.

(** When [runSummarize] returns an error it has set no reference and printed
    nothing: no branch is created or moved by a failed run. *)
Theorem runSummarize_error (g : Git) (st : Storer) (c : Cmd)
    (message target summaryBranchName : string) (force : bool)
    (e : string) (written : Effects) :
  runSummarize g st c message target summaryBranchName force = (Some e, written) ->
  references written = [] /\ stdout written = [].
Proof.
  unfold runSummarize.
  destruct (ValidateSummarize g target false); [now intros [= _ <-] |].
  destruct (GetCurrentBranch g) as [currentBranch|]; [| now intros [= _ <-]].
  match goal with
  | |- match ?check with Some _ => _ | None => _ end = _ -> _ => destruct check
  end; [now intros [= _ <-] |].
  destruct (GetMergeBase g currentBranch target) as [mergeBase|]; [| now intros [= _ <-]].
  destruct (opens g); [| now intros [= _ <-]].
  destruct (Head g) as [headHash|]; [| now intros [= _ <-]].
  destruct (GetGitAuthor c) as [author|]; [| now intros [= _ <-]].
  destruct (CreateSquashedBranch _ _ _ _ _ _ _ _) as [[e'|] w] eqn:Ec; [| discriminate].
  intros [= _ <-]. now apply CreateSquashedBranch_error in Ec.
Qed.

Lemma runSummarize_creates_witness :
  exists name currentBranch mergeBase headHash commit hash,
    let branch := if String.eqb "" "" then "entire/pr/" ++ currentBranch else "" in
    IsOnDefaultBranch feature2 = Ok (false, name) /\
    GetCurrentBranch feature2 = Ok currentBranch /\
    GetMergeBase feature2 currentBranch "main" = Ok mergeBase /\
    Head feature2 = Ok headHash /\
    (false = false -> BranchExistsOnRemote plain_cmd branch = Ok false) /\
    objects (snd (runSummarize feature2 plain_store plain_cmd "Add feature" "main" "" false))
    = [commit] /\
    SetEncodedObject plain_store commit = Ok hash /\
    references (snd (runSummarize feature2 plain_store plain_cmd "Add feature" "main" "" false))
    = [(NewBranchReferenceName branch, hash)] /\
    ParentHashes commit = [mergeBase] /\
    Message commit
    = "Add feature" ++ nl
      ++ trailer_block (GetSessionInfo plain_cmd) (StrategyName plain_cmd)
           currentBranch mergeBase headHash.
Proof.
  apply (runSummarize_creates feature2 plain_store plain_cmd "Add feature" "main" "" false).
  vm_compute. reflexivity.
Defined.

Lemma runSummarize_error_witness :
  references (snd (runSummarize on_main plain_store plain_cmd "Add feature" "develop" "" false))
  = [] /\
  stdout (snd (runSummarize on_main plain_store plain_cmd "Add feature" "develop" "" false))
  = [].
Proof.
  apply (runSummarize_error on_main plain_store plain_cmd "Add feature" "develop" "" false
           "cannot summarize 'main' branch - create a feature branch first").
  vm_compute. reflexivity.
Defined.

(** The summary commit of a feature branch one commit ahead of [main]. *)
Example runSummarize_test :
  let out := runSummarize feature2 plain_store plain_cmd "Add feature" "main" "" false in
  fst out = None /\
  references (snd out) = [("refs/heads/entire/pr/feature2", "commit-Add feat")] /\
  List.map Message (objects (snd out))
  = ["Add feature" ++ nl ++ nl ++ "Entire-Session: 2025-01-01-alpha" ++ nl
     ++ "Entire-Source-Branch: feature2" ++ nl ++ "Entire-Source-Range: base..work" ++ nl
     ++ "Entire-Strategy: manual-commit" ++ nl ++ "Generated-By: entire-cli"] /\
  List.nth 1 (stdout (snd out)) "" = "Source branch: feature2 (1 commits squashed)" ++ nl.
Proof. vm_compute. repeat split. Qed.

End SummarizeCmdFacts.

(** ** The [start] command *)

Module StartFacts.

Import Go Regexp RegexpFacts Strings StringsFacts Shadow ShadowFacts Trailers TrailerFacts Start.

Lemma ValidateFeatureName_valid (name : string) :
  ValidateFeatureName name = None -> all_in featureNameClass name = true.
Proof.
  unfold ValidateFeatureName. destruct (String.eqb name ""); [discriminate |].
  destruct (full_match featureNameRegex name) eqn:Em; [| discriminate].
  intros _. now apply full_match_lang, lang_AtLeast_Class in Em.
Qed.

(** [ValidateFeatureName] accepts exactly the non-empty names made of
    letters, digits, hyphens and underscores. *)
Theorem ValidateFeatureName_spec (name : string) :
  ValidateFeatureName name = None
  <-> name <> "" /\ all_in featureNameClass name = true.
Proof.
  unfold ValidateFeatureName.
  destruct (String.eqb name "") eqn:E.
  - apply String.eqb_eq in E. split; [discriminate | tauto].
  - apply String.eqb_neq in E.
    destruct (full_match featureNameRegex name) eqn:Em; cbn [negb].
    + apply full_match_lang, lang_AtLeast_Class in Em as [_ Ha]. tauto.
    + split; [discriminate |]. intros [_ Ha]. exfalso.
      assert (full_match featureNameRegex name = true); [| congruence].
      apply full_match_lang, lang_AtLeast_Class. split; [| assumption].
      destruct name; [contradiction | cbn; lia].
Qed.

(** *** Multi-line matching *)

Lemma match_to_eol_void (s : string) :
  forall r, (forall x, ~ lang r x) -> match_to_eol r s = false.
Proof.
  induction s as [|c s IH]; intros r Hr; cbn [match_to_eol].
  - destruct (nullable r) eqn:E; [| reflexivity].
    apply nullable_lang in E. now apply Hr in E.
  - rewrite IH by (intros x Hx; apply deriv_sound in Hx; now apply Hr in Hx).
    destruct (nullable r) eqn:E; [| reflexivity].
    apply nullable_lang in E. now apply Hr in E.
Qed.

(** For a pattern that matches no line feed, matching up to the end of the
    line is matching the first line. *)
Lemma match_to_eol_first_line (s : string) :
  forall r, (forall x, lang r x -> has_newline x = false) ->
    match_to_eol r s = full_match r (hd "" (split_lines s)).
Proof.
  induction s as [|c s IH]; intros r Hr; cbn [match_to_eol split_lines]; [reflexivity |].
  destruct (Ascii.eqb c newline) eqn:E.
  - apply Ascii.eqb_eq in E. subst c. cbn [hd full_match].
    rewrite match_to_eol_void, andb_true_r, orb_false_r; [reflexivity |].
    intros x Hx. apply deriv_sound, Hr in Hx. discriminate Hx.
  - rewrite andb_false_r, orb_false_l.
    rewrite IH.
    + pose proof (split_lines_nonnil s) as Hs.
      destruct (split_lines s) as [|l ls]; [contradiction | reflexivity].
    + intros x Hx. apply deriv_sound, Hr in Hx. cbn [has_newline] in Hx.
      now apply orb_false_iff in Hx.
Qed.

Lemma search_lines_split (s : string) :
  forall r bol, (forall x, lang r x -> has_newline x = false) ->
    search_lines r s bol
    = (bol && full_match r (hd "" (split_lines s)))
      || existsb (full_match r) (tl (split_lines s)).
Proof.
  induction s as [|c s IH]; intros r bol Hr.
  - cbn. now rewrite !orb_false_r.
  - cbn [search_lines]. rewrite match_to_eol_first_line, IH by assumption.
    cbn [split_lines]. pose proof (split_lines_nonnil s) as Hs.
    destruct (Ascii.eqb c newline).
    + destruct (split_lines s) as [|l ls]; [contradiction | reflexivity].
    + destruct (split_lines s) as [|l ls]; [contradiction | reflexivity].
Qed.

(** A multi-line search for a pattern that matches no line feed finds a line
    of the text that the pattern matches. *)
Lemma MatchLine_lines (r : regexp) (s : string) :
  (forall x, lang r x -> has_newline x = false) ->
  MatchLine r s = existsb (full_match r) (split_lines s).
Proof.
  intros Hr. unfold MatchLine. rewrite search_lines_split by assumption.
  pose proof (split_lines_nonnil s) as Hs.
  destruct (split_lines s) as [|l ls]; [contradiction | reflexivity].
Qed.

Lemma lang_Chr (c : ascii) (s : string) : lang (Chr c) s <-> s = String c "".
Proof.
  unfold Chr. split.
  - intros H. apply lang_Class_inv in H as (c' & -> & Hc).
    cbn in Hc. rewrite orb_false_r in Hc. apply andb_true_iff in Hc as [H1 H2].
    apply Nat.leb_le in H1, H2. cbn [fst snd] in *. f_equal.
    rewrite <- (ascii_nat_embedding c), <- (ascii_nat_embedding c'). f_equal. lia.
  - intros ->. constructor. unfold in_class, in_range. cbn [existsb fst snd].
    now rewrite Nat.leb_refl.
Qed.

Lemma worktreesEntryRegex_lang (line : string) :
  lang worktreesEntryRegex line
  <-> line = ".worktrees" \/ line = ".worktrees/" \/ line = ".worktrees/*".
Proof.
  unfold worktreesEntryRegex. split.
  - inversion 1 as [| |r1 r2 s1 s2 H1 H2| | | |]; subst.
    apply (proj1 (lang_Lit ".worktrees" _)) in H1 as ->.
    inversion H2 as [| | |r1 r2 s Ha|r1 r2 s Ha| |]; subst.
    + inversion Ha. now left.
    + inversion Ha as [| |r1 r2 t1 t2 Hs Ho| | | |]; subst.
      apply lang_Chr in Hs as ->.
      inversion Ho as [| | |r1 r2 s Hb|r1 r2 s Hb| |]; subst.
      * inversion Hb. right. now left.
      * apply lang_Chr in Hb as ->. right. now right.
  - intros [-> | [-> | ->]].
    + apply (lang_cat _ _ ".worktrees" ""); [now apply lang_Lit |]. apply lang_alt_l. constructor.
    + apply (lang_cat _ _ ".worktrees" "/"); [now apply lang_Lit |]. apply lang_alt_r.
      apply (lang_cat _ _ "/" ""); [now apply lang_Chr |]. apply lang_alt_l. constructor.
    + apply (lang_cat _ _ ".worktrees" "/*"); [now apply lang_Lit |]. apply lang_alt_r.
      apply (lang_cat _ _ "/" "*"); [now apply lang_Chr |]. apply lang_alt_r. now apply lang_Chr.
Qed.

Lemma worktreesEntryRegex_no_newline (x : string) :
  lang worktreesEntryRegex x -> has_newline x = false.
Proof. intros Hx. apply worktreesEntryRegex_lang in Hx as [-> | [-> | ->]]; reflexivity. Qed.

Lemma hasWorktreesEntry_intro (content line : string) :
  In line (split_lines content) -> lang worktreesEntryRegex line ->
  hasWorktreesEntry content = true.
Proof.
  intros Hl Hm. unfold hasWorktreesEntry.
  rewrite MatchLine_lines by apply worktreesEntryRegex_no_newline.
  apply existsb_exists. exists line. split; [assumption | now apply full_match_lang].
Qed.

(** [hasWorktreesEntry] tells whether one of the lines of the content, as
    [strings.Split(content, "\n")] gives them, is [.worktrees],
    [.worktrees/] or [.worktrees/*]. *)
Theorem hasWorktreesEntry_spec (content : string) :
  hasWorktreesEntry content = true
  <-> exists line, In line (split_lines content) /\
        (line = ".worktrees" \/ line = ".worktrees/" \/ line = ".worktrees/*").
Proof.
  split.
  - unfold hasWorktreesEntry.
    rewrite MatchLine_lines by apply worktreesEntryRegex_no_newline.
    rewrite existsb_exists. intros (l & Hl & Hm).
    apply full_match_lang, worktreesEntryRegex_lang in Hm. eauto.
  - intros (l & Hl & Hm). apply (hasWorktreesEntry_intro content l Hl).
    now apply worktreesEntryRegex_lang.
Qed.

(** *** The [.gitignore] entry *)

Lemma HasSuffix_inv (s suffix : string) :
  HasSuffix s suffix = true -> exists p, s = p ++ suffix.
Proof.
  unfold HasSuffix. intros H. apply andb_true_iff in H as [_ H].
  apply String.eqb_eq in H.
  exists (take (String.length s - String.length suffix) s).
  pose proof (take_drop (String.length s - String.length suffix) s) as T.
  rewrite H in T. now symmetry.
Qed.

Lemma hasWorktreesEntry_appended (p : string) :
  hasWorktreesEntry (p ++ nl ++ ".worktrees" ++ nl) = true.
Proof.
  apply (hasWorktreesEntry_intro _ ".worktrees");
    [| apply worktreesEntryRegex_lang; now left].
  change (p ++ nl ++ ".worktrees" ++ nl) with (p ++ String newline (".worktrees" ++ nl)).
  rewrite split_lines_app_newline. apply in_or_app. right. now left.
Qed.

(** The content [ensureWorktreesInGitignoreAt] writes holds the entry and
    starts with the old content. *)
Lemma newContent_entry (contentStr : string) :
  let newContent :=
    if (String.length contentStr =? 0)%nat then ".worktrees" ++ nl
    else if HasSuffix contentStr nl then contentStr ++ ".worktrees" ++ nl
    else contentStr ++ nl ++ ".worktrees" ++ nl in
  hasWorktreesEntry newContent = true /\ HasPrefix newContent contentStr = true.
Proof.
  cbn zeta. destruct contentStr as [|c s]; [split; reflexivity |].
  cbn [String.length Nat.eqb].
  destruct (HasSuffix (String c s) nl) eqn:E.
  - split; [| apply HasPrefix_app].
    apply HasSuffix_inv in E as [p ->]. rewrite app_assoc.
    apply hasWorktreesEntry_appended.
  - split; [apply hasWorktreesEntry_appended | apply HasPrefix_app].
Qed.

(** When [ensureWorktreesInGitignoreAt] returns nil, the file holds a
    [.worktrees] entry, starts with the content it had before (nothing
    for a missing file), and no other file has changed; running it again
    returns nil and changes nothing. *)
Theorem ensureWorktreesInGitignoreAt_idempotent (fs fs' : FS) (path : string) :
  ensureWorktreesInGitignoreAt fs path = (None, fs') ->
  hasWorktreesEntry (content_at fs' path) = true /\
  HasPrefix (content_at fs' path) (content_at fs path) = true /\
  (forall other, other <> path -> files fs' !! other = files fs !! other) /\
  ensureWorktreesInGitignoreAt fs' path = (None, fs').
Proof.
  unfold ensureWorktreesInGitignoreAt, ReadFile, content_at.
  destruct (read_error fs path) eqn:Er; [discriminate |].
  set (contentStr := default "" (files fs !! path)).
  assert (Hsame : forall (k : string -> error * FS),
            match (match files fs !! path with
                   | Some content => Content content
                   | None => NotExist
                   end) with
            | ReadFailed e => (Some ("failed to read .gitignore: " ++ e), fs)
            | read => k (match read with Content content => content | _ => "" end)
            end = k contentStr).
  { intros k. subst contentStr. now destruct (files fs !! path). }
  rewrite (Hsame (fun c =>
             if hasWorktreesEntry c then (None, fs)
             else match WriteFile fs path
                          (if (String.length c =? 0)%nat then ".worktrees" ++ nl
                           else if HasSuffix c nl then c ++ ".worktrees" ++ nl
                           else c ++ nl ++ ".worktrees" ++ nl) with
                  | Err e => (Some ("failed to write .gitignore: " ++ e), fs)
                  | Ok fs' => (None, fs')
                  end)).
  clear Hsame.
  destruct (hasWorktreesEntry contentStr) eqn:Eh.
  - intros [= <-]. fold contentStr. rewrite Er.
    split; [assumption |]. split; [| split; [reflexivity |]].
    + apply HasPrefix_iff. exists "". now rewrite app_nil_r.
    + destruct (files fs !! path) as [content|] eqn:Ef.
      * change (hasWorktreesEntry content = true) in Eh. now rewrite Eh.
      * change (hasWorktreesEntry "" = true) in Eh. discriminate Eh.
  - destruct (newContent_entry contentStr) as [Hentry Hprefix]. cbn zeta in Hentry, Hprefix.
    unfold WriteFile. destruct (write_error fs path); [discriminate |].
    intros [= <-]. cbn [files read_error write_error].
    rewrite lookup_insert_eq, Er. cbn [default].
    split; [assumption |]. split; [assumption |]. split.
    + intros other Ho. now rewrite lookup_insert_ne by congruence.
    + now rewrite Hentry.
Qed.

Lemma ensureWorktreesInGitignoreAt_idempotent_witness :
  let fs' := snd (ensureWorktreesInGitignoreAt node_project ".gitignore") in
  hasWorktreesEntry (content_at fs' ".gitignore") = true /\
  HasPrefix (content_at fs' ".gitignore") (content_at node_project ".gitignore") = true /\
  (forall other, other <> ".gitignore" -> files fs' !! other = files node_project !! other) /\
  ensureWorktreesInGitignoreAt fs' ".gitignore" = (None, fs').
Proof.
  apply (ensureWorktreesInGitignoreAt_idempotent node_project). reflexivity.
Defined.

(** *** Feature branches and shadow branches *)

Lemma app_eq_app (p n q h : string) :
  p ++ n = q ++ h ->
  (exists t, p = q ++ t) \/ (exists t, t <> "" /\ q = p ++ t /\ n = t ++ h).
Proof.
  revert q. induction p as [|c p IH]; intros q H.
  - destruct q as [|d q].
    + left. now exists "".
    + right. exists (String d q). split; [discriminate |]. split; [reflexivity |]. exact H.
  - destruct q as [|d q].
    + left. now exists (String c p).
    + rewrite !app_cons in H. injection H as -> H.
      destruct (IH q H) as [[t ->] | (t & Ht & -> & ->)].
      * left. now exists t.
      * right. exists t. now rewrite app_cons.
Qed.

Lemma entire_suffix_not_name (p t : string) :
  p ++ t = "entire/" -> t <> "" -> all_in featureNameClass t = false.
Proof.
  intros H Ht.
  destruct p as [|c0 [|c1 [|c2 [|c3 [|c4 [|c5 [|c6 p]]]]]]];
    rewrite ?app_cons, ?app_nil_l in H;
    simplify_eq; try reflexivity.
  match goal with H : _ ++ t = "" |- _ => apply app_eq_nil in H as [_ ->] end.
  contradiction.
Qed.

(** A branch that [start] names after a valid feature name is a shadow
    branch, and so one that [clean] removes, only when the configured prefix
    itself starts with [entire/]; with the default prefix it never is. *)
Theorem GetBranchName_shadow (name prefix : string) :
  ValidateFeatureName name = None ->
  IsShadowBranch (GetBranchName name prefix) = true ->
  HasPrefix prefix "entire/" = true.
Proof.
  intros Hv Hs. apply ValidateFeatureName_valid in Hv as Hn.
  apply IsShadowBranch_lang in Hs as [Hs _].
  apply shadowBranchPattern_lang in Hs as (h & E & _).
  unfold GetBranchName in E.
  apply app_eq_app in E as [[t E] | (t & Ht & E & ->)].
  - destruct (String.eqb prefix ""); [discriminate E |].
    apply HasPrefix_iff. now exists t.
  - exfalso. rewrite all_in_app in Hn. apply andb_true_iff in Hn as [Hn _].
    symmetry in E. rewrite (entire_suffix_not_name _ t E Ht) in Hn. discriminate.
Qed.

Lemma GetBranchName_shadow_witness : HasPrefix "entire/" "entire/" = true.
Proof.
  apply (GetBranchName_shadow "abc1234" "entire/"); reflexivity.
Defined.

(** The cases of [TestHasWorktreesEntry] and [TestValidateFeatureName]. *)
Example start_tests :
  List.map hasWorktreesEntry
    [""; "node_modules/" ++ nl ++ ".env" ++ nl; ".worktrees" ++ nl; ".worktrees/" ++ nl;
     ".worktrees/*" ++ nl; "a" ++ nl ++ ".worktrees" ++ nl ++ "b" ++ nl;
     "# worktrees" ++ nl ++ ".worktrees" ++ nl; "worktrees" ++ nl; "my.worktrees" ++ nl]
  = [false; false; true; true; true; true; true; false; false] /\
  List.map ValidateFeatureName ["feature"; "my-feature"; "abc_123-XYZ"] = [None; None; None] /\
  ValidateFeatureName "" = Some "feature name is required" /\
  ValidateFeatureName "my feature"
  = Some "invalid feature name 'my feature': use alphanumeric characters, hyphens, and underscores only" /\
  GetBranchName "test" "" = "feature/test" /\
  GetBranchName "bugfix" "fix/" = "fix/bugfix" /\
  content_at (snd (EnsureWorktreesInGitignore node_project)) ".gitignore"
  = "node_modules/" ++ nl ++ ".worktrees" ++ nl.
Proof. vm_compute. repeat split. Qed.

End StartFacts.

(** ** Git hooks *)

Module HooksFacts.

Import Go Strings StringsFacts Start Hooks.

Lemma hook_contents_marked (localDev : bool) :
  let cmdPrefix := if localDev then "go run ./cmd/entire/main.go" else "entire" in
  Contains (prepareCommitMsgContent cmdPrefix) entireHookMarker = true /\
  Contains (commitMsgContent cmdPrefix) entireHookMarker = true /\
  Contains (postCommitContent cmdPrefix) entireHookMarker = true /\
  Contains (prePushContent cmdPrefix) entireHookMarker = true.
Proof. destruct localDev; vm_compute; repeat split. Qed.

Lemma marked_insert (m : gmap string string) (path path' content : string) :
  Contains content entireHookMarker = true ->
  (path = path' \/
   exists data, m !! path = Some data /\ Contains data entireHookMarker = true) ->
  exists data, <[path' := content]> m !! path = Some data /\
               Contains data entireHookMarker = true.
Proof.
  intros Hc H. rewrite lookup_insert. destruct (decide (path' = path)) as [E | E].
  - now exists content.
  - destruct H as [-> | H]; [contradiction | exact H].
Qed.

(** When [InstallGitHook] returns nil and the files it wrote can be read
    back, [IsGitHookInstalled] holds: each of the four hook files is there
    and carries the marker.  [filepath.Join] is taken with the one property
    that joining in two steps is joining in one. *)
Theorem InstallGitHook_installed (env : Env) (fs fs' : FS) (silent : bool)
    (out : list string) :
  (forall gitDir hook,
     Join env [Join env [gitDir; "hooks"]; hook] = Join env [gitDir; "hooks"; hook]) ->
  (forall path, read_error fs path = None) ->
  InstallGitHook env fs silent = (None, fs', out) ->
  IsGitHookInstalled env fs' = true.
Proof.
  intros HJ Hread. unfold InstallGitHook, IsGitHookInstalled, writeHookFile, WriteFile.
  destruct (GetGitDir env) as [gitDir|]; [| discriminate].
  destruct (MkdirAll env _); [discriminate |].
  rewrite !HJ.
  destruct (hook_contents_marked (isLocalDev env)) as (H1 & H2 & H3 & H4). cbn zeta in *.
  set (cmdPrefix := if isLocalDev env then "go run ./cmd/entire/main.go" else "entire") in *.
  destruct (write_error fs (Join env [gitDir; "hooks"; "prepare-commit-msg"]));
    [discriminate |]. cbn [write_error].
  destruct (write_error fs (Join env [gitDir; "hooks"; "commit-msg"]));
    [discriminate |]. cbn [write_error].
  destruct (write_error fs (Join env [gitDir; "hooks"; "post-commit"]));
    [discriminate |]. cbn [write_error].
  destruct (write_error fs (Join env [gitDir; "hooks"; "pre-push"]));
    [discriminate |].
  intros [= <- _]. unfold hookNames, hooks_present, ReadFile. cbn [read_error files].
  rewrite !Hread.
  repeat match goal with
         | |- context [<[?p4 := ?c4]> (<[?p3 := ?c3]> (<[?p2 := ?c2]> (<[?p1 := ?c1]> ?m)))
                       !! ?p] =>
             let M := fresh "M" in
             assert (M : exists data,
                       <[p4 := c4]> (<[p3 := c3]> (<[p2 := c2]> (<[p1 := c1]> m))) !! p
                       = Some data /\ Contains data entireHookMarker = true)
               by (repeat (apply marked_insert; [assumption |]; first [now left | right]));
             destruct M as (? & -> & ->); cbn [negb]
         end.
  reflexivity.
Qed.

Lemma InstallGitHook_installed_witness :
  IsGitHookInstalled fresh_env (snd (fst (InstallGitHook fresh_env node_project true))) = true.
Proof.
  apply (InstallGitHook_installed fresh_env node_project _ true []).
  - intros gitDir hook. cbn [Join fresh_env Transcript.Join].
    now rewrite !RegexpFacts.app_assoc.
  - reflexivity.
  - reflexivity.
Defined.

End HooksFacts.
